(** * ai-inbox-automation: the follow-up scheduler, the retrieval glue,
      the reply drafter and the mail body extraction, embedded in Rocq.

    The Python sources are embedded shallowly.  A method that reads the
    clock, writes the log, touches the follow-up file or raises becomes a
    computation in a small state-and-exception monad over one [World]
    record; what the code calls and does not define (the LLM providers,
    the embedding model, the vector index, the base64/UTF-8 codec and
    [json.loads]) is a record [Services] of functions that every method
    takes.  The first part holds the definitions, the second part the
    lemmas and the theorems. *)

From Stdlib Require Import ZArith QArith List String Ascii Bool Lia.
From Stdlib Require Import Sorting.Sorted Sorting.Permutation DecimalString.
From Stdlib Require Import SpecFloat.
Import ListNotations.

Local Open Scope Z_scope.
Local Open Scope list_scope.

(* ================================================================== *)
(** ** Python values the embedding needs *)
(* ================================================================== *)

Module Py.

(** The exceptions the modelled code can meet.  All of them derive
    from [Exception], so [except Exception] catches each one. *)
Inductive exn : Type :=
| OverflowError
| IndexError
| KeyError (key : string)
| TypeError
| AttributeError
| NameError (name : string)
| ImportError (name : string)
| ValueError
| ZeroDivisionError
| OSError
| ServiceError (code : Z).

Inductive outcome (A : Type) : Type :=
| Returns (a : A)
| Raises (e : exn).
Arguments Returns {A} a.
Arguments Raises {A} e.

(** A computation over a state [S]: it ends by returning or by
    raising, and in both cases the state changes made so far stay. *)
Definition M (S A : Type) : Type := S -> outcome A * S.

Section Monad.
Context {S : Type}.

Definition ret {A} (a : A) : M S A := fun s => (Returns a, s).

Definition raise {A} (e : exn) : M S A := fun s => (Raises e, s).

Definition lift {A} (o : outcome A) : M S A := fun s => (o, s).

Definition bind {A B} (m : M S A) (k : A -> M S B) : M S B :=
  fun s =>
    match m s with
    | (Returns a, s') => k a s'
    | (Raises e, s') => (Raises e, s')
    end.

(** [try: body / except Exception as e: handler e]. *)
Definition try_except {A} (body : M S A) (handler : exn -> M S A) : M S A :=
  fun s =>
    match body s with
    | (Returns a, s') => (Returns a, s')
    | (Raises e, s') => handler e s'
    end.

Definition gets {A} (f : S -> A) : M S A := fun s => (Returns (f s), s).

Definition modify (f : S -> S) : M S unit := fun s => (Returns tt, f s).
End Monad.

(** The pure fragment: [outcome] alone is the exception monad. *)
Definition obind {A B} (o : outcome A) (k : A -> outcome B) : outcome B :=
  match o with
  | Returns a => k a
  | Raises e => Raises e
  end.

(** [l[i]] on a list, for an index that is not negative. *)
Definition index {A} (l : list A) (i : nat) : outcome A :=
  match nth_error l i with
  | Some a => Returns a
  | None => Raises IndexError
  end.

(** Truth value of a list and of a string: empty is falsy. *)
Definition truthy {A} (l : list A) : bool :=
  match l with [] => false | _ :: _ => true end.

Definition nonempty (s : string) : bool :=
  match s with EmptyString => false | String _ _ => true end.

End Py.
Import Py.

Declare Scope py_scope.
Delimit Scope py_scope with py.
Notation "x <- m ;; k" := (bind m (fun x => k))
  (at level 61, m at next level, right associativity) : py_scope.
Notation "m ;; k" := (bind m (fun _ => k))
  (at level 61, right associativity) : py_scope.
Notation "x <~ o ;; k" := (obind o (fun x => k))
  (at level 61, o at next level, right associativity) : py_scope.

(* ================================================================== *)
(** ** Insertion-ordered dictionaries with string keys *)
(* ================================================================== *)

(** A Python [dict] keeps its items in insertion order.  It is embedded
    as the list of its items; a list is a dictionary when its keys are
    pairwise distinct ([NoDup (keys d)]). *)
Module Dict.
Section Ops.
Context {V : Type}.

Definition t : Type := list (string * V).

Definition keys (d : t) : list string := map fst d.
Definition values (d : t) : list V := map snd d.

(** [d.get(k)]. *)
Fixpoint get (k : string) (d : t) : option V :=
  match d with
  | [] => None
  | (k', v) :: d' => if String.eqb k k' then Some v else get k d'
  end.

(** [k in d]. *)
Definition mem (k : string) (d : t) : bool :=
  match get k d with Some _ => true | None => false end.

(** [d.get(k, default)]. *)
Definition get_or (k : string) (default : V) (d : t) : V :=
  match get k d with Some v => v | None => default end.

(** [d[k]]. *)
Definition getitem (d : t) (k : string) : outcome V :=
  match get k d with
  | Some v => Returns v
  | None => Raises (KeyError k)
  end.

(** [d[k] = v]: an existing key keeps its place and gets the new
    value, a new key goes to the end. *)
Fixpoint set (k : string) (v : V) (d : t) : t :=
  match d with
  | [] => [(k, v)]
  | (k', v') :: d' =>
      if String.eqb k k' then (k, v) :: d' else (k', v') :: set k v d'
  end.

(** [del d[k]] for a key that is present: its item goes, the others
    keep their order. *)
Definition del (k : string) (d : t) : t :=
  filter (fun kv => negb (String.eqb k (fst kv))) d.
End Ops.
Arguments t V : clear implicits.
End Dict.

(* ================================================================== *)
(** ** datetime *)
(* ================================================================== *)

(** A naive [datetime] is the number of microseconds since
    0001-01-01T00:00:00, the resolution of the type.  The dictionaries
    of the scheduler hold [isoformat()] strings, which
    [datetime.fromisoformat] reads back to the same value; the embedding
    keeps the value the string denotes. *)
Definition datetime : Type := Z.

Definition day_us : Z := 86400 * 1000000.

(** [date.max.toordinal()]: 9999-12-31 is day 3652059 counted from 1. *)
Definition MAXORDINAL : Z := 3652059.

(** [timedelta.max.days]. *)
Definition MAX_DELTA_DAYS : Z := 999999999.

(** [timedelta(days=n)], in microseconds.  The constructor refuses a
    magnitude above [timedelta.max.days] with [OverflowError]. *)
Definition timedelta (days : Z) : outcome Z :=
  if Z.abs days <=? MAX_DELTA_DAYS then Returns (days * day_us)
  else Raises OverflowError.

(** [datetime.__add__]: the sum must be a date of the years 1..9999,
    or the addition raises [OverflowError] ("date value out of
    range"). *)
Definition datetime_add (d : datetime) (delta : Z) : outcome datetime :=
  let r := d + delta in
  if (0 <=? r) && (r <? MAXORDINAL * day_us) then Returns r
  else Raises OverflowError.

(** [d.date()], as the number of whole days since 0001-01-01. *)
Definition date_of (d : datetime) : Z := d / day_us.


(* ================================================================== *)
(** ** The world outside the agents *)
(* ================================================================== *)

(** [core/config.py]: the one setting the scheduler reads. *)
Record Settings : Type := mkSettings {
  follow_up_days : Z
}.

(** The dictionary [schedule_follow_up] stores under an email id, with
    the keys it writes.  [completed_at] is the key [mark_completed]
    adds; [status] is compared as a string, as the code does. *)
Record FollowUp : Type := mkFollowUp {
  email_id : string;
  subject : string;
  from_ : string;
  follow_up_date : datetime;
  created_at : datetime;
  status : string;
  completed_at : option datetime
}.

Definition Store : Type := Dict.t FollowUp.

(** What [storage_path] holds: nothing, the JSON text of a store, or
    text that [json.load] rejects (an interrupted dump). *)
Inductive File : Type :=
| Missing
| Saved (d : Store)
| Garbled.

(** What the operating system does with one attempt to open and use
    the follow-up file. *)
Inductive Fault : Type :=
| NoFault
| OpenFails (e : exn)
| TransferFails (e : exn).

Inductive Level : Type := INFO | WARNING | ERROR.

(** One constructor per [logger] call of the modelled code, with the
    values its f-string interpolates. *)
Inductive Message : Type :=
| Scheduler_agent_initialized
| Error_loading_follow_ups (e : exn)
| Error_saving_follow_ups (e : exn)
| Scheduled_follow_up (id : string) (on : Z)
| Found_due_follow_ups (n : nat)
| Marked_completed (id : string)
| Cancelled_follow_up (id : string)
| Error_searching_vector_store (e : exn)
| Error_extracting_sender_name (e : exn)
| Drafted_reply (id : string)
| Error_drafting_reply (e : exn)
| Refined_reply (id : string)
| Error_refining_reply (e : exn)
| Summarized_email (id : string)
| Error_summarizing_email (e : exn).

Definition LogRecord : Type := (Level * Message)%type.

(** A stored email/response pair of the vector index.  The floats
    the code only hands on (embeddings, distances, the literals of a
    temperature or a confidence) are rationals here; the one float it
    computes, the completion rate of the scheduler, is a binary64
    number. *)
Record EmbeddingRecord : Type := mkEmbeddingRecord {
  er_id : string;
  er_embedding : list Q;
  er_document : string;
  er_metadata : Dict.t string
}.

Record World : Type := mkWorld {
  clock : nat -> datetime;     (* the successive values of datetime.now() *)
  reads : nat;                 (* how many of them were consumed *)
  faults : nat -> Fault;       (* the fate of the successive file accesses *)
  accesses : nat;
  file : File;                 (* the contents of storage_path *)
  log : list LogRecord;
  follow_ups : Store;          (* SchedulerAgent.follow_ups *)
  collection : list EmbeddingRecord   (* the chroma collection *)
}.

Definition tick (w : World) : World :=
  mkWorld (clock w) (S (reads w)) (faults w) (accesses w) (file w) (log w)
          (follow_ups w) (collection w).

Definition touch (f : File) (w : World) : World :=
  mkWorld (clock w) (reads w) (faults w) (S (accesses w)) f (log w)
          (follow_ups w) (collection w).

Definition emit (r : LogRecord) (w : World) : World :=
  mkWorld (clock w) (reads w) (faults w) (accesses w) (file w) (log w ++ [r])
          (follow_ups w) (collection w).

Definition put_follow_ups (d : Store) (w : World) : World :=
  mkWorld (clock w) (reads w) (faults w) (accesses w) (file w) (log w)
          d (collection w).

(** [datetime.now()]. *)
Definition datetime_now : M World datetime :=
  fun w => (Returns (clock w (reads w)), tick w).

Definition logger_info (m : Message) : M World unit := modify (emit (INFO, m)).
Definition logger_error (m : Message) : M World unit := modify (emit (ERROR, m)).

(* ================================================================== *)
(** ** agents/scheduler.py *)
(* ================================================================== *)

Module SchedulerAgent.
Local Open Scope py_scope.
Local Open Scope string_scope.

(** [with open(self.storage_path, "r") as f: return json.load(f)]. *)
Definition read_file : M World Store :=
  fun w =>
    match faults w (accesses w), file w with
    | OpenFails e, f => (Raises e, touch f w)
    | TransferFails e, f => (Raises e, touch f w)
    | NoFault, Saved d => (Returns d, touch (Saved d) w)
    | NoFault, f => (Raises ValueError, touch f w)
    end.

Definition _load_follow_ups : M World Store :=
  fun w =>
    match file w with
    | Missing => (Returns [], w)
    | _ =>
        try_except read_file
          (fun e => logger_error (Error_loading_follow_ups e) ;; ret []) w
    end.

(** [SchedulerAgent.__init__], after the directory is made. *)
Definition init : M World unit :=
  d <- _load_follow_ups ;;
  modify (put_follow_ups d) ;;
  logger_info Scheduler_agent_initialized.

(** [with open(self.storage_path, "w") as f: json.dump(self.follow_ups, f)]:
    opening truncates the file, so a dump that fails leaves text that
    is no JSON document. *)
Definition write_file : M World unit :=
  fun w =>
    match faults w (accesses w) with
    | OpenFails e => (Raises e, touch (file w) w)
    | TransferFails e => (Raises e, touch Garbled w)
    | NoFault => (Returns tt, touch (Saved (follow_ups w)) w)
    end.

Definition _save_follow_ups : M World unit :=
  try_except write_file (fun e => logger_error (Error_saving_follow_ups e)).

(** What [schedule_follow_up] returns. *)
Record Scheduled : Type := mkScheduled {
  sch_follow_up_date : datetime;
  scheduled : bool
}.

Definition schedule_follow_up (settings : Settings) (id : string)
    (email_data : Dict.t string) (days_until : option Z) : M World Scheduled :=
  let days_until :=
    match days_until with None => follow_up_days settings | Some d => d end in
  now <- datetime_now ;;
  delta <- lift (timedelta days_until) ;;
  due <- lift (datetime_add now delta) ;;
  created <- datetime_now ;;
  modify (fun w =>
    put_follow_ups
      (Dict.set id
         {| email_id := id;
            subject := Dict.get_or "subject" "" email_data;
            from_ := Dict.get_or "from" "" email_data;
            follow_up_date := due;
            created_at := created;
            status := "pending";
            completed_at := None |}
         (follow_ups w)) w) ;;
  _save_follow_ups ;;
  logger_info (Scheduled_follow_up id (date_of due)) ;;
  ret {| sch_follow_up_date := due; scheduled := true |}.

Definition is_pending (f : FollowUp) : bool := String.eqb (status f) "pending".

(** The body of the loop of [get_due_follow_ups]. *)
Definition due_step (now : datetime) (due_follow_ups : list FollowUp)
    (item : string * FollowUp) : list FollowUp :=
  let follow_up := snd item in
  if is_pending follow_up then
    if (follow_up_date follow_up <=? now)%Z then due_follow_ups ++ [follow_up]
    else due_follow_ups
  else due_follow_ups.

Definition get_due_follow_ups : M World (list FollowUp) :=
  now <- datetime_now ;;
  items <- gets follow_ups ;;
  let due_follow_ups := fold_left (due_step now) items [] in
  logger_info (Found_due_follow_ups (List.length due_follow_ups)) ;;
  ret due_follow_ups.

Definition complete (at_ : datetime) (f : FollowUp) : FollowUp :=
  {| email_id := email_id f;
     subject := subject f;
     from_ := from_ f;
     follow_up_date := follow_up_date f;
     created_at := created_at f;
     status := "completed";
     completed_at := Some at_ |}.

Definition mark_completed (id : string) : M World unit :=
  d <- gets follow_ups ;;
  match Dict.get id d with
  | Some f =>
      now <- datetime_now ;;
      modify (fun w => put_follow_ups (Dict.set id (complete now f) (follow_ups w)) w) ;;
      _save_follow_ups ;;
      logger_info (Marked_completed id)
  | None => ret tt
  end.

Definition cancel_follow_up (id : string) : M World unit :=
  d <- gets follow_ups ;;
  if Dict.mem id d then
    modify (fun w => put_follow_ups (Dict.del id (follow_ups w)) w) ;;
    _save_follow_ups ;;
    logger_info (Cancelled_follow_up id)
  else ret tt.

Definition get_all_follow_ups : M World Store := gets follow_ups.

(** A Python [float] is an IEEE 754 binary64 number: 53 bits of
    mantissa, exponents below 1024, every operation rounded to the
    nearest, ties to even. *)
Definition float : Type := spec_float.
Definition float_div : float -> float -> float := SFdiv 53 1024.
Definition float_mul : float -> float -> float := SFmul 53 1024.

(** A Python number: [0] is an [int], [completed / total * 100] is a
    [float]. *)
Inductive number : Type :=
| Int (z : Z)
| Float (x : float).

(** An [int] as the operand of a division: its exact value, with as
    many bits as it has. *)
Definition exactly (z : Z) : float :=
  match z with
  | Z0 => S754_zero false
  | Zpos p => S754_finite false p 0
  | Zneg p => S754_finite true p 0
  end.

(** [a / b] on ints: the quotient of the two integers rounded once to
    a [float]; [ZeroDivisionError] for [b = 0], [OverflowError] when
    the quotient is too large for a [float]. *)
Definition truediv (a b : Z) : outcome float :=
  if (b =? 0)%Z then Raises ZeroDivisionError
  else match float_div (exactly a) (exactly b) with
       | S754_infinity _ => Raises OverflowError
       | q => Returns q
       end.

(** [100] as the [float] operand [x * 100] converts it to:
    [7036874417766400 * 2^-46]. *)
Definition hundred : float := S754_finite false 7036874417766400 (-46).

Record Stats : Type := mkStats {
  total : Z;
  pending : Z;
  completed : Z;
  completion_rate : number
}.

(** [sum(1 for f in values if f["status"] == s)]. *)
Definition count_status (s : string) (d : Store) : Z :=
  fold_left (fun acc f => if String.eqb (status f) s then acc + 1 else acc)
            (Dict.values d) 0.

Definition get_follow_up_stats : M World Stats :=
  d <- gets follow_ups ;;
  let total := Z.of_nat (List.length d) in
  let pending := count_status "pending" d in
  let completed := count_status "completed" d in
  rate <- (if (0 <? total)%Z
           then q <- lift (truediv completed total) ;;
                ret (Float (float_mul q hundred))
           else ret (Int 0)) ;;
  ret {| total := total; pending := pending; completed := completed;
         completion_rate := rate |}.

End SchedulerAgent.

(* ================================================================== *)
(** ** Third-party services *)
(* ================================================================== *)

(** A parsed JSON document, what [json.loads] returns. *)
#[local] Unset Elimination Schemes.
Inductive json : Type :=
| JNull
| JBool (b : bool)
| JInt (z : Z)
| JFloat (q : Q)
| JStr (s : string)
| JArr (l : list json)
| JObj (o : list (string * json)).
#[local] Set Elimination Schemes.

(** The dictionary [collection.query] returns; each key may hold
    [None]. *)
Record QueryResult : Type := mkQueryResult {
  documents : option (list (list string));
  distances : option (list (list Q));
  metadatas : option (list (list (Dict.t string)))
}.

(** The text an agent sends to the model: the fixed template of the
    method that builds it, kept as the values the template
    interpolates, in their order of appearance. *)
Inductive Prompt : Type :=
| DraftPrompt (from_field subject_field body_field category priority : string)
              (summary : json) (key_points action_items : string)
              (sentiment : json)
              (rag_context additional_context sender_name : string)
| RefinePrompt (original_draft feedback from_field subject_field : string)
| SummaryPrompt (from_field subject_field body_field category priority : string).

(** What a chat message says: plain text, or a prompt followed by a
    suffix. *)
Inductive Content : Type :=
| Text (s : string)
| Filled (prompt : Prompt) (suffix : string).

Record ChatMessage : Type := mkChatMessage {
  role : string;
  content : Content
}.

(** [client.messages.create(...)] of the Anthropic SDK. *)
Record AnthropicRequest : Type := mkAnthropicRequest {
  a_model : string;
  a_max_tokens : Z;
  a_temperature : Q;
  a_system : string;
  a_messages : list ChatMessage
}.

(** [client.chat.completions.create(...)] of the OpenAI SDK. *)
Record OpenAIRequest : Type := mkOpenAIRequest {
  o_model : string;
  o_messages : list ChatMessage;
  o_max_tokens : Z;
  o_temperature : Q;
  o_response_format : option string
}.

(** [core/config.py]: the settings the LLM client reads. *)
Record LLMSettings : Type := mkLLMSettings {
  ai_provider : string;
  anthropic_api_key : string;
  openai_api_key : string
}.

(** The collaborators the code calls and does not define.  Each field
    gives the outcome of one call: the value handed back, or the
    exception raised. *)
Record Services : Type := mkServices {
  (* self.encoder.encode(text).tolist() *)
  encode : string -> outcome (list Q);
  (* self.collection.query(query_embeddings=[q], n_results=n) *)
  query : list EmbeddingRecord -> list Q -> Z -> outcome QueryResult;
  (* Anthropic(api_key=key) *)
  new_anthropic : string -> outcome unit;
  (* OpenAI(api_key=key) *)
  new_openai : string -> outcome unit;
  (* client.messages.create(...).content[0].text *)
  anthropic_create : AnthropicRequest -> outcome string;
  (* client.chat.completions.create(...).choices[0].message.content *)
  openai_create : OpenAIRequest -> outcome string;
  (* json.loads(text) *)
  json_loads : string -> outcome json;
  (* base64.urlsafe_b64decode(data).decode("utf-8") *)
  b64decode_utf8 : string -> outcome string
}.

(* ================================================================== *)
(** ** core/vector_store.py *)
(* ================================================================== *)

Module VectorStore.
Local Open Scope py_scope.
Local Open Scope string_scope.

(** One element of the list [search_similar_responses] returns. *)
Record Hit : Type := mkHit {
  response : string;
  distance : option Q;
  metadata : Dict.t string
}.

(** [results["distances"][0][i] if results.get("distances") else None]. *)
Definition distance_at (results : QueryResult) (i : nat) : outcome (option Q) :=
  match distances results with
  | Some (row :: _) => d <~ index row i ;; Returns (Some d)
  | _ => Returns None
  end.

(** [results["metadatas"][0][i] if results.get("metadatas") else {}]. *)
Definition metadata_at (results : QueryResult) (i : nat) : outcome (Dict.t string) :=
  match metadatas results with
  | Some (row :: _) => index row i
  | _ => Returns []
  end.

(** The loop [for i, doc in enumerate(results["documents"][0])]. *)
Fixpoint collect (results : QueryResult) (i : nat) (docs : list string)
    (similar_responses : list Hit) : outcome (list Hit) :=
  match docs with
  | [] => Returns similar_responses
  | doc :: docs' =>
      d <~ distance_at results i ;;
      m <~ metadata_at results i ;;
      collect results (S i) docs'
        (similar_responses ++ [{| response := doc; distance := d; metadata := m |}])
  end.

(** [results["documents"] and results["documents"][0]] guards the
    loop. *)
Definition hits_of (results : QueryResult) : outcome (list Hit) :=
  match documents results with
  | Some (row :: _) => if truthy row then collect results 0 row [] else Returns []
  | _ => Returns []
  end.

Definition search_similar_responses (sv : Services) (query_text : string)
    (n_results : Z) : M World (list Hit) :=
  try_except
    (query_embedding <- lift (encode sv query_text) ;;
     coll <- gets collection ;;
     results <- lift (query sv coll query_embedding n_results) ;;
     lift (hits_of results))
    (fun e => logger_error (Error_searching_vector_store e) ;; ret []).

(** [self.collection.count()]. *)
Definition get_collection_size : M World Z :=
  gets (fun w => Z.of_nat (List.length (collection w))).

End VectorStore.

(* ================================================================== *)
(** ** core/llm_client.py *)
(* ================================================================== *)

Module LLMClient.
Local Open Scope py_scope.
Local Open Scope string_scope.

Record t : Type := mkLLMClient {
  provider : string;
  model : string
}.

(** [LLMClient.__init__]: the constructor of the SDK of the chosen
    provider is called with its API key, and what it raises leaves
    [__init__]. *)
Definition init (sv : Services) (settings : LLMSettings) : outcome t :=
  if String.eqb (ai_provider settings) "anthropic" then
    _ <~ new_anthropic sv (anthropic_api_key settings) ;;
    Returns {| provider := ai_provider settings;
               model := "claude-sonnet-4-20250514" |}
  else if String.eqb (ai_provider settings) "openai" then
    _ <~ new_openai sv (openai_api_key settings) ;;
    Returns {| provider := ai_provider settings;
               model := "gpt-4-turbo-preview" |}
  else Raises ValueError.

Definition nl : string := String (ascii_of_nat 10) EmptyString.

Definition json_instruction : string :=
  nl ++ nl ++ "Respond ONLY with valid JSON. No other text.".

(** [generate_json(prompt, system_prompt=..., max_tokens=1024)].  A
    provider that is neither of the two falls off the end of the
    method, which returns [None]. *)
Definition generate_json (sv : Services) (self : t) (prompt : Prompt)
    (system_prompt : option string) : outcome json :=
  let user := {| role := "user"; content := Filled prompt json_instruction |} in
  if String.eqb (provider self) "anthropic" then
    text <~ anthropic_create sv
              {| a_model := model self;
                 a_max_tokens := 1024;
                 a_temperature := 3 # 10;
                 a_system := match system_prompt with
                             | Some s => if nonempty s then s else ""
                             | None => ""
                             end;
                 a_messages := [user] |} ;;
    json_loads sv text
  else if String.eqb (provider self) "openai" then
    text <~ openai_create sv
              {| o_model := model self;
                 o_messages :=
                   match system_prompt with
                   | Some s =>
                       if nonempty s
                       then [{| role := "system"; content := Text s |}; user]
                       else [user]
                   | None => [user]
                   end;
                 o_max_tokens := 1024;
                 o_temperature := 3 # 10;
                 o_response_format := Some "json_object" |} ;;
    json_loads sv text
  else Returns JNull.

(** The names bound at the top level of the module once it has run:
    its imports, its class and its instance. *)
Inductive object : Type :=
| Imported (qualified_name : string)
| Class (name : string)
| Instance (self : t).

(** Running [core/llm_client.py] from top to bottom. *)
Definition module (sv : Services) (settings : LLMSettings)
    : outcome (Dict.t object) :=
  llm_client <~ init sv settings ;;
  Returns [ ("Optional", Imported "typing.Optional");
            ("Dict", Imported "typing.Dict");
            ("Any", Imported "typing.Any");
            ("Anthropic", Imported "anthropic.Anthropic");
            ("OpenAI", Imported "openai.OpenAI");
            ("settings", Imported "core.config.settings");
            ("LLMClient", Class "LLMClient");
            ("llm_client", Instance llm_client) ].

(** [from core.llm_client import name]. *)
Definition import_from (sv : Services) (settings : LLMSettings)
    (name : string) : outcome object :=
  namespace <~ module sv settings ;;
  match Dict.get name namespace with
  | Some o => Returns o
  | None => Raises (ImportError name)
  end.

End LLMClient.

(* ================================================================== *)
(** ** The string methods the agents use *)
(* ================================================================== *)

(** A [str] is embedded as a [string]; one character stands for one
    code point below 256. *)
Module Str.

(** [c in s] for a one-character [c]. *)
Definition contains (c : ascii) (s : string) : bool :=
  existsb (Ascii.eqb c) (list_ascii_of_string s).

(** [s.split(sep)] for a one-character separator. *)
Fixpoint split (sep : ascii) (s : string) : list string :=
  match s with
  | EmptyString => [EmptyString]
  | String c s' =>
      if Ascii.eqb c sep then EmptyString :: split sep s'
      else match split sep s' with
           | seg :: segs => String c seg :: segs
           | [] => [String c EmptyString]
           end
  end.

(** [str.isspace] on the code points below 256. *)
Definition is_space (c : ascii) : bool :=
  let n := nat_of_ascii c in
  ((9 <=? n) && (n <=? 13) || (28 <=? n) && (n <=? 32)
   || (n =? 133) || (n =? 160))%nat.

Fixpoint lstrip (strip_it : ascii -> bool) (s : string) : string :=
  match s with
  | EmptyString => EmptyString
  | String c s' => if strip_it c then lstrip strip_it s' else s
  end.

Definition reverse (s : string) : string :=
  string_of_list_ascii (rev (list_ascii_of_string s)).

Definition rstrip (strip_it : ascii -> bool) (s : string) : string :=
  reverse (lstrip strip_it (reverse s)).

(** [s.strip()] and [s.strip(chars)]. *)
Definition strip_with (strip_it : ascii -> bool) (s : string) : string :=
  rstrip strip_it (lstrip strip_it s).

Definition strip (s : string) : string := strip_with is_space s.

(** [s.split()]: the maximal runs of characters that are no white
    space.  [word] is the run being read, last character first. *)
Fixpoint words (l : list ascii) (word : list ascii) : list string :=
  let close := match word with
               | [] => []
               | _ :: _ => [string_of_list_ascii (rev word)]
               end in
  match l with
  | [] => close
  | c :: l' => if is_space c then close ++ words l' [] else words l' (c :: word)
  end.

Definition split_whitespace (s : string) : list string :=
  words (list_ascii_of_string s) [].

(** [str(i)] for a natural number. *)
Definition of_nat (n : nat) : string := NilZero.string_of_uint (Nat.to_uint n).

(** [sep.join(l)]. *)
Definition join (sep : string) (l : list string) : string := String.concat sep l.

(** [s[:n]]. *)
Definition prefix (n : nat) (s : string) : string := substring 0 n s.

Definition lt_sign : ascii := ascii_of_nat 60.
Definition gt_sign : ascii := ascii_of_nat 62.
Definition quote : ascii := ascii_of_nat 34.
Definition nl : string := String (ascii_of_nat 10) EmptyString.

End Str.

(** The classification of an email: [classify_email] hands back a
    dictionary with the two keys on each of its paths, having read
    both inside its [try], and [main.py] upper-cases both values
    before another agent sees them. *)
Record Classification : Type := mkClassification {
  category : string;
  priority : string
}.

(** The summary of an email is what [summarize_email] handed back:
    the JSON document of the model as [json.loads] parsed it, of
    whatever shape, or the fallback dictionary.  Nothing checks it
    before [draft_reply] reads it. *)
Definition Summary : Type := json.

(** What an agent module sees under the name [get_llm_client] when one
    of its methods runs: nothing, or something to call. *)
Definition Binding : Type := option (unit -> outcome LLMClient.t).

(** [get_llm_client().generate_json(prompt, system_prompt=...)]. *)
Definition generate (sv : Services) (get_llm_client : Binding)
    (prompt : Prompt) (system_prompt : string) : outcome json :=
  match get_llm_client with
  | None => Raises (NameError "get_llm_client")
  | Some f =>
      client <~ f tt ;;
      LLMClient.generate_json sv client prompt (Some system_prompt)
  end%py.

(** An agent module starts with [from core.llm_client import
    get_llm_client]; [use] is the rest of the run, which gets the
    imported object as Python would call it. *)
Definition importing_get_llm_client {A : Type} (sv : Services)
    (settings : LLMSettings)
    (call : LLMClient.object -> unit -> outcome LLMClient.t)
    (use : Binding -> M World A) : M World A :=
  (o <- lift (LLMClient.import_from sv settings "get_llm_client") ;;
   use (Some (call o)))%py.

(* ================================================================== *)
(** ** agents/reply_drafter.py *)
(* ================================================================== *)

Module ReplyDrafterAgent.
Import Str.
Local Open Scope py_scope.
Local Open Scope string_scope.

Definition system_prompt : string :=
  "You are a professional email response assistant." ++ nl ++
  "Draft polite, concise, and contextually appropriate email replies." ++ nl ++
  "Match the tone of the incoming email and maintain professionalism.".

(** The loop of [_format_rag_context]; [i] counts from 1. *)
Fixpoint numbered (i : nat) (similar_responses : list VectorStore.Hit)
    (context : string) : string :=
  match similar_responses with
  | [] => context
  | resp :: rest =>
      numbered (S i) rest
        (context ++ nl ++ of_nat i ++ ". "
                 ++ prefix 200 (VectorStore.response resp) ++ "..." ++ nl)
  end.

Definition _format_rag_context (similar_responses : list VectorStore.Hit) : string :=
  if truthy similar_responses
  then numbered 1 similar_responses ("SIMILAR PAST RESPONSES (for reference):" ++ nl)
  else "".

Record SenderInfo : Type := mkSenderInfo {
  name : string;
  full_name : string;
  email : string
}.

Definition _extract_sender_name (from_field : string) : M World SenderInfo :=
  try_except
    (found <- lift
       (if contains lt_sign from_field && contains gt_sign from_field then
          before <~ index (split lt_sign from_field) 0 ;;
          after <~ index (split lt_sign from_field) 1 ;;
          address <~ index (split gt_sign after) 0 ;;
          Returns (strip_with (Ascii.eqb quote) (strip before), strip address)
        else Returns ("", strip from_field)) ;;
     first_name <- lift
       (if nonempty (fst found) then index (split_whitespace (fst found)) 0
        else Returns "") ;;
     ret {| name := first_name; full_name := fst found; email := snd found |})
    (fun e =>
       logger_error (Error_extracting_sender_name e) ;;
       ret {| name := ""; full_name := ""; email := from_field |}).

(** [summary[key]]: a dictionary alone can be asked for a string
    key. *)
Definition subscript (value : json) (key : string) : outcome json :=
  match value with
  | JObj o => Dict.getitem o key
  | _ => Raises TypeError
  end.

(** [summary.get(key, [])]. *)
Definition get_or_empty (value : json) (key : string) : outcome json :=
  match value with
  | JObj o => Returns (Dict.get_or key (JArr []) o)
  | _ => Raises AttributeError
  end.

(** The elements of a list handed to [str.join] must be strings. *)
Fixpoint strings (l : list json) : outcome (list string) :=
  match l with
  | [] => Returns []
  | JStr s :: rest => rest' <~ strings rest ;; Returns (s :: rest')
  | _ :: _ => Raises TypeError
  end.

(** What [str.join] iterates over: the elements of a list, the
    characters of a string, the keys of a dictionary. *)
Definition items (value : json) : outcome (list string) :=
  match value with
  | JArr l => strings l
  | JStr s => Returns (map (fun c => String c "") (list_ascii_of_string s))
  | JObj o => Returns (Dict.keys o)
  | _ => Raises TypeError
  end.

(** [', '.join(summary.get(key, []))]. *)
Definition joined (summary_ : Summary) (key : string) : outcome string :=
  value <~ get_or_empty summary_ key ;;
  l <~ items value ;;
  Returns (join ", " l).

(** The four values the SUMMARY block of the prompt interpolates, in
    the order in which the template reads them. *)
Definition summary_block (summary_ : Summary)
    : outcome (json * string * string * json) :=
  summary_text <~ subscript summary_ "summary" ;;
  key_points <~ joined summary_ "key_points" ;;
  action_items <~ joined summary_ "action_items" ;;
  sentiment <~ subscript summary_ "sentiment" ;;
  Returns (summary_text, key_points, action_items, sentiment).

(** Everything [draft_reply] does before its [try]. *)
Definition draft_prompt (sv : Services) (email : Dict.t string)
    (classification : Classification) (summary_ : Summary)
    (context : option string) : M World Prompt :=
  body <- lift (Dict.getitem email "body") ;;
  similar_responses <- VectorStore.search_similar_responses sv body 3 ;;
  let rag_context := _format_rag_context similar_responses in
  from <- lift (Dict.getitem email "from") ;;
  sender_info <- _extract_sender_name from ;;
  let additional_context :=
    match context with
    | Some c => if nonempty c then "ADDITIONAL CONTEXT:" ++ nl ++ c else ""
    | None => ""
    end in
  from_field <- lift (Dict.getitem email "from") ;;
  subject_field <- lift (Dict.getitem email "subject") ;;
  body_field <- lift (Dict.getitem email "body") ;;
  block <- lift (summary_block summary_) ;;
  let '(summary_text, key_points, action_items, sentiment) := block in
  ret (DraftPrompt from_field subject_field body_field
         (category classification) (priority classification)
         summary_text key_points action_items sentiment
         rag_context additional_context
         (if nonempty (name sender_info) then name sender_info else "there")).

Definition fallback_body : string :=
  "Thank you for your email. I will review and get back to you shortly.".

(** The float literal [0.3]; a float is kept as the rational its
    literal denotes. *)
Definition fallback_confidence : Q := 3 # 10.

(** The dictionary of the [except] branch of [draft_reply]. *)
Definition fallback_reply (subject_field : string) : json :=
  JObj [ ("subject", JStr ("Re: " ++ subject_field));
         ("body", JStr fallback_body);
         ("tone", JStr "professional");
         ("confidence", JFloat fallback_confidence) ].

Definition draft_reply (sv : Services) (get_llm_client : Binding)
    (email : Dict.t string) (classification : Classification)
    (summary_ : Summary) (context : option string) : M World json :=
  prompt <- draft_prompt sv email classification summary_ context ;;
  try_except
    (result <- lift (generate sv get_llm_client prompt system_prompt) ;;
     id <- lift (Dict.getitem email "id") ;;
     logger_info (Drafted_reply id) ;;
     ret result)
    (fun e =>
       logger_error (Error_drafting_reply e) ;;
       subject_field <- lift (Dict.getitem email "subject") ;;
       ret (fallback_reply subject_field)).

(** Everything [refine_reply] does before its [try]. *)
Definition refine_prompt (original_draft feedback : string)
    (email : Dict.t string) : M World Prompt :=
  from_field <- lift (Dict.getitem email "from") ;;
  subject_field <- lift (Dict.getitem email "subject") ;;
  ret (RefinePrompt original_draft feedback from_field subject_field).

(** The dictionary of the [except] branch of [refine_reply]. *)
Definition unrefined_reply (subject_field original_draft : string) : json :=
  JObj [ ("subject", JStr ("Re: " ++ subject_field));
         ("body", JStr original_draft);
         ("tone", JStr "professional");
         ("confidence", JFloat (5 # 10)) ].

Definition refine_reply (sv : Services) (get_llm_client : Binding)
    (original_draft feedback : string) (email : Dict.t string) : M World json :=
  prompt <- refine_prompt original_draft feedback email ;;
  try_except
    (result <- lift (generate sv get_llm_client prompt system_prompt) ;;
     id <- lift (Dict.getitem email "id") ;;
     logger_info (Refined_reply id) ;;
     ret result)
    (fun e =>
       logger_error (Error_refining_reply e) ;;
       subject_field <- lift (Dict.getitem email "subject") ;;
       ret (unrefined_reply subject_field original_draft)).

End ReplyDrafterAgent.

(* ================================================================== *)
(** ** agents/summarizer.py *)
(* ================================================================== *)

Module SummarizerAgent.
Import Str.
Local Open Scope py_scope.
Local Open Scope string_scope.

Definition system_prompt : string :=
  "You are an expert email summarization assistant." ++ nl ++
  "Create concise, actionable summaries that capture key information and required actions.".

Definition summary_prompt (email : Dict.t string)
    (classification : Classification) : M World Prompt :=
  from_field <- lift (Dict.getitem email "from") ;;
  subject_field <- lift (Dict.getitem email "subject") ;;
  body_field <- lift (Dict.getitem email "body") ;;
  ret (SummaryPrompt from_field subject_field body_field
         (category classification) (priority classification)).

(** The dictionary of the [except] branch of [summarize_email]. *)
Definition fallback_summary (email : Dict.t string) : json :=
  JObj [ ("summary",
          JStr (Dict.get_or "snippet" "Unable to generate summary" email));
         ("key_points", JArr []);
         ("action_items", JArr []);
         ("sentiment", JStr "neutral") ].

Definition summarize_email (sv : Services) (get_llm_client : Binding)
    (email : Dict.t string) (classification : Classification) : M World json :=
  prompt <- summary_prompt email classification ;;
  try_except
    (result <- lift (generate sv get_llm_client prompt system_prompt) ;;
     id <- lift (Dict.getitem email "id") ;;
     logger_info (Summarized_email id) ;;
     ret result)
    (fun e =>
       logger_error (Error_summarizing_email e) ;;
       ret (fallback_summary email)).

End SummarizerAgent.

(* ================================================================== *)
(** ** core/gmail_client.py *)
(* ================================================================== *)

Module GmailClient.
Local Open Scope py_scope.
Local Open Scope string_scope.

(** The [body] of a message part: [data] is absent for an attachment
    that has to be fetched apart. *)
Record MessagePartBody : Type := mkBody {
  data : option string
}.

(** A message part of the Gmail API; the payload of a message is the
    root part.  A key of the dictionary that may be absent is an
    option. *)
#[local] Unset Elimination Schemes.
Inductive MessagePart : Type :=
| mkPart (mimeType : string) (body : option MessagePartBody)
         (parts : option (list MessagePart)).
#[local] Set Elimination Schemes.

Definition mimeType (p : MessagePart) : string :=
  match p with mkPart m _ _ => m end.
Definition body (p : MessagePart) : option MessagePartBody :=
  match p with mkPart _ b _ => b end.
Definition parts (p : MessagePart) : option (list MessagePart) :=
  match p with mkPart _ _ ps => ps end.

(** [part["body"]]. *)
Definition body_of (p : MessagePart) : outcome MessagePartBody :=
  match body p with
  | Some b => Returns b
  | None => Raises (KeyError "body")
  end.

(** The loop over [payload["parts"]], left by [break] after the first
    assignment. *)
Fixpoint first_plain (sv : Services) (ps : list MessagePart) : outcome string :=
  match ps with
  | [] => Returns ""
  | part :: rest =>
      if String.eqb (mimeType part) "text/plain" then
        b <~ body_of part ;;
        match data b with
        | Some d => b64decode_utf8 sv d
        | None => first_plain sv rest
        end
      else first_plain sv rest
  end.

Definition _get_email_body (sv : Services) (payload : MessagePart) : outcome string :=
  match parts payload with
  | Some ps => first_plain sv ps
  | None =>
      match body payload with
      | Some b =>
          match data b with
          | Some d => b64decode_utf8 sv d
          | None => Returns ""
          end
      | None => Returns ""
      end
  end.

End GmailClient.

(* ================================================================== *)
(** ** The properties, in the words of the specification *)
(* ================================================================== *)

Module Spec.
Local Open Scope string_scope.

(** "status = pending and follow_up_date <= now". *)
Definition is_due (now : datetime) (f : FollowUp) : bool :=
  String.eqb (status f) "pending" && (follow_up_date f <=? now)%Z.

(** "The subset of pending records whose due date is <= the query
    time", in the order of the store. *)
Definition due_list (now : datetime) (d : Store) : list FollowUp :=
  map snd (filter (fun item => is_due now (snd item)) d).

(** "Number of records with status s". *)
Definition how_many (s : string) (d : Store) : Z :=
  Z.of_nat (List.length (filter (fun item => String.eqb (status (snd item)) s) d)).

(** The key of every item is the [email_id] of its record, and no key
    occurs twice: the shape of every store the scheduler builds. *)
Definition keyed (d : Store) : Prop :=
  NoDup (Dict.keys d) /\ Forall (fun item => email_id (snd item) = fst item) d.

(** A value of an object, [None] on anything else. *)
Definition field (k : string) (j : json) : option json :=
  match j with
  | JObj o => Dict.get k o
  | _ => None
  end.

(** The answer of the index for one query: one row per key, with the
    documents, the distances and the metadata of the neighbors. *)
Definition rows (neighbors : list (EmbeddingRecord * Q)) : QueryResult :=
  {| documents := Some [map (fun n => er_document (fst n)) neighbors];
     distances := Some [map snd neighbors];
     metadatas := Some [map (fun n => er_metadata (fst n)) neighbors] |}.

(** The vector index answered with [neighbors], each a stored record
    with its distance: the records come from the collection without
    repetition, the closest first, [k] at most. *)
Definition ranked_answer (coll : list EmbeddingRecord) (k : Z)
    (neighbors : list (EmbeddingRecord * Q)) (res : QueryResult) : Prop :=
  res = rows neighbors
  /\ (exists others, Permutation (map fst neighbors ++ others) coll)
  /\ StronglySorted Qle (map snd neighbors)
  /\ (Z.of_nat (List.length neighbors) <= k)%Z.

(** The hit a neighbor becomes. *)
Definition hit_of (n : EmbeddingRecord * Q) : VectorStore.Hit :=
  {| VectorStore.response := er_document (fst n);
     VectorStore.distance := Some (snd n);
     VectorStore.metadata := er_metadata (fst n) |}.

(** "Closest first" on hits. *)
Definition closer (a b : VectorStore.Hit) : Prop :=
  match VectorStore.distance a, VectorStore.distance b with
  | Some x, Some y => (x <= y)%Q
  | _, _ => False
  end.


(** "A pending record", built from the arguments of [schedule] and
    two readings of the clock, and from nothing else. *)
Definition new_record (id : string) (email_data : Dict.t string)
    (due created : datetime) : FollowUp :=
  {| email_id := id;
     subject := Dict.get_or "subject" "" email_data;
     from_ := Dict.get_or "from" "" email_data;
     follow_up_date := due;
     created_at := created;
     status := "pending";
     completed_at := None |}.

(** The delay [schedule] works with: the argument, or the setting when
    there is none. *)
Definition delay (settings : Settings) (days_until : option Z) : Z :=
  match days_until with None => follow_up_days settings | Some d => d end.

(** The delays [timedelta] and [datetime] can represent from [now]:
    at most 999999999 days either way, and a due date within the years
    1 to 9999. *)
Definition representable (now : datetime) (days : Z) : Prop :=
  (Z.abs days <= MAX_DELTA_DAYS
   /\ 0 <= now + days * day_us < MAXORDINAL * day_us)%Z.

End Spec.

(* ================================================================== *)
(** ** A concrete world and concrete services, to run the code on *)
(* ================================================================== *)

Module Sample.
Local Open Scope string_scope.

(** The value of a character of the base64 alphabets, standard and
    URL-safe. *)
Definition b64_digit (c : ascii) : option N :=
  let n := N_of_ascii c in
  (if (65 <=? n) && (n <=? 90) then Some (n - 65)
   else if (97 <=? n) && (n <=? 122) then Some (n - 71)
   else if (48 <=? n) && (n <=? 57) then Some (n + 4)
   else if (n =? 45) || (n =? 43) then Some 62
   else if (n =? 95) || (n =? 47) then Some 63
   else None)%N.

Definition is_pad (c : ascii) : bool := Ascii.eqb c (ascii_of_nat 61).

(** Padded base64 text to bytes, four characters at a time. *)
Fixpoint b64_bytes (l : list ascii) : option (list N) :=
  match l with
  | [] => Some []
  | c1 :: c2 :: c3 :: c4 :: rest =>
      match b64_digit c1, b64_digit c2 with
      | Some d1, Some d2 =>
          let b1 := (d1 * 4 + d2 / 16)%N in
          if is_pad c3 then
            match rest with
            | [] => if is_pad c4 then Some [b1] else None
            | _ :: _ => None
            end
          else
            match b64_digit c3 with
            | Some d3 =>
                let b2 := ((d2 mod 16) * 16 + d3 / 4)%N in
                if is_pad c4 then
                  match rest with [] => Some [b1; b2] | _ :: _ => None end
                else
                  match b64_digit c4, b64_bytes rest with
                  | Some d4, Some bytes =>
                      Some (b1 :: b2 :: ((d3 mod 4) * 64 + d4)%N :: bytes)
                  | _, _ => None
                  end
            | None => None
            end
      | _, _ => None
      end
  | _ => None
  end.

(** Bytes to text, for bytes that are ASCII. *)
Fixpoint ascii_text (bytes : list N) : option string :=
  match bytes with
  | [] => Some ""
  | b :: bytes' =>
      if (b <? 128)%N then
        match ascii_text bytes' with
        | Some s => Some (String (ascii_of_N b) s)
        | None => None
        end
      else None
  end.

(** [base64.urlsafe_b64decode(data).decode("utf-8")] on padded text
    over the alphabet that encodes ASCII; anything else is refused
    with [ValueError]. *)
Definition ascii_b64decode (data : string) : outcome string :=
  match b64_bytes (list_ascii_of_string data) with
  | Some bytes =>
      match ascii_text bytes with
      | Some s => Returns s
      | None => Raises ValueError
      end
  | None => Raises ValueError
  end.

(** A stand-in for the embedding model: the length of the text and the
    number of its white-space characters. *)
Definition toy_encode (text : string) : outcome (list Q) :=
  Returns [ inject_Z (Z.of_nat (String.length text));
            inject_Z (Z.of_nat (List.length
              (filter Str.is_space (list_ascii_of_string text)))) ].

(** Squared Euclidean distance. *)
Fixpoint sq_dist (a b : list Q) : Q :=
  match a, b with
  | x :: a', y :: b' => ((x - y) * (x - y) + sq_dist a' b')%Q
  | _, _ => 0%Q
  end.

Fixpoint insert (n : EmbeddingRecord * Q) (l : list (EmbeddingRecord * Q))
    : list (EmbeddingRecord * Q) :=
  match l with
  | [] => [n]
  | m :: l' => if Qle_bool (snd n) (snd m) then n :: l else m :: insert n l'
  end.

Definition rank (q : list Q) (coll : list EmbeddingRecord)
    : list (EmbeddingRecord * Q) :=
  fold_right insert [] (map (fun r => (r, sq_dist q (er_embedding r))) coll).

(** An exact nearest-neighbour index: it refuses a request for no
    neighbour and otherwise answers with the [n] closest records. *)
Definition exact_query (coll : list EmbeddingRecord) (q : list Q) (n : Z)
    : outcome QueryResult :=
  if (n <=? 0)%Z then Raises ValueError
  else
    let neighbors := firstn (Z.to_nat n) (rank q coll) in
    Returns {| documents := Some [map (fun n => er_document (fst n)) neighbors];
               distances := Some [map snd neighbors];
               metadatas := Some [map (fun n => er_metadata (fst n)) neighbors] |}.

(** [json.loads] on the two texts the samples use. *)
Definition tiny_json_loads (text : string) : outcome json :=
  if String.eqb text "{}" then Returns (JObj []) else Raises ValueError.

(** The settings of the two providers. *)
Definition openai : LLMSettings :=
  {| ai_provider := "openai"; anthropic_api_key := ""; openai_api_key := "sk-1" |}.

Definition anthropic : LLMSettings :=
  {| ai_provider := "anthropic"; anthropic_api_key := "sk-2"; openai_api_key := "" |}.

(** Services whose language model is out of reach. *)
Definition services : Services :=
  {| encode := toy_encode;
     query := exact_query;
     new_anthropic := fun _ => Returns tt;
     new_openai := fun _ => Returns tt;
     anthropic_create := fun _ => Raises (ServiceError 529);
     openai_create := fun _ => Raises (ServiceError 503);
     json_loads := tiny_json_loads;
     b64decode_utf8 := ascii_b64decode |}.

(** Services whose language model answers with prose. *)
Definition chatty : Services :=
  {| encode := toy_encode;
     query := exact_query;
     new_anthropic := fun _ => Returns tt;
     new_openai := fun _ => Returns tt;
     anthropic_create := fun _ => Returns "Sure, here is a reply.";
     openai_create := fun _ => Returns "Sure, here is a reply.";
     json_loads := tiny_json_loads;
     b64decode_utf8 := ascii_b64decode |}.

(** 2026-11-04T09:00:00, and seven microseconds between two readings
    of the clock. *)
Definition t0 : datetime := (739923 * 86400 + 9 * 3600) * 1000000.

Definition ticking (n : nat) : datetime := Z.of_nat n * 7 + t0.

Definition record (id : string) (due : datetime) (st : string)
    (done : option datetime) : string * FollowUp :=
  (id, {| email_id := id; subject := "Quote " ++ id; from_ := "ann@example.org";
          follow_up_date := due; created_at := t0 - 5 * day_us;
          status := st; completed_at := done |}).

(** Three follow-ups: one overdue, one done, one due tomorrow.  The
    overdue one was entered last and is due first. *)
Definition store : Store :=
  [ record "m3" (t0 + day_us) "pending" None;
    record "m2" (t0 - 3 * day_us) "completed" (Some (t0 - day_us));
    record "m4" (t0 - day_us) "pending" None;
    record "m1" (t0 - 2 * day_us) "pending" None ].

Definition stored : list EmbeddingRecord :=
  [ {| er_id := "e1"; er_embedding := [inject_Z 40; inject_Z 7];
       er_document := "Happy to help, the invoice is attached.";
       er_metadata := [("category", "important")] |};
    {| er_id := "e2"; er_embedding := [inject_Z 12; inject_Z 2];
       er_document := "Thanks, see you on Monday.";
       er_metadata := [("category", "general")] |};
    {| er_id := "e3"; er_embedding := [inject_Z 15; inject_Z 3];
       er_document := "Noted, I will call you back.";
       er_metadata := [("category", "urgent")] |} ].

(** A world whose disk works. *)
Definition world : World :=
  {| clock := ticking; reads := 0; faults := fun _ => NoFault; accesses := 0;
     file := Saved store; log := []; follow_ups := store; collection := stored |}.

(** The same world with a disk that fails in the middle of a write. *)
Definition failing_disk : World :=
  {| clock := ticking; reads := 0; faults := fun _ => TransferFails OSError;
     accesses := 0; file := Saved store; log := []; follow_ups := store;
     collection := stored |}.

Definition mail : Dict.t string :=
  [ ("id", "m9"); ("thread_id", "t9"); ("subject", "Contract renewal");
    ("from", "Ann Lee <ann@example.org>"); ("date", "Wed, 4 Nov 2026");
    ("body", "Could you send the renewed contract?");
    ("snippet", "Could you send") ].

Definition classified : Classification :=
  {| category := "important"; priority := "high" |}.

Definition summarized : Summary :=
  JObj [ ("summary", JStr "Ann asks for the renewed contract.");
         ("key_points", JArr [JStr "contract renewal"]);
         ("sentiment", JStr "neutral") ].

(** A message whose only content is HTML, sent as a single part: the
    data is the base64 of an HTML fragment. *)
Definition html_only : GmailClient.MessagePart :=
  GmailClient.mkPart "text/html"
    (Some {| GmailClient.data := Some "PGI-aGk8L2I-" |}) None.

(** A multipart message whose first [text/plain] part is an
    attachment without inline data. *)
Definition attachment_first : GmailClient.MessagePart :=
  GmailClient.mkPart "multipart/mixed" (Some {| GmailClient.data := None |})
    (Some [ GmailClient.mkPart "text/plain" (Some {| GmailClient.data := None |}) None;
            GmailClient.mkPart "text/html" (Some {| GmailClient.data := Some "PGI-aGk8L2I-" |}) None;
            GmailClient.mkPart "text/plain" (Some {| GmailClient.data := Some "aGVsbG8=" |}) None ]).

(** The question put to the index in the examples, and the two stored
    records the exact index finds closest to it. *)
Definition question : string := "Could you send the renewed contract?".

Definition nearest : list (EmbeddingRecord * Q) :=
  firstn 2 (rank [inject_Z 36; inject_Z 5] stored).

(** Services whose index answers with documents alone, and services
    whose index answers with one distance for two documents. *)
Definition answering (results : QueryResult) : Services :=
  {| encode := fun _ => Returns [];
     query := fun _ _ _ => Returns results;
     new_anthropic := fun _ => Returns tt;
     new_openai := fun _ => Returns tt;
     anthropic_create := fun _ => Raises (ServiceError 529);
     openai_create := fun _ => Raises (ServiceError 503);
     json_loads := tiny_json_loads;
     b64decode_utf8 := ascii_b64decode |}.

Definition bare : QueryResult :=
  {| documents := Some [["first"; "second"]];
     distances := None; metadatas := None |}.

Definition ragged : QueryResult :=
  {| documents := Some [["first"; "second"]];
     distances := Some [[1 # 2]]; metadatas := None |}.

(** Services whose language model answers with an empty JSON object,
    and services whose embedding model is out of reach. *)
Definition terse : Services :=
  {| encode := toy_encode;
     query := exact_query;
     new_anthropic := fun _ => Returns tt;
     new_openai := fun _ => Returns tt;
     anthropic_create := fun _ => Returns "{}";
     openai_create := fun _ => Returns "{}";
     json_loads := tiny_json_loads;
     b64decode_utf8 := ascii_b64decode |}.

Definition deaf : Services :=
  {| encode := fun _ => Raises (ServiceError 500);
     query := exact_query;
     new_anthropic := fun _ => Returns tt;
     new_openai := fun _ => Returns tt;
     anthropic_create := fun _ => Returns "{}";
     openai_create := fun _ => Returns "{}";
     json_loads := tiny_json_loads;
     b64decode_utf8 := ascii_b64decode |}.

End Sample.

(* ================================================================== *)
(** ** More of the code: string helpers *)
(* ================================================================== *)

Module Text.
Local Open Scope string_scope.

(** [c.lower()] on a code point below 256: the ASCII capitals and the
    Latin-1 capitals, the multiplication sign apart. *)
Definition lower_char (c : ascii) : ascii :=
  let n := nat_of_ascii c in
  if ((65 <=? n) && (n <=? 90)
      || (192 <=? n) && (n <=? 222) && negb (n =? 215))%nat
  then ascii_of_nat (n + 32) else c.

(** [s.lower()]. *)
Fixpoint lower (s : string) : string :=
  match s with
  | EmptyString => EmptyString
  | String c s' => String (lower_char c) (lower s')
  end.

(** [text[:n]] for any integer [n]: a negative [n] counts from the
    end. *)
Definition slice_to (n : Z) (text : string) : string :=
  if (n <? 0)%Z
  then Str.prefix (Z.to_nat (Z.of_nat (String.length text) + n)) text
  else Str.prefix (Z.to_nat n) text.

End Text.

(* ================================================================== *)
(** ** utils/helpers.py *)
(* ================================================================== *)

Module Helpers.
Import Str.
Local Open Scope py_scope.
Local Open Scope string_scope.

Definition truncate_text (text : string) (max_length : Z) : string :=
  if (Z.of_nat (String.length text) <=? max_length)%Z then text
  else Text.slice_to (max_length - 3) text ++ "...".

Definition extract_email_address (from_field : string) : outcome string :=
  if contains lt_sign from_field && contains gt_sign from_field then
    after <~ index (split lt_sign from_field) 1 ;;
    address <~ index (split gt_sign after) 0 ;;
    Returns (strip address)
  else Returns (strip from_field).

End Helpers.

(* ================================================================== *)
(** ** The methods that log beside the ones above *)
(* ================================================================== *)

(** The log records of the methods that follow. *)
Inductive Note : Type :=
| Added_email_pair (id : string)
| Error_adding_to_vector_store (e : exn)
| Error_extracting_sender_info (e : exn)
| Error_getting_email_details (id : string) (e : exn)
| Fetched_unread_emails (n : nat)
| Error_fetching_emails (e : exn)
| Fetching_new_emails
| Successfully_fetched (n : nat)
| No_unread_emails_found.

(** The world together with these records; each one is kept with the
    number of records the log of the world held when it was written,
    which places it in the one stream both make. *)
Record Desk : Type := mkDesk {
  world : World;
  notes : list (nat * (Level * Note))
}.

Definition on_world {A : Type} (m : M World A) : M Desk A :=
  fun d => (fst (m (world d)), mkDesk (snd (m (world d))) (notes d)).

Definition note (lvl : Level) (n : Note) : M Desk unit :=
  fun d =>
    (Returns tt,
     mkDesk (world d) (notes d ++ [(List.length (log (world d)), (lvl, n))])).

Definition put_collection (c : list EmbeddingRecord) (w : World) : World :=
  mkWorld (clock w) (reads w) (faults w) (accesses w) (file w) (log w)
          (follow_ups w) c.

(* ================================================================== *)
(** ** core/vector_store.py: adding a pair *)
(* ================================================================== *)

Module Indexing.
Local Open Scope py_scope.
Local Open Scope string_scope.

(** [self.collection.add(ids=[id], embeddings=[e], documents=[doc],
    metadatas=[m])]: what the index makes of the collection, or the
    exception it raises. *)
Definition Adder : Type :=
  list EmbeddingRecord -> EmbeddingRecord -> outcome (list EmbeddingRecord).

Definition add_email_pair (sv : Services) (add : Adder)
    (id incoming_text response_text : string)
    (metadata : option (Dict.t string)) : M Desk unit :=
  try_except
    (embedding <- lift (encode sv incoming_text) ;;
     coll <- on_world (gets collection) ;;
     coll' <- lift (add coll
                {| er_id := id; er_embedding := embedding;
                   er_document := response_text;
                   er_metadata := match metadata with
                                  | Some m => if truthy m then m else []
                                  | None => []
                                  end |}) ;;
     on_world (modify (put_collection coll')) ;;
     note INFO (Added_email_pair id))
    (fun e => note ERROR (Error_adding_to_vector_store e)).

End Indexing.

(* ================================================================== *)
(** ** agents/summarizer.py: the sender *)
(* ================================================================== *)

Module SenderInfo.
Import Str.
Local Open Scope py_scope.
Local Open Scope string_scope.

Record t : Type := mkSenderInfo {
  name : string;
  email : string
}.

Definition extract_sender_info (from_field : string) : M Desk t :=
  try_except
    (lift
       (if contains lt_sign from_field && contains gt_sign from_field then
          before <~ index (split lt_sign from_field) 0 ;;
          after <~ index (split lt_sign from_field) 1 ;;
          address <~ index (split gt_sign after) 0 ;;
          Returns {| name := strip_with (Ascii.eqb quote) (strip before);
                     email := strip address |}
        else Returns {| name := ""; email := strip from_field |}))
    (fun e =>
       note ERROR (Error_extracting_sender_info e) ;;
       ret {| name := ""; email := from_field |}).

End SenderInfo.

(* ================================================================== *)
(** ** core/gmail_client.py and agents/fetcher.py: reading the inbox *)
(* ================================================================== *)

Module Inbox.
Local Open Scope py_scope.
Local Open Scope string_scope.

Record Header : Type := mkHeader {
  h_name : string;
  h_value : string
}.

(** The message [messages().get(..., format="full")] returns; a key
    that may be absent is an option.  [headers] is
    [payload["headers"]]. *)
Record Message : Type := mkMessage {
  payload : option GmailClient.MessagePart;
  headers : option (list Header);
  threadId : option string;
  snippet : option string
}.

(** The two calls of the Gmail API the fetching code makes. *)
Record MailService : Type := mkMailService {
  (* messages().list(userId="me", labelIds=[...], maxResults=n).execute()
     .get("messages"), as the ids of its elements *)
  list_unread : Z -> outcome (option (list string));
  (* messages().get(userId="me", id=msg_id, format="full").execute() *)
  get_message : string -> outcome Message
}.

(** [next((h["value"] for h in headers if h["name"].lower() == wanted), "")]. *)
Fixpoint header (wanted : string) (hs : list Header) : string :=
  match hs with
  | [] => ""
  | h :: rest =>
      if String.eqb (Text.lower (h_name h)) wanted then h_value h
      else header wanted rest
  end.

(** [message["payload"]["headers"]]. *)
Definition headers_of (message : Message) : outcome (list Header) :=
  match payload message, headers message with
  | None, _ => Raises (KeyError "payload")
  | Some _, None => Raises (KeyError "headers")
  | Some _, Some hs => Returns hs
  end.

Definition payload_of (message : Message) : outcome GmailClient.MessagePart :=
  match payload message with
  | Some p => Returns p
  | None => Raises (KeyError "payload")
  end.

Definition threadId_of (message : Message) : outcome string :=
  match threadId message with
  | Some t => Returns t
  | None => Raises (KeyError "threadId")
  end.

Definition _get_email_details (sv : Services) (mail : MailService)
    (msg_id : string) : M Desk (option (Dict.t string)) :=
  try_except
    (message <- lift (get_message mail msg_id) ;;
     hs <- lift (headers_of message) ;;
     let subject_field := header "subject" hs in
     let from_email := header "from" hs in
     let date := header "date" hs in
     p <- lift (payload_of message) ;;
     body <- lift (GmailClient._get_email_body sv p) ;;
     thread <- lift (threadId_of message) ;;
     ret (Some [ ("id", msg_id);
                 ("thread_id", thread);
                 ("subject", subject_field);
                 ("from", from_email);
                 ("date", date);
                 ("body", body);
                 ("snippet", match snippet message with
                             | Some s => s
                             | None => ""
                             end) ]))
    (fun e => note ERROR (Error_getting_email_details msg_id e) ;; ret None).

(** The loop of [fetch_unread_emails]. *)
Fixpoint details (sv : Services) (mail : MailService) (ids : list string)
    (emails : list (Dict.t string)) : M Desk (list (Dict.t string)) :=
  match ids with
  | [] => ret emails
  | id :: rest =>
      email_data <- _get_email_details sv mail id ;;
      details sv mail rest
        match email_data with
        | Some e => if truthy e then emails ++ [e] else emails
        | None => emails
        end
  end.

Definition fetch_unread_emails (sv : Services) (mail : MailService)
    (max_results : Z) : M Desk (list (Dict.t string)) :=
  try_except
    (results <- lift (list_unread mail max_results) ;;
     let messages := match results with Some l => l | None => [] end in
     emails <- details sv mail messages [] ;;
     note INFO (Fetched_unread_emails (List.length emails)) ;;
     ret emails)
    (fun e => note ERROR (Error_fetching_emails e) ;; ret []).

(** [FetcherAgent.fetch_new_emails], given
    [settings.max_emails_per_run]. *)
Definition fetch_new_emails (sv : Services) (mail : MailService)
    (max_emails_per_run : Z) : M Desk (list (Dict.t string)) :=
  note INFO Fetching_new_emails ;;
  emails <- fetch_unread_emails sv mail max_emails_per_run ;;
  (if truthy emails
   then note INFO (Successfully_fetched (List.length emails))
   else note INFO No_unread_emails_found) ;;
  ret emails.

End Inbox.

(* ================================================================== *)
(** ** A concrete inbox *)
(* ================================================================== *)

Module SampleInbox.
Local Open Scope string_scope.

Definition greeting : Inbox.Message :=
  {| Inbox.payload := Some Sample.attachment_first;
     Inbox.headers := Some [ {| Inbox.h_name := "Subject"; Inbox.h_value := "Hi" |};
                             {| Inbox.h_name := "FROM";
                                Inbox.h_value := "Bob <bob@example.org>" |};
                             {| Inbox.h_name := "subject";
                                Inbox.h_value := "second subject" |} ];
     Inbox.threadId := Some "t1";
     Inbox.snippet := None |}.

(** Three unread messages: one that can be read, one that the service
    fails to deliver, one without thread id. *)
Definition mailbox : Inbox.MailService :=
  {| Inbox.list_unread := fun _ => Returns (Some ["a1"; "a2"; "a3"]);
     Inbox.get_message := fun id =>
       if String.eqb id "a1" then Returns greeting
       else if String.eqb id "a2" then Raises (ServiceError 404)
       else Returns {| Inbox.payload := Some Sample.html_only;
                       Inbox.headers := Some [];
                       Inbox.threadId := None;
                       Inbox.snippet := Some "x" |} |}.

Definition desk : Desk := {| world := Sample.world; notes := [] |}.

End SampleInbox.

(* ================================================================== *)
(** ** More properties in the words of the code *)
(* ================================================================== *)

Module Shape.
Local Open Scope string_scope.

(** Every record of the store is pending or completed. *)
Definition two_statuses (d : Store) : Prop :=
  Forall (fun item => status (snd item) = "pending"
                      \/ status (snd item) = "completed") d.

(** The keys of an email that [_get_email_details] builds. *)
Definition email_keys : list string :=
  ["id"; "thread_id"; "subject"; "from"; "date"; "body"; "snippet"].

(** The keys [draft_reply] reads outside its [try]. *)
Definition draftable (email : Dict.t string) : Prop :=
  Dict.get "body" email <> None
  /\ Dict.get "from" email <> None
  /\ Dict.get "subject" email <> None.

(** One entry of the context [_format_rag_context] builds. *)
Definition entry (numbered : nat * VectorStore.Hit) : string :=
  Str.nl ++ Str.of_nat (fst numbered) ++ ". "
         ++ Str.prefix 200 (VectorStore.response (snd numbered)) ++ "..."
         ++ Str.nl.

(** No character of [s] is [c]. *)
Definition free_of (c : ascii) (s : string) : Prop :=
  Str.contains c s = false.

(** [rows[0]] when [rows] is truthy, as the loop of the search reads
    the distances and the metadata. *)
Definition first_row {A : Type} (rows : option (list (list A))) : option (list A) :=
  match rows with
  | Some (row :: _) => Some row
  | _ => None
  end.

(** A row that is present covers the positions below [n]. *)
Definition covers {A : Type} (rows : option (list (list A))) (n : nat) : Prop :=
  match first_row rows with
  | Some row => (n <= List.length row)%nat
  | None => True
  end.

(** A row that is there and too short for [n] positions. *)
Definition falls_short {A : Type} (rows : option (list (list A))) (n : nat) : Prop :=
  exists row, first_row rows = Some row /\ (List.length row < n)%nat.

(** The email a message is read into, or the exception that keeps it
    from being read: the steps of [_get_email_details] inside its
    [try]. *)
Definition read_email (sv : Services) (mail : Inbox.MailService) (id : string)
    : outcome (Dict.t string) :=
  (message <~ Inbox.get_message mail id ;;
   hs <~ Inbox.headers_of message ;;
   p <~ Inbox.payload_of message ;;
   body <~ GmailClient._get_email_body sv p ;;
   thread <~ Inbox.threadId_of message ;;
   Returns [ ("id", id); ("thread_id", thread);
             ("subject", Inbox.header "subject" hs);
             ("from", Inbox.header "from" hs);
             ("date", Inbox.header "date" hs);
             ("body", body);
             ("snippet", match Inbox.snippet message with
                         | Some s => s
                         | None => ""
                         end) ])%py.

Definition readable (sv : Services) (mail : Inbox.MailService) (id : string)
    : bool :=
  match read_email sv mail id with
  | Returns _ => true
  | Raises _ => false
  end.

(** What the hit at position [j] carries, given the rows of the
    answer: the distance and the metadata at [j] of a row that is
    there, [None] and the empty dictionary for a row that is not. *)
Definition carries (results : QueryResult) (j : nat) (h : VectorStore.Hit) : Prop :=
  VectorStore.distance h
  = match first_row (distances results) with
    | Some row => nth_error row j
    | None => None
    end
  /\ match first_row (metadatas results) with
     | Some row => nth_error row j = Some (VectorStore.metadata h)
     | None => VectorStore.metadata h = []
     end.

End Shape.

(* ================================================================== *)
(** * Part II: what the code does *)
(* ================================================================== *)

(** Closed facts about the sample world are settled by running the
    code. *)
Ltac by_computation := vm_compute; first [reflexivity | intro; discriminate].

(** ** The code at work on the samples *)

Section Examples.
Local Open Scope string_scope.
Local Open Scope list_scope.

Example sender_with_display_name :
  fst (ReplyDrafterAgent._extract_sender_name "Ann Lee <ann@example.org>"
         Sample.world)
  = Returns {| ReplyDrafterAgent.name := "Ann";
               ReplyDrafterAgent.full_name := "Ann Lee";
               ReplyDrafterAgent.email := "ann@example.org" |}.
Proof. reflexivity. Qed.

(** A display name that is one quoted blank: [name.split()[0]] raises
    [IndexError], which the method catches. *)
Example sender_with_blank_name :
  let from_field :=
    String Str.quote (String.append " " (String Str.quote " <a@b>")) in
  ReplyDrafterAgent._extract_sender_name from_field Sample.world
  = (Returns {| ReplyDrafterAgent.name := "";
                ReplyDrafterAgent.full_name := "";
                ReplyDrafterAgent.email := from_field |},
     emit (ERROR, Error_extracting_sender_name IndexError) Sample.world).
Proof. reflexivity. Qed.

Example rag_context_of_two_hits :
  ReplyDrafterAgent._format_rag_context
    [ VectorStore.mkHit "hello" None []; VectorStore.mkHit "bye" None [] ]
  = String.concat Str.nl
      [ "SIMILAR PAST RESPONSES (for reference):"; "";
        "1. hello..."; ""; "2. bye..."; "" ].
Proof. reflexivity. Qed.

Example due_in_the_sample_world :
  fst (SchedulerAgent.get_due_follow_ups Sample.world)
  = Returns [ snd (Sample.record "m4" (Sample.t0 - day_us) "pending" None);
              snd (Sample.record "m1" (Sample.t0 - 2 * day_us) "pending" None) ].
Proof. reflexivity. Qed.

Example stats_of_the_sample_world :
  fst (SchedulerAgent.get_follow_up_stats Sample.world)
  = Returns {| SchedulerAgent.total := 4; SchedulerAgent.pending := 3;
               SchedulerAgent.completed := 1;
               SchedulerAgent.completion_rate :=
                 SchedulerAgent.Float (S754_finite false 7036874417766400 (-48)) |}.
Proof. reflexivity. Qed.

(** [100] converts to [hundred] without rounding, and [1 / 3 * 100]
    is the float [33.33333333333333], which is not a third of a
    hundred: [4691249611844266 * 2^-47]. *)
Example hundred_is_exact :
  binary_normalize 53 1024 100 0 false = SchedulerAgent.hundred.
Proof. reflexivity. Qed.

Example a_third_in_percent :
  obind (SchedulerAgent.truediv 1 3)
        (fun q => Returns (SchedulerAgent.float_mul q SchedulerAgent.hundred))
  = Returns (S754_finite false 4691249611844266 (-47))
  /\ (4691249611844266 * 3 <> 100 * 2 ^ 47)%Z.
Proof. split; [reflexivity | discriminate]. Qed.

Example search_with_no_neighbour_asked :
  fst (VectorStore.search_similar_responses Sample.services Sample.question 0
         Sample.world) = Returns [].
Proof. reflexivity. Qed.

Example plain_text_after_an_attachment :
  GmailClient._get_email_body Sample.services Sample.attachment_first
  = Returns "hello".
Proof. reflexivity. Qed.

Example loading_a_garbled_file :
  let w := touch Garbled Sample.world in
  fst (SchedulerAgent._load_follow_ups w) = Returns []
  /\ log (snd (SchedulerAgent._load_follow_ups w))
     = [(ERROR, Error_loading_follow_ups ValueError)].
Proof. split; reflexivity. Qed.

End Examples.

(** ** Dictionaries *)

Section DictFacts.
Context {V : Type}.
Implicit Types (d : Dict.t V) (k : string) (v : V).

Lemma dict_get_set_same k v d : Dict.get k (Dict.set k v d) = Some v.
Proof.
  induction d as [|[k' v'] d IH]; simpl.
  - now rewrite String.eqb_refl.
  - destruct (String.eqb k k') eqn:E; simpl.
    + now rewrite String.eqb_refl.
    + now rewrite E.
Qed.

Lemma dict_get_set_other k k' v d :
  k' <> k -> Dict.get k' (Dict.set k v d) = Dict.get k' d.
Proof.
  intros Hne. induction d as [|[k0 v0] d IH]; simpl.
  - apply String.eqb_neq in Hne. now rewrite Hne.
  - destruct (String.eqb k k0) eqn:E; simpl.
    + apply String.eqb_eq in E. subst k0.
      apply String.eqb_neq in Hne. now rewrite Hne.
    + now rewrite IH.
Qed.

Lemma dict_get_In k v d : In (k, v) d -> Dict.get k d <> None.
Proof.
  induction d as [|[k0 v0] d IH]; simpl; [tauto|].
  intros [H|H].
  - inversion H; subst. now rewrite String.eqb_refl.
  - destruct (String.eqb k k0); [discriminate | auto].
Qed.

Lemma dict_get_None_keys k d : Dict.get k d = None -> ~ In k (Dict.keys d).
Proof.
  induction d as [|[k0 v0] d IH]; simpl; [tauto|].
  destruct (String.eqb k k0) eqn:E; [discriminate|].
  apply String.eqb_neq in E. intros H [H'|H']; [congruence | now apply IH].
Qed.

Lemma dict_get_Some_keys k v d : Dict.get k d = Some v -> In k (Dict.keys d).
Proof.
  induction d as [|[k0 v0] d IH]; simpl; [discriminate|].
  destruct (String.eqb k k0) eqn:E.
  - apply String.eqb_eq in E. auto.
  - auto.
Qed.

(** Assigning to a key that is present keeps the keys and their order;
    assigning to a new key appends it. *)
Lemma dict_keys_set k v d :
  Dict.keys (Dict.set k v d)
  = if Dict.mem k d then Dict.keys d else Dict.keys d ++ [k].
Proof.
  unfold Dict.mem. induction d as [|[k0 v0] d IH]; simpl; [reflexivity|].
  destruct (String.eqb k k0) eqn:E; simpl.
  - apply String.eqb_eq in E. now subst.
  - rewrite IH. now destruct (Dict.get k d).
Qed.

Lemma dict_set_NoDup k v d :
  NoDup (Dict.keys d) -> NoDup (Dict.keys (Dict.set k v d)).
Proof.
  intros Hd. rewrite dict_keys_set. unfold Dict.mem.
  destruct (Dict.get k d) eqn:E; [assumption|].
  apply dict_get_None_keys in E.
  apply NoDup_rev in Hd. rewrite <- (rev_involutive (_ ++ _)).
  apply NoDup_rev. rewrite rev_app_distr. simpl.
  constructor; [|assumption]. now rewrite <- in_rev.
Qed.

(** Where the items of a dictionary come from after an assignment. *)
Lemma dict_In_set k v k' v' d :
  NoDup (Dict.keys d) ->
  In (k', v') (Dict.set k v d) ->
  (k' = k /\ v' = v) \/ (k' <> k /\ In (k', v') d).
Proof.
  induction d as [|[k0 v0] d IH]; simpl; intros Hd H.
  - destruct H as [H|[]]. inversion H; auto.
  - inversion Hd as [|? ? Hnotin Hd']; subst.
    destruct (String.eqb k k0) eqn:E.
    + apply String.eqb_eq in E. subst k0.
      destruct H as [H|H]; [inversion H; auto|].
      right. split; [|auto]. intros ->.
      apply Hnotin. change k with (fst (k, v')). now apply in_map.
    + apply String.eqb_neq in E.
      destruct H as [H|H].
      * inversion H; subst. right. split; [congruence | auto].
      * destruct (IH Hd' H) as [?|[? ?]]; auto.
Qed.

Lemma dict_get_del_same k d : Dict.get k (Dict.del k d) = None.
Proof.
  unfold Dict.del. induction d as [|[k0 v0] d IH]; simpl; [reflexivity|].
  destruct (String.eqb k k0) eqn:E; simpl; [assumption|now rewrite E].
Qed.

Lemma dict_In_del k k' v' d :
  In (k', v') (Dict.del k d) -> k' <> k /\ In (k', v') d.
Proof.
  unfold Dict.del. rewrite filter_In. simpl. intros [H E].
  split; [|assumption]. intros ->. now rewrite String.eqb_refl in E.
Qed.

End DictFacts.

(** ** The follow-up scheduler *)

Section SchedulerFacts.
Import SchedulerAgent.
Local Open Scope string_scope.
Local Open Scope list_scope.

(** The loop of [get_due_follow_ups] appends, in the order of the
    store, the records the specification selects. *)
Lemma due_loop_appends now (items : Store) acc :
  fold_left (due_step now) items acc = acc ++ Spec.due_list now items.
Proof.
  revert acc. induction items as [|[k f] items IH]; intros acc; simpl.
  - now rewrite app_nil_r.
  - rewrite IH. unfold due_step, Spec.due_list, Spec.is_due, is_pending. simpl.
    destruct (String.eqb (status f) "pending"); simpl;
      [destruct (follow_up_date f <=? now)%Z; simpl|]; try reflexivity.
    now rewrite <- app_assoc.
Qed.

Lemma due_list_In now (d : Store) f :
  In f (Spec.due_list now d) <->
  exists id, In (id, f) d /\ status f = "pending" /\ (follow_up_date f <= now)%Z.
Proof.
  unfold Spec.due_list, Spec.is_due. rewrite in_map_iff. split.
  - intros [[id f'] [Heq Hin]]. simpl in Heq. subst f'.
    apply filter_In in Hin. destruct Hin as [Hin Hdue]. simpl in Hdue.
    apply andb_true_iff in Hdue. destruct Hdue as [Hs Hd].
    exists id. repeat split; trivial.
    + now apply String.eqb_eq.
    + now apply Z.leb_le.
  - intros (id & Hin & Hs & Hd). exists (id, f). split; [reflexivity|].
    apply filter_In. split; [assumption|]. simpl.
    apply andb_true_iff. split; [now apply String.eqb_eq | now apply Z.leb_le].
Qed.

Lemma get_due_follow_ups_run w :
  get_due_follow_ups w
  = (Returns (Spec.due_list (clock w (reads w)) (follow_ups w)),
     emit (INFO, Found_due_follow_ups
                   (List.length (Spec.due_list (clock w (reads w)) (follow_ups w))))
          (tick w)).
Proof.
  unfold get_due_follow_ups, bind, datetime_now, gets, logger_info, modify, ret.
  simpl. now rewrite due_loop_appends.
Qed.

(** Saving never raises and touches neither the store in memory nor
    the clock. *)
Lemma save_run w :
  exists w', _save_follow_ups w = (Returns tt, w')
    /\ follow_ups w' = follow_ups w
    /\ clock w' = clock w /\ reads w' = reads w
    /\ match faults w (accesses w) with
       | NoFault => file w' = Saved (follow_ups w) /\ log w' = log w
       | OpenFails e =>
           file w' = file w /\ log w' = log w ++ [(ERROR, Error_saving_follow_ups e)]
       | TransferFails e =>
           file w' = Garbled /\ log w' = log w ++ [(ERROR, Error_saving_follow_ups e)]
       end.
Proof.
  unfold _save_follow_ups, try_except, write_file, logger_error, modify.
  destruct (faults w (accesses w)) eqn:E; eexists; (split; [reflexivity|]);
    simpl; rewrite ?E; auto.
Qed.

Lemma mark_completed_present w id f :
  Dict.get id (follow_ups w) = Some f ->
  exists w', mark_completed id w = (Returns tt, w')
    /\ follow_ups w'
       = Dict.set id (complete (clock w (reads w)) f) (follow_ups w)
    /\ clock w' = clock w /\ reads w' = S (reads w).
Proof.
  intros Hget. unfold mark_completed, bind, gets. rewrite Hget.
  unfold datetime_now, modify. simpl.
  match goal with |- context [_save_follow_ups ?w1] =>
    destruct (save_run w1) as (w2 & Hrun & Hf & Hc & Hr & _); rewrite Hrun
  end.
  unfold logger_info, modify. eexists. split; [reflexivity|].
  simpl. rewrite Hf, Hc, Hr. auto.
Qed.

Lemma mark_completed_absent w id :
  Dict.get id (follow_ups w) = None -> mark_completed id w = (Returns tt, w).
Proof.
  intros Hget. unfold mark_completed, bind, gets. now rewrite Hget.
Qed.

Lemma cancel_follow_up_store w id :
  follow_ups (snd (cancel_follow_up id w))
  = if Dict.mem id (follow_ups w) then Dict.del id (follow_ups w) else follow_ups w.
Proof.
  unfold cancel_follow_up, bind, gets.
  destruct (Dict.mem id (follow_ups w)); [|reflexivity].
  unfold modify. simpl.
  match goal with |- context [_save_follow_ups ?w1] =>
    destruct (save_run w1) as (w2 & Hrun & Hf & _); rewrite Hrun
  end.
  unfold logger_info, modify. simpl. now rewrite Hf.
Qed.

(** The counting loops of [get_follow_up_stats]. *)
Lemma count_status_how_many s (d : Store) :
  count_status s d = Spec.how_many s d.
Proof.
  unfold count_status, Spec.how_many, Dict.values.
  enough (H : forall acc,
             fold_left (fun a f => if String.eqb (status f) s then a + 1 else a)
                       (map snd d) acc
             = (acc + Z.of_nat (List.length
                  (filter (fun item => String.eqb (status (snd item)) s) d)))%Z)
    by (rewrite H; reflexivity).
  induction d as [|[k f] d IH]; intros acc; simpl.
  - lia.
  - rewrite IH. destruct (String.eqb (status f) s); simpl List.length; lia.
Qed.

(** *** The division of [get_follow_up_stats]

    A quotient of two counts, the first not above the second, is at
    most 1 and far from the largest [float]: its rounding is finite.
    The lemmas follow the rounding of [SFdiv] step by step, with a
    bound on the number of bits of the mantissa. *)

Lemma digits2_size p : digits2_pos p = Pos.size p.
Proof. induction p; simpl; congruence. Qed.

Lemma Zdigits2_upper m : 0 <= m -> m < 2 ^ Zdigits2 m.
Proof.
  destruct m as [|p|p]; intros H; simpl; [lia| |lia].
  rewrite digits2_size. pose proof (Pos.size_gt p) as Hp.
  apply Pos2Z.pos_lt_pos in Hp. now rewrite Pos2Z.inj_pow in Hp.
Qed.

Lemma Zdigits2_le m k : 0 <= m < 2 ^ k -> 0 <= k -> Zdigits2 m <= k.
Proof.
  destruct m as [|p|p]; intros [H0 H] Hk; simpl; [assumption| |lia].
  rewrite digits2_size. pose proof (Pos.size_le p) as Hp.
  apply Pos2Z.pos_le_pos in Hp. rewrite Pos2Z.inj_pow in Hp.
  assert (2 ^ Z.pos (Pos.size p) < 2 ^ (k + 1)).
  { rewrite Z.pow_add_r by lia. change (Z.pos p~0) with (2 * Z.pos p) in Hp. lia. }
  apply Z.pow_lt_mono_r_iff in H1; lia.
Qed.

Lemma Zdigits2_nonneg m : 0 <= Zdigits2 m.
Proof. destruct m; simpl; lia. Qed.

Lemma shr_1_m r : 0 <= shr_m r -> shr_m (shr_1 r) = shr_m r / 2.
Proof.
  destruct r as [m r s]. cbn [shr_m]. intros H.
  destruct m as [|[p|p|]|p]; cbn [shr_1 shr_m]; try lia.
  - reflexivity.
  - apply Z.div_unique with 1; lia.
  - apply Z.div_unique with 0; lia.
  - reflexivity.
Qed.

Lemma iter_shr_m p : forall r,
  0 <= shr_m r -> shr_m (iter_pos shr_1 p r) = shr_m r / 2 ^ Z.pos p.
Proof.
  induction p as [p IH|p IH|]; intros r H; cbn [iter_pos].
  - assert (H1 : 0 <= shr_m (shr_1 r)) by (rewrite shr_1_m by assumption; apply Z.div_pos; lia).
    assert (H2 : 0 <= shr_m (iter_pos shr_1 p (shr_1 r)))
      by (rewrite IH by assumption; apply Z.div_pos; lia).
    rewrite IH, IH, shr_1_m by assumption.
    rewrite !Z.div_div by lia. f_equal.
    assert (E : Z.pos p~1 = 1 + (Z.pos p + Z.pos p)) by lia.
    rewrite E, (Z.pow_add_r 2 1), (Z.pow_add_r 2 (Z.pos p)) by lia.
    reflexivity.
  - assert (H2 : 0 <= shr_m (iter_pos shr_1 p r))
      by (rewrite IH by assumption; apply Z.div_pos; lia).
    rewrite IH, IH by assumption.
    rewrite !Z.div_div by lia. f_equal.
    assert (E : Z.pos p~0 = Z.pos p + Z.pos p) by lia.
    rewrite E, (Z.pow_add_r 2 (Z.pos p)) by lia.
    reflexivity.
  - rewrite shr_1_m by assumption. reflexivity.
Qed.

Lemma shr_record_of_loc_m m l : shr_m (shr_record_of_loc m l) = m.
Proof. destruct l as [|[]]; reflexivity. Qed.

Lemma shr_fexp_bound m e l B :
  0 <= m -> Zdigits2 m + e <= B ->
  let re := shr_fexp 53 1024 m e l in
  0 <= shr_m (fst re)
  /\ Zdigits2 (shr_m (fst re)) + snd re <= Z.max B (-1074)
  /\ snd re <= Z.max e (Z.max (B - 53) (-1074)).
Proof.
  intros Hm HB. unfold shr_fexp, shr, fexp, emin.
  change (Z.sub (Z.sub (Zpos 3) 1024) 53) with (-1074).
  set (d := Zdigits2 m) in *.
  change (Z.sub ?a ?b) with (a - b). change (Z.add ?a ?b) with (a + b).
  change (Z.max ?a ?b) with (Z.max a b).
  destruct (Z.max (d + e - 53) (-1074) - e) as [|n|n] eqn:En; cbn [fst snd];
    rewrite ?shr_record_of_loc_m; fold d; try (split; [assumption|lia]).
  rewrite iter_shr_m by (rewrite shr_record_of_loc_m; assumption).
  rewrite shr_record_of_loc_m.
  assert (Hup : m < 2 ^ d) by (apply Zdigits2_upper; assumption).
  assert (Hd : 0 <= d) by apply Zdigits2_nonneg.
  split; [apply Z.div_pos; lia|]. split; [|lia].
  destruct (Z_le_gt_dec (Z.pos n) d) as [Hle|Hgt].
  - assert (Zdigits2 (m / 2 ^ Z.pos n) <= d - Z.pos n); [|lia].
    apply Zdigits2_le; [|lia]. split; [apply Z.div_pos; lia|].
    apply Z.div_lt_upper_bound; [lia|].
    rewrite <- Z.pow_add_r by lia. now replace (Z.pos n + (d - Z.pos n)) with d by lia.
  - rewrite Z.div_small; [simpl; lia|]. split; [assumption|].
    apply Z.lt_le_trans with (2 ^ d); [assumption|].
    apply Z.pow_le_mono_r; lia.
Qed.

Lemma round_nearest_even_bound m l :
  0 <= m -> 0 <= round_nearest_even m l
            /\ Zdigits2 (round_nearest_even m l) <= Zdigits2 m + 1.
Proof.
  intros Hm.
  assert (H : m <= round_nearest_even m l <= m + 1).
  { unfold round_nearest_even. destruct l as [|[]]; try destruct (Z.even m);
      change (Z.add ?a ?b) with (a + b); lia. }
  split; [lia|]. pose proof (Zdigits2_upper m Hm). pose proof (Zdigits2_nonneg m).
  apply Zdigits2_le; [|lia]. split; [lia|].
  rewrite Z.pow_add_r by lia. lia.
Qed.

Lemma binary_round_aux_finite sx m e l B :
  0 <= m -> Zdigits2 m + e <= B -> -1074 <= B <= 1023 -> e <= 971 ->
  binary_round_aux 53 1024 sx m e l = S754_zero sx
  \/ exists m' e',
       binary_round_aux 53 1024 sx m e l = S754_finite sx m' e'
       /\ Zdigits2 (Z.pos m') + e' <= B + 1 /\ e' <= 971.
Proof.
  intros Hm HB HBr He. unfold binary_round_aux.
  pose proof (shr_fexp_bound m e l B Hm HB) as H1. cbv zeta in H1.
  destruct (shr_fexp 53 1024 m e l) as [r1 e1]. cbn [fst snd] in H1.
  destruct H1 as (H1m & H1d & H1e).
  destruct (round_nearest_even_bound (shr_m r1) (loc_of_shr_record r1) H1m) as (Hr0 & Hrd).
  set (m1 := round_nearest_even (shr_m r1) (loc_of_shr_record r1)) in *.
  assert (HB2 : Zdigits2 m1 + e1 <= B + 1) by lia.
  pose proof (shr_fexp_bound m1 e1 loc_Exact (B + 1) Hr0 HB2) as H2. cbv zeta in H2.
  destruct (shr_fexp 53 1024 m1 e1 loc_Exact) as [r2 e2]. cbn [fst snd] in H2.
  destruct H2 as (H2m & H2d & H2e).
  destruct (shr_m r2) as [|p|p] eqn:Hr2; [now left| |lia].
  right. change (Z.sub 1024 53) with 971.
  destruct (Z.leb_spec e2 971); [|lia].
  exists p, e2. split; [reflexivity|]. lia.
Qed.

Lemma div_core_bound a b :
  (a <= b)%positive ->
  let '(q, e, l) := SFdiv_core_binary 53 1024 (Z.pos a) 0 (Z.pos b) 0 in
  0 <= q /\ Zdigits2 q + e <= 1 /\ e <= 0.
Proof.
  intros Hab. unfold SFdiv_core_binary.
  change (Z.sub ?x ?y) with (x - y). change (Z.add ?x ?y) with (x + y).
  change (Z.min ?x ?y) with (Z.min x y).
  set (e := Z.min _ _).
  assert (He : e <= 0) by (subst e; apply Z.le_min_r).
  set (m' := match 0 - 0 - e with Z0 => Z.pos a | Z.pos _ => Z.shiftl (Z.pos a) (0 - 0 - e) | Z.neg _ => 0 end).
  assert (Hm' : m' = Z.pos a * 2 ^ (- e)).
  { subst m'. replace (0 - 0 - e) with (- e) by lia.
    destruct (- e) as [|s|s] eqn:Es; [lia| |lia].
    now rewrite Z.shiftl_mul_pow2 by lia. }
  pose proof (Z.div_eucl_eq m' (Z.pos b) ltac:(lia)) as Heq.
  pose proof (Z.mod_pos_bound m' (Z.pos b) ltac:(lia)) as Hmod.
  unfold Z.modulo in Hmod.
  change (Z.div_eucl m' (Z.pos b)) with (Z.div_eucl m' (Z.pos b)) in *.
  destruct (Z.div_eucl m' (Z.pos b)) as [q r] eqn:Hqr.
  assert (Hq : q = m' / Z.pos b) by (unfold Z.div; now rewrite Hqr).
  assert (Hq0 : 0 <= q) by (rewrite Hq; apply Z.div_pos; [rewrite Hm'|]; lia).
  split; [assumption|]. split; [|assumption].
  assert (Zdigits2 q <= - e + 1); [|lia].
  apply Zdigits2_le; [|lia]. split; [assumption|].
  rewrite Hq. apply Z.div_lt_upper_bound; [lia|].
  rewrite Hm', Z.pow_add_r by lia.
  assert (0 < 2 ^ (- e)) by (apply Z.pow_pos_nonneg; lia).
  assert (Z.pos a <= Z.pos b) by lia. nia.
Qed.

(** The quotient of a part by the whole is a [float], zero or
    positive, and so is a hundred times it. *)
Lemma truediv_of_a_part a b :
  0 <= a <= b -> 0 < b ->
  truediv a b = Returns (float_div (exactly a) (exactly b))
  /\ (float_div (exactly a) (exactly b) = S754_zero false
      \/ exists m e, float_div (exactly a) (exactly b) = S754_finite false m e)
  /\ (float_mul (float_div (exactly a) (exactly b)) hundred = S754_zero false
      \/ exists m e, float_mul (float_div (exactly a) (exactly b)) hundred
                     = S754_finite false m e).
Proof.
  intros Ha Hb. unfold truediv.
  destruct (Z.eqb_spec b 0) as [->|_]; [lia|].
  assert (H : float_div (exactly a) (exactly b) = S754_zero false
              \/ exists m e, float_div (exactly a) (exactly b)
                             = S754_finite false m e
                             /\ Zdigits2 (Z.pos m) + e <= 2 /\ e <= 971).
  { destruct b as [|b|b]; [lia| |lia].
    destruct a as [|a|a]; [now left| |lia].
    unfold float_div, exactly, SFdiv. cbn [xorb].
    pose proof (div_core_bound a b ltac:(lia)) as Hcore.
    destruct (SFdiv_core_binary 53 1024 (Z.pos a) 0 (Z.pos b) 0) as [[q e] l].
    destruct Hcore as (Hq & Hd & He).
    apply (binary_round_aux_finite false q e l 1); lia. }
  destruct H as [-> | (m & e & -> & Hd & He)].
  - split; [reflexivity|]. split; left; reflexivity.
  - split; [reflexivity|]. split; [right; eauto|].
    unfold float_mul, hundred, SFmul. cbn [xorb].
    assert (Hprod : Zdigits2 (Z.pos (m * 7036874417766400)) <= Zdigits2 (Z.pos m) + 53).
    { pose proof (Zdigits2_upper (Z.pos m) ltac:(lia)) as Hup.
      pose proof (Zdigits2_nonneg (Z.pos m)) as Hnn.
      apply Zdigits2_le; [|lia]. split; [lia|].
      rewrite Z.pow_add_r by lia. rewrite Pos2Z.inj_mul.
      assert (7036874417766400 < 2 ^ 53) by reflexivity.
      assert (0 < 2 ^ Zdigits2 (Z.pos m)) by (apply Z.pow_pos_nonneg; lia).
      nia. }
    destruct (binary_round_aux_finite false (Z.pos (m * 7036874417766400))
                (Z.add e (-46)) loc_Exact 9) as [Hz | (m' & e' & Hf & _)];
      try (change (Z.add e (-46)) with (e + -46)); try lia.
    + left. exact Hz.
    + right. eauto.
Qed.

Lemma how_many_le_length s (d : Store) :
  0 <= Spec.how_many s d <= Z.of_nat (List.length d).
Proof.
  unfold Spec.how_many. split; [lia|]. apply Nat2Z.inj_le, filter_length_le.
Qed.

(** What [get_follow_up_stats] returns. *)
Lemma get_follow_up_stats_run w :
  get_follow_up_stats w
  = (Returns {| total := Z.of_nat (List.length (follow_ups w));
                pending := Spec.how_many "pending" (follow_ups w);
                completed := Spec.how_many "completed" (follow_ups w);
                completion_rate :=
                  if (0 <? Z.of_nat (List.length (follow_ups w)))%Z
                  then Float
                         (float_mul
                            (float_div
                               (exactly (Spec.how_many "completed" (follow_ups w)))
                               (exactly (Z.of_nat (List.length (follow_ups w)))))
                            hundred)
                  else Int 0 |}, w).
Proof.
  unfold get_follow_up_stats, bind, gets, ret, lift.
  rewrite !count_status_how_many.
  destruct (0 <? Z.of_nat (List.length (follow_ups w)))%Z eqn:Ht; [|reflexivity].
  apply Z.ltb_lt in Ht.
  destruct (truediv_of_a_part _ _ (how_many_le_length "completed" (follow_ups w)) Ht)
    as (-> & _).
  reflexivity.
Qed.

End SchedulerFacts.

Section SchedulerClaims.
Import SchedulerAgent.
Local Open Scope string_scope.
Local Open Scope list_scope.

(** C1.  In every world, [get_due_follow_ups] returns exactly the
    records of the store that are pending and whose follow-up date is
    not after the time read from the clock, in the order in which the
    store holds them; it logs their number.  A returned record is never
    a completed one, and after [cancel_follow_up id] no returned record
    comes from the key [id].  The order is the order of the store and
    not that of the due dates: in the sample world the result is not
    sorted by date. *)
Theorem due_list_is_the_pending_due_subset :
  (forall w : World,
     let now := clock w (reads w) in
     let due := Spec.due_list now (follow_ups w) in
     get_due_follow_ups w
       = (Returns due, emit (INFO, Found_due_follow_ups (List.length due)) (tick w))
     /\ (forall f, In f due <->
           exists id, In (id, f) (follow_ups w)
                      /\ status f = "pending" /\ (follow_up_date f <= now)%Z)
     /\ (forall f, In f due -> status f <> "completed")
     /\ (forall id f,
           let w1 := snd (cancel_follow_up id w) in
           In f (Spec.due_list (clock w1 (reads w1)) (follow_ups w1)) ->
           Dict.get id (follow_ups w1) = None
           /\ exists k, k <> id /\ In (k, f) (follow_ups w)))
  /\ (exists w due,
        fst (get_due_follow_ups w) = Returns due
        /\ ~ Sorted Z.le (map follow_up_date due)).
Proof.
  split.
  - intros w now due. split; [apply get_due_follow_ups_run|].
    split; [intros f; apply due_list_In|]. split.
    + intros f Hf. apply due_list_In in Hf. destruct Hf as (_ & _ & Hs & _).
      rewrite Hs. discriminate.
    + intros id f w1 Hf. apply due_list_In in Hf.
      destruct Hf as (k & Hin & _). subst w1.
      rewrite cancel_follow_up_store in Hin |- *.
      unfold Dict.mem in *. destruct (Dict.get id (follow_ups w)) eqn:E.
      * split; [apply dict_get_del_same|].
        apply dict_In_del in Hin. exists k. tauto.
      * split; [assumption|]. exists k. split; [|assumption].
        intros ->. now apply dict_get_In in Hin.
  - exists Sample.world. eexists. split; [reflexivity|].
    intros H. apply Sorted_inv in H. destruct H as [_ H].
    apply HdRel_inv in H. vm_compute in H. now apply H.
Qed.

(** C9.  In every world, [get_follow_up_stats] returns, without
    changing anything: the number of records, the number of those
    whose status is "pending", the number of those whose status is
    "completed", and as completion rate the float
    [completed / total * 100] -- the quotient of the two counts
    rounded to a float, times 100, rounded again -- when there is a
    record, and the integer 0 when there is none.  The rate is a
    finite float that is not negative.  On the empty store all four
    are 0, and neither the division by zero nor any other error is
    ever raised. *)
Theorem stats_counts_and_never_divides_by_zero (w : World) :
  let d := follow_ups w in
  let t := Z.of_nat (List.length d) in
  let p := Spec.how_many "pending" d in
  let c := Spec.how_many "completed" d in
  get_follow_up_stats w
    = (Returns {| total := t; pending := p; completed := c;
                  completion_rate :=
                    if (0 <? t)%Z
                    then Float (float_mul (float_div (exactly c) (exactly t))
                                          hundred)
                    else Int 0 |}, w)
  /\ ((0 < t)%Z \/ t = 0%Z)
  /\ ((0 < t)%Z ->
      truediv c t = Returns (float_div (exactly c) (exactly t))
      /\ (float_div (exactly c) (exactly t) = S754_zero false
          \/ exists m e,
               float_div (exactly c) (exactly t) = S754_finite false m e)
      /\ (float_mul (float_div (exactly c) (exactly t)) hundred
            = S754_zero false
          \/ exists m e,
               float_mul (float_div (exactly c) (exactly t)) hundred
               = S754_finite false m e))
  /\ (d = [] ->
      fst (get_follow_up_stats w)
        = Returns {| total := 0; pending := 0; completed := 0;
                     completion_rate := Int 0 |})
  /\ (forall e, fst (get_follow_up_stats w) <> Raises e).
Proof.
  intros d t p c.
  pose proof (get_follow_up_stats_run w) as Hrun. fold d t p c in Hrun.
  split; [exact Hrun|]. split; [subst t; lia|]. split; [|split].
  - intros Ht. apply truediv_of_a_part; [apply how_many_le_length | exact Ht].
  - intros Hd. rewrite Hrun. subst t p c. rewrite Hd. reflexivity.
  - intros e. rewrite Hrun. discriminate.
Qed.

(** C4.  In every world, [mark_completed id] on a stored record sets
    its status to "completed" and [completed_at] to the time read from
    the clock, and leaves its other fields, the other records and the
    order of the store as they were; on an absent [id] it changes
    nothing at all.  The list [get_due_follow_ups] returns next never
    holds the record stored under [id], whatever its follow-up date
    and whatever the clock says; in a store whose keys are the
    [email_id]s of its records, no returned record has the email id
    [id]. *)
Theorem complete_then_due_list_excludes (w : World) (id : string) :
  (forall f, Dict.get id (follow_ups w) = Some f ->
     exists w', mark_completed id w = (Returns tt, w')
       /\ Dict.get id (follow_ups w')
          = Some {| email_id := email_id f; subject := subject f;
                    from_ := from_ f; follow_up_date := follow_up_date f;
                    created_at := created_at f; status := "completed";
                    completed_at := Some (clock w (reads w)) |}
       /\ (forall k, k <> id ->
             Dict.get k (follow_ups w') = Dict.get k (follow_ups w))
       /\ Dict.keys (follow_ups w') = Dict.keys (follow_ups w))
  /\ (Dict.get id (follow_ups w) = None ->
      mark_completed id w = (Returns tt, w))
  /\ (exists w1 due w2,
        snd (mark_completed id w) = w1
        /\ get_due_follow_ups w1 = (Returns due, w2)
        /\ (forall f, Dict.get id (follow_ups w1) = Some f -> ~ In f due)
        /\ (Spec.keyed (follow_ups w) ->
            forall f, In f due -> email_id f <> id)).
Proof.
  split; [|split].
  - intros f Hget. destruct (mark_completed_present w id f Hget)
      as (w' & Hrun & Hf & _).
    exists w'. split; [assumption|]. rewrite Hf. split; [|split].
    + apply dict_get_set_same.
    + intros k Hk. now apply dict_get_set_other.
    + rewrite dict_keys_set. unfold Dict.mem. now rewrite Hget.
  - apply mark_completed_absent.
  - eexists. eexists. eexists. split; [reflexivity|].
    split; [apply get_due_follow_ups_run|].
    destruct (Dict.get id (follow_ups w)) as [f0|] eqn:Hget.
    + destruct (mark_completed_present w id f0 Hget) as (w' & Hrun & Hf & _).
      rewrite Hrun. simpl. rewrite Hf. split.
      * intros f Hf' Hin. rewrite dict_get_set_same in Hf'.
        apply due_list_In in Hin. destruct Hin as (_ & _ & Hs & _).
        inversion Hf'; subst f. discriminate.
      * intros [Hnd Hkeys] f Hin. apply due_list_In in Hin.
        destruct Hin as (k & Hin & Hs & _).
        apply dict_In_set in Hin; [|assumption].
        destruct Hin as [[_ ->]|[Hk Hin]]; [discriminate|].
        rewrite Forall_forall in Hkeys. specialize (Hkeys _ Hin). simpl in Hkeys.
        congruence.
    + rewrite (mark_completed_absent w id Hget). simpl. split.
      * intros f Hf'. congruence.
      * intros [_ Hkeys] f Hin. apply due_list_In in Hin.
        destruct Hin as (k & Hin & _).
        rewrite Forall_forall in Hkeys. pose proof (Hkeys _ Hin) as Hk.
        simpl in Hk. rewrite Hk. intros ->. now apply dict_get_In in Hin.
Qed.

Lemma sample_store_keyed : Spec.keyed Sample.store.
Proof.
  split.
  - repeat constructor; simpl; intuition discriminate.
  - repeat constructor.
Defined.

(** The overdue follow-up "m1" of the sample world, completed. *)
Lemma complete_then_due_list_excludes_witness :
  exists w1 due w2,
    snd (mark_completed "m1" Sample.world) = w1
    /\ get_due_follow_ups w1 = (Returns due, w2)
    /\ (forall f, In f due -> email_id f <> "m1").
Proof.
  destruct (proj2 (proj2 (complete_then_due_list_excludes Sample.world "m1")))
    as (w1 & due & w2 & Hw1 & Hdue & _ & Hkeyed).
  exists w1, due, w2. split; [exact Hw1|]. split; [exact Hdue|].
  exact (Hkeyed sample_store_keyed).
Defined.

End SchedulerClaims.

Section ScheduleClaims.
Import SchedulerAgent.
Local Open Scope string_scope.
Local Open Scope list_scope.

Lemma representable_dec now days :
  {Spec.representable now days} + {~ Spec.representable now days}.
Proof.
  unfold Spec.representable.
  destruct (Z_le_dec (Z.abs days) MAX_DELTA_DAYS);
    destruct (Z_le_dec 0 (now + days * day_us));
    destruct (Z_lt_dec (now + days * day_us) (MAXORDINAL * day_us));
    (left; lia) || (right; lia).
Qed.

(** A representable delay: the whole method runs. *)
Lemma schedule_run settings id email_data days_until w :
  let days := Spec.delay settings days_until in
  let now := clock w (reads w) in
  let due := (now + days * day_us)%Z in
  Spec.representable now days ->
  exists w',
    schedule_follow_up settings id email_data days_until w
      = (Returns {| sch_follow_up_date := due; scheduled := true |}, w')
    /\ follow_ups w'
       = Dict.set id (Spec.new_record id email_data due (clock w (S (reads w))))
                  (follow_ups w)
    /\ match faults w (accesses w) with
       | NoFault =>
           file w' = Saved (follow_ups w')
           /\ log w' = log w ++ [(INFO, Scheduled_follow_up id (date_of due))]
       | OpenFails e =>
           file w' = file w
           /\ log w' = log w ++ [(ERROR, Error_saving_follow_ups e);
                                 (INFO, Scheduled_follow_up id (date_of due))]
       | TransferFails e =>
           file w' = Garbled
           /\ log w' = log w ++ [(ERROR, Error_saving_follow_ups e);
                                 (INFO, Scheduled_follow_up id (date_of due))]
       end.
Proof.
  intros days now due [Habs Hrange].
  unfold schedule_follow_up, bind, datetime_now, lift, timedelta, datetime_add.
  fold (Spec.delay settings days_until). fold days. fold now.
  apply Z.leb_le in Habs. rewrite Habs.
  replace ((0 <=? now + days * day_us)%Z && (now + days * day_us <? MAXORDINAL * day_us)%Z)
    with true
    by (symmetry; apply andb_true_iff; split;
        [apply Z.leb_le | apply Z.ltb_lt]; lia).
  unfold modify. simpl.
  match goal with |- context [_save_follow_ups ?w1] =>
    destruct (save_run w1) as (w2 & Hrun & Hf & _ & _ & Hio); rewrite Hrun
  end.
  unfold logger_info, modify, ret. eexists. split; [reflexivity|].
  simpl in *. rewrite Hf. split; [reflexivity|].
  destruct (faults w (accesses w)); destruct Hio as [Hfile Hlog];
    rewrite Hfile, Hlog, <- ?app_assoc; auto.
Qed.

(** A delay that is not representable: the method raises before it
    touches the store, the file or the log. *)
Lemma schedule_overflow settings id email_data days_until w :
  ~ Spec.representable (clock w (reads w)) (Spec.delay settings days_until) ->
  schedule_follow_up settings id email_data days_until w
    = (Raises OverflowError, tick w).
Proof.
  intros Hnot.
  unfold schedule_follow_up, bind, datetime_now, lift, timedelta, datetime_add.
  fold (Spec.delay settings days_until).
  set (days := Spec.delay settings days_until) in *.
  set (now := clock w (reads w)) in *.
  destruct (Z.abs days <=? MAX_DELTA_DAYS)%Z eqn:Habs; [|reflexivity].
  destruct ((0 <=? now + days * day_us)%Z && (now + days * day_us <? MAXORDINAL * day_us)%Z)
    eqn:Hr; [|reflexivity].
  exfalso. apply Hnot. apply andb_true_iff in Hr. destruct Hr as [H1 H2].
  apply Z.leb_le in Habs, H1. apply Z.ltb_lt in H2.
  unfold Spec.representable. lia.
Qed.

(** C2, as the code has it.  For every integer delay that [timedelta]
    and [datetime] can represent from the time read first (zero and
    negative delays included) and every prior store, [schedule] returns
    and leaves under the email id a pending record whose follow-up date
    is that first reading plus exactly the delay in days, to the
    microsecond; [created_at] is a second reading of the clock.  The
    record is built from the arguments alone, its key occurs once, and
    the other keys keep their records.  For any other delay the method
    raises [OverflowError] and the store is as before. *)
Theorem schedule_creates_or_overwrites settings id email_data days_until w :
  let days := Spec.delay settings days_until in
  let now := clock w (reads w) in
  let due := (now + days * day_us)%Z in
  (Spec.representable now days -> NoDup (Dict.keys (follow_ups w)) ->
   exists w',
     schedule_follow_up settings id email_data days_until w
       = (Returns {| sch_follow_up_date := due; scheduled := true |}, w')
     /\ Dict.get id (follow_ups w')
        = Some {| email_id := id;
                  subject := Dict.get_or "subject" "" email_data;
                  from_ := Dict.get_or "from" "" email_data;
                  follow_up_date := due;
                  created_at := clock w (S (reads w));
                  status := "pending";
                  completed_at := None |}
     /\ count_occ string_dec (Dict.keys (follow_ups w')) id = 1%nat
     /\ NoDup (Dict.keys (follow_ups w'))
     /\ (forall k, k <> id ->
           Dict.get k (follow_ups w') = Dict.get k (follow_ups w)))
  /\ (~ Spec.representable now days ->
      exists w',
        schedule_follow_up settings id email_data days_until w
          = (Raises OverflowError, w')
        /\ follow_ups w' = follow_ups w).
Proof.
  intros days now due. split.
  - intros Hrep Hnd.
    destruct (schedule_run settings id email_data days_until w Hrep)
      as (w' & Hrun & Hf & _).
    exists w'. split; [exact Hrun|]. rewrite Hf.
    assert (Hnd' := dict_set_NoDup id
              (Spec.new_record id email_data due (clock w (S (reads w))))
              (follow_ups w) Hnd).
    split; [apply dict_get_set_same|]. split; [|split; [exact Hnd'|]].
    + apply NoDup_count_occ'; [exact Hnd'|].
      eapply dict_get_Some_keys. apply dict_get_set_same.
    + intros k Hk. now apply dict_get_set_other.
  - intros Hnot. rewrite (schedule_overflow _ _ _ _ _ Hnot).
    eexists. split; reflexivity.
Qed.

(** C8, as the code has it.  For every delay that is representable,
    [schedule] returns to its caller whatever the disk does.  When the
    save fails, the error is logged and goes no further; the store in
    memory holds the new record all the same, and the file does not get
    it: it stays as it was when it could not be opened, and is left
    unreadable when the dump broke off.  A delay that is not
    representable is the one error that reaches the caller:
    [OverflowError], raised after the clock was read and before the
    store, the file or the log is touched. *)
Theorem schedule_swallows_storage_errors settings id email_data days_until w :
  let days := Spec.delay settings days_until in
  let now := clock w (reads w) in
  let due := (now + days * day_us)%Z in
  (Spec.representable now days ->
   exists w',
     schedule_follow_up settings id email_data days_until w
       = (Returns {| sch_follow_up_date := due; scheduled := true |}, w')
     /\ follow_ups w'
        = Dict.set id (Spec.new_record id email_data due (clock w (S (reads w))))
                   (follow_ups w)
     /\ match faults w (accesses w) with
        | NoFault =>
            file w' = Saved (follow_ups w')
            /\ log w' = log w ++ [(INFO, Scheduled_follow_up id (date_of due))]
        | OpenFails e =>
            file w' = file w
            /\ log w' = log w ++ [(ERROR, Error_saving_follow_ups e);
                                  (INFO, Scheduled_follow_up id (date_of due))]
        | TransferFails e =>
            file w' = Garbled
            /\ log w' = log w ++ [(ERROR, Error_saving_follow_ups e);
                                  (INFO, Scheduled_follow_up id (date_of due))]
        end)
  /\ (~ Spec.representable now days ->
      schedule_follow_up settings id email_data days_until w
        = (Raises OverflowError, tick w)
      /\ follow_ups (tick w) = follow_ups w
      /\ file (tick w) = file w
      /\ log (tick w) = log w
      /\ accesses (tick w) = accesses w).
Proof.
  intros days now due. split.
  - intros Hrep.
    destruct (schedule_run settings id email_data days_until w Hrep)
      as (w' & Hrun & Hf & Hio).
    exists w'. split; [exact Hrun|]. split; [exact Hf | exact Hio].
  - intros Hnot. split; [now apply schedule_overflow|].
    repeat split; reflexivity.
Qed.

(** The sample store is a dictionary. *)
Lemma sample_store_keys : NoDup (Dict.keys Sample.store).
Proof.
  repeat constructor; simpl; intuition discriminate.
Defined.

Lemma sample_delay_representable (days : Z) :
  (Z.abs days <=? 1000)%Z = true ->
  Spec.representable (clock Sample.world (reads Sample.world)) days.
Proof.
  intros H. apply Z.leb_le in H. unfold Spec.representable.
  change (clock Sample.world (reads Sample.world)) with (Sample.ticking 0).
  unfold Sample.ticking, Sample.t0, MAX_DELTA_DAYS, MAXORDINAL, day_us. lia.
Defined.

(** The scheduler run two days into the past on the sample world. *)
Lemma schedule_creates_or_overwrites_witness :
  exists w',
    schedule_follow_up (mkSettings 3) "m1" Sample.mail (Some (-2)%Z) Sample.world
      = (Returns {| sch_follow_up_date :=
                      (clock Sample.world (reads Sample.world) + -2 * day_us)%Z;
                    scheduled := true |}, w')
    /\ Dict.get "m1" (follow_ups w')
       = Some {| email_id := "m1";
                 subject := Dict.get_or "subject" "" Sample.mail;
                 from_ := Dict.get_or "from" "" Sample.mail;
                 follow_up_date :=
                   (clock Sample.world (reads Sample.world) + -2 * day_us)%Z;
                 created_at := clock Sample.world (S (reads Sample.world));
                 status := "pending";
                 completed_at := None |}
    /\ count_occ string_dec (Dict.keys (follow_ups w')) "m1" = 1%nat
    /\ NoDup (Dict.keys (follow_ups w'))
    /\ (forall k, k <> "m1" ->
          Dict.get k (follow_ups w') = Dict.get k (follow_ups Sample.world)).
Proof.
  exact (proj1 (schedule_creates_or_overwrites (mkSettings 3) "m1" Sample.mail
                  (Some (-2)%Z) Sample.world)
               (sample_delay_representable (-2) eq_refl) sample_store_keys).
Defined.

(** C2 fails as stated: with a delay of a billion days, which is an
    integer, no record is created. *)
Lemma schedule_rejects_a_billion_days :
  fst (schedule_follow_up (mkSettings 1000000000) "m9" Sample.mail None
         Sample.world) = Raises OverflowError
  /\ Dict.get "m9"
       (follow_ups (snd (schedule_follow_up (mkSettings 1000000000) "m9"
                           Sample.mail None Sample.world))) = None.
Proof.
  split; by_computation.
Qed.

(** The scheduler run on a disk that breaks off the dump. *)
Lemma schedule_swallows_storage_errors_witness :
  exists w',
    schedule_follow_up (mkSettings 3) "m9" Sample.mail None Sample.failing_disk
      = (Returns {| sch_follow_up_date :=
                      (clock Sample.failing_disk (reads Sample.failing_disk)
                       + 3 * day_us)%Z;
                    scheduled := true |}, w')
    /\ follow_ups w'
       = Dict.set "m9"
           (Spec.new_record "m9" Sample.mail
              (clock Sample.failing_disk (reads Sample.failing_disk) + 3 * day_us)%Z
              (clock Sample.failing_disk (S (reads Sample.failing_disk))))
           (follow_ups Sample.failing_disk)
    /\ file w' = Garbled
    /\ log w' = log Sample.failing_disk
                ++ [(ERROR, Error_saving_follow_ups OSError);
                    (INFO, Scheduled_follow_up "m9"
                             (date_of (clock Sample.failing_disk
                                         (reads Sample.failing_disk) + 3 * day_us)%Z))].
Proof.
  destruct (proj1 (schedule_swallows_storage_errors (mkSettings 3) "m9"
                     Sample.mail None Sample.failing_disk)
              (sample_delay_representable 3 eq_refl))
    as (w' & Hrun & Hf & Hfile & Hlog).
  exists w'. repeat split; assumption.
Defined.

(** C8 fails as stated: the disk of the sample world works, and a
    delay that leads before the year 1 makes [schedule] raise. *)
Lemma schedule_raises_with_a_working_disk :
  (forall n, faults Sample.world n = NoFault)
  /\ fst (schedule_follow_up (mkSettings 3) "m9" Sample.mail (Some (-3000000)%Z)
            Sample.world) = Raises OverflowError.
Proof.
  split; [intros n; reflexivity | by_computation].
Qed.

End ScheduleClaims.

(** ** Retrieval *)

Section SearchClaims.
Import VectorStore.
Local Open Scope string_scope.
Local Open Scope list_scope.

(** Reading the rows from position [length done] on yields the hits
    of the neighbors that are left, in their order. *)
Lemma collect_rows done rest acc :
  collect (Spec.rows (done ++ rest)) (List.length done)
          (map (fun n => er_document (fst n)) rest) acc
  = Returns (acc ++ map Spec.hit_of rest).
Proof.
  revert done acc. induction rest as [|n rest IH]; intros done acc; simpl.
  - now rewrite app_nil_r.
  - unfold distance_at, metadata_at, index. simpl.
    rewrite !nth_error_map, nth_error_app2, Nat.sub_diag by apply Nat.le_refl.
    simpl.
    replace (done ++ n :: rest) with ((done ++ [n]) ++ rest)
      by now rewrite <- app_assoc.
    replace (S (List.length done)) with (List.length (done ++ [n]))
      by (rewrite length_app; simpl; lia).
    rewrite IH. now rewrite <- app_assoc.
Qed.

Lemma hits_of_rows neighbors :
  hits_of (Spec.rows neighbors) = Returns (map Spec.hit_of neighbors).
Proof.
  unfold hits_of. simpl. destruct neighbors as [|n rest]; [reflexivity|].
  cbn [truthy map]. change (n :: rest) with ([] ++ (n :: rest)) at 1.
  exact (collect_rows [] (n :: rest) []).
Qed.

Lemma closest_first neighbors :
  StronglySorted Qle (map snd neighbors) ->
  StronglySorted Spec.closer (map Spec.hit_of neighbors).
Proof.
  induction neighbors as [|n rest IH]; simpl; intros H; [constructor|].
  apply StronglySorted_inv in H. destruct H as [Hrest Hn].
  constructor; [auto|].
  rewrite Forall_map in Hn |- *. revert Hn. apply Forall_impl.
  intros m Hm. exact Hm.
Qed.

(** C3.  For every query text, every [k] and every behaviour of the
    encoder and of the index, [search_similar_responses] returns a
    list and never raises.  When the encoder or the index raises, the
    list is empty and the error is logged.  When the index answers
    with ranked neighbors of the collection, the hits are these
    neighbors in their order: at most [k], no more than the collection
    holds (none on an empty one), the closest first, each with the
    stored response text, its distance and its metadata. *)
Theorem search_never_raises_and_keeps_the_ranking
    (sv : Services) (w : World) (query_text : string) (k : Z) :
  exists hits w',
    search_similar_responses sv query_text k w = (Returns hits, w')
    /\ (forall e, encode sv query_text = Raises e ->
          hits = [] /\ w' = emit (ERROR, Error_searching_vector_store e) w)
    /\ (forall q e, encode sv query_text = Returns q ->
          query sv (collection w) q k = Raises e ->
          hits = [] /\ w' = emit (ERROR, Error_searching_vector_store e) w)
    /\ (forall q res neighbors,
          encode sv query_text = Returns q ->
          query sv (collection w) q k = Returns res ->
          Spec.ranked_answer (collection w) k neighbors res ->
          hits = map Spec.hit_of neighbors /\ w' = w
          /\ (Z.of_nat (List.length hits) <= k)%Z
          /\ (List.length hits <= List.length (collection w))%nat
          /\ (collection w = [] -> hits = [])
          /\ StronglySorted Spec.closer hits
          /\ (forall h, In h hits ->
                exists r d, In r (collection w)
                  /\ h = {| response := er_document r; distance := Some d;
                            metadata := er_metadata r |})).
Proof.
  unfold search_similar_responses, try_except, bind, lift, gets, logger_error,
    modify, ret.
  destruct (encode sv query_text) as [q|e] eqn:Henc.
  2:{ eexists. eexists. split; [reflexivity|]. simpl.
      split; [intros e' He'; inversion He'; auto|].
      split; intros; discriminate. }
  destruct (query sv (collection w) q k) as [res|e] eqn:Hq.
  2:{ eexists. eexists. split; [reflexivity|]. simpl.
      split; [intros; discriminate|].
      split; [intros q' e' Hq' He'; inversion Hq'; subst q'; rewrite Hq in He';
              inversion He'; auto|].
      intros q' res' ns Hq' Hres. inversion Hq'; subst q'. congruence. }
  destruct (hits_of res) as [hits|e] eqn:Hhits.
  - exists hits, w. split; [reflexivity|].
    split; [intros; discriminate|].
    split; [intros q' e' Hq' He'; inversion Hq'; subst q'; congruence|].
    intros q' res' ns Hq' Hres (Hrows & (others & Hperm) & Hsorted & Hk).
    inversion Hq'; subst q'. rewrite Hq in Hres. injection Hres as <-.
    rewrite Hrows, hits_of_rows in Hhits. injection Hhits as <-.
    assert (Hlen : (List.length ns <= List.length (collection w))%nat).
    { rewrite <- (Permutation_length Hperm), length_app, length_map. lia. }
    split; [reflexivity|]. split; [reflexivity|].
    rewrite length_map. split; [exact Hk|]. split; [exact Hlen|].
    split.
    + intros Hempty. rewrite Hempty in Hlen. simpl in Hlen.
      destruct ns; [reflexivity | simpl in Hlen; lia].
    + split; [now apply closest_first|].
      intros h Hin. apply in_map_iff in Hin. destruct Hin as (n & <- & Hn).
      exists (fst n), (snd n). split; [|reflexivity].
      apply (Permutation_in _ Hperm). apply in_or_app. left. now apply in_map.
  - eexists. eexists. split; [reflexivity|]. simpl.
    split; [intros; discriminate|].
    split; [intros q' e' Hq' He'; inversion Hq'; subst q'; congruence|].
    intros q' res' ns Hq' Hres (Hrows & _).
    inversion Hq'; subst q'. rewrite Hq in Hres. injection Hres as <-.
    rewrite Hrows, hits_of_rows in Hhits. discriminate.
Qed.

Lemma sample_answer_is_ranked :
  Spec.ranked_answer (collection Sample.world) 2 Sample.nearest
                     (Spec.rows Sample.nearest).
Proof.
  split; [reflexivity|]. split; [|split].
  - exists (map fst (skipn 2 (Sample.rank [inject_Z 36; inject_Z 5] Sample.stored))).
    vm_compute. apply perm_skip. apply perm_swap.
  - vm_compute. repeat constructor; intro; discriminate.
  - by_computation.
Defined.

(** The search run on the sample collection: two hits out of three
    records, the closer one first. *)
Lemma search_never_raises_and_keeps_the_ranking_witness :
  exists hits w',
    search_similar_responses Sample.services Sample.question 2 Sample.world
      = (Returns hits, w')
    /\ hits = map Spec.hit_of Sample.nearest /\ w' = Sample.world
    /\ (Z.of_nat (List.length hits) <= 2)%Z
    /\ (List.length hits <= List.length (collection Sample.world))%nat
    /\ StronglySorted Spec.closer hits.
Proof.
  destruct (search_never_raises_and_keeps_the_ranking Sample.services Sample.world
              Sample.question 2) as (hits & w' & Hrun & _ & _ & Hranked).
  destruct (Hranked [inject_Z 36; inject_Z 5] (Spec.rows Sample.nearest)
              Sample.nearest eq_refl eq_refl sample_answer_is_ranked)
    as (Hhits & Hw & Hk & Hlen & _ & Hsorted & _).
  exists hits, w'. repeat split; assumption.
Defined.

End SearchClaims.

(** ** The generation call and its fallbacks *)

Section GenerationFacts.
Local Open Scope string_scope.
Local Open Scope list_scope.

(** Take one step through a run that is known to return: the
    computation scrutinised first either returns or contradicts. *)
Ltac returned H :=
  match type of H with
  | context [match ?c with _ => _ end] =>
      let E := fresh "E" in destruct c eqn:E; try discriminate H
  end.

(** Three ways for the generation call to raise: the name is not
    bound, the provider fails, the text is no JSON. *)
Lemma generate_unbound sv prompt system_prompt :
  generate sv None prompt system_prompt = Raises (NameError "get_llm_client").
Proof. reflexivity. Qed.

Lemma generate_provider_fails sv f client prompt system_prompt e :
  f tt = Returns client ->
  (LLMClient.provider client = "anthropic"
   \/ LLMClient.provider client = "openai") ->
  (forall rq, anthropic_create sv rq = Raises e) ->
  (forall rq, openai_create sv rq = Raises e) ->
  generate sv (Some f) prompt system_prompt = Raises e.
Proof.
  intros Hf Hp Ha Ho. unfold generate, obind, LLMClient.generate_json.
  rewrite Hf. destruct Hp as [-> | ->]; simpl; now rewrite ?Ha, ?Ho.
Qed.

Lemma generate_unparsable sv f client prompt system_prompt e :
  f tt = Returns client ->
  (LLMClient.provider client = "anthropic"
   \/ LLMClient.provider client = "openai") ->
  (forall rq, exists text, anthropic_create sv rq = Returns text
                           /\ json_loads sv text = Raises e) ->
  (forall rq, exists text, openai_create sv rq = Returns text
                           /\ json_loads sv text = Raises e) ->
  generate sv (Some f) prompt system_prompt = Raises e.
Proof.
  intros Hf Hp Ha Ho. unfold generate, obind, LLMClient.generate_json.
  rewrite Hf. destruct Hp as [-> | ->]; simpl.
  - match goal with |- context [anthropic_create sv ?rq] =>
      destruct (Ha rq) as (text & H1 & H2) end.
    rewrite H1. simpl. exact H2.
  - match goal with |- context [openai_create sv ?rq] =>
      destruct (Ho rq) as (text & H1 & H2) end.
    rewrite H1. simpl. exact H2.
Qed.

Lemma draft_prompt_reads_subject sv email cls summ ctx w prompt w1 :
  ReplyDrafterAgent.draft_prompt sv email cls summ ctx w = (Returns prompt, w1) ->
  exists s, Dict.getitem email "subject" = Returns s.
Proof.
  unfold ReplyDrafterAgent.draft_prompt, bind, lift. intros H.
  returned H.
  match type of H with context [VectorStore.search_similar_responses ?a ?b ?c ?d] =>
    destruct (VectorStore.search_similar_responses a b c d) as [[hits|e] w2]
  end; [|discriminate H].
  returned H.
  match type of H with context [ReplyDrafterAgent._extract_sender_name ?a ?b] =>
    destruct (ReplyDrafterAgent._extract_sender_name a b) as [[info|e] w3]
  end; [|discriminate H].
  destruct (Dict.getitem email "subject") as [s|e]; [eauto | discriminate H].
Qed.

Lemma draft_reply_on_failure sv g email cls summ ctx w prompt w1 e :
  ReplyDrafterAgent.draft_prompt sv email cls summ ctx w = (Returns prompt, w1) ->
  generate sv g prompt ReplyDrafterAgent.system_prompt = Raises e ->
  exists s, Dict.getitem email "subject" = Returns s
    /\ ReplyDrafterAgent.draft_reply sv g email cls summ ctx w
       = (Returns (ReplyDrafterAgent.fallback_reply s),
          emit (ERROR, Error_drafting_reply e) w1).
Proof.
  intros Hp Hg. destruct (draft_prompt_reads_subject _ _ _ _ _ _ _ _ Hp) as [s Hs].
  exists s. split; [exact Hs|].
  unfold ReplyDrafterAgent.draft_reply, bind. rewrite Hp.
  unfold try_except, bind, lift. rewrite Hg.
  unfold logger_error, modify. simpl. now rewrite Hs.
Qed.

Lemma refine_prompt_reads_subject original_draft feedback email w prompt w1 :
  ReplyDrafterAgent.refine_prompt original_draft feedback email w
    = (Returns prompt, w1) ->
  w1 = w /\ exists s, Dict.getitem email "subject" = Returns s.
Proof.
  unfold ReplyDrafterAgent.refine_prompt, bind, lift, ret. intros H.
  returned H.
  destruct (Dict.getitem email "subject") as [s|e]; [|discriminate H].
  inversion H. eauto.
Qed.

Lemma refine_reply_on_failure sv g original_draft feedback email w prompt w1 e :
  ReplyDrafterAgent.refine_prompt original_draft feedback email w
    = (Returns prompt, w1) ->
  generate sv g prompt ReplyDrafterAgent.system_prompt = Raises e ->
  exists s, Dict.getitem email "subject" = Returns s
    /\ ReplyDrafterAgent.refine_reply sv g original_draft feedback email w
       = (Returns (ReplyDrafterAgent.unrefined_reply s original_draft),
          emit (ERROR, Error_refining_reply e) w).
Proof.
  intros Hp Hg.
  destruct (refine_prompt_reads_subject _ _ _ _ _ _ Hp) as [-> [s Hs]].
  exists s. split; [exact Hs|].
  unfold ReplyDrafterAgent.refine_reply, bind. rewrite Hp.
  unfold try_except, bind, lift. rewrite Hg.
  unfold logger_error, modify. simpl. now rewrite Hs.
Qed.

Lemma summarize_email_on_failure sv g email cls w prompt w1 e :
  SummarizerAgent.summary_prompt email cls w = (Returns prompt, w1) ->
  generate sv g prompt SummarizerAgent.system_prompt = Raises e ->
  SummarizerAgent.summarize_email sv g email cls w
    = (Returns (SummarizerAgent.fallback_summary email),
       emit (ERROR, Error_summarizing_email e) w1).
Proof.
  intros Hp Hg. unfold SummarizerAgent.summarize_email, bind. rewrite Hp.
  unfold try_except, bind, lift. now rewrite Hg.
Qed.

(** The import at the head of the two agent modules. *)
Lemma import_of_get_llm_client_raises sv settings :
  LLMClient.import_from sv settings "get_llm_client"
  = match LLMClient.init sv settings with
    | Returns _ => Raises (ImportError "get_llm_client")
    | Raises e => Raises e
    end.
Proof.
  unfold LLMClient.import_from, LLMClient.module, obind.
  now destruct (LLMClient.init sv settings).
Qed.

(** The import at the head of the classifier module, which asks for
    the instance. *)
Lemma import_of_llm_client_returns sv settings :
  LLMClient.import_from sv settings "llm_client"
  = match LLMClient.init sv settings with
    | Returns client => Returns (LLMClient.Instance client)
    | Raises e => Raises e
    end.
Proof.
  unfold LLMClient.import_from, LLMClient.module, obind.
  now destruct (LLMClient.init sv settings).
Qed.

Lemma importing_never_runs {A} sv settings call (use : Binding -> M World A) w :
  exists e, importing_get_llm_client sv settings call use w = (Raises e, w)
    /\ (forall client, LLMClient.init sv settings = Returns client ->
          e = ImportError "get_llm_client")
    /\ (forall e', LLMClient.init sv settings = Raises e' -> e = e').
Proof.
  unfold importing_get_llm_client, bind, lift.
  rewrite import_of_get_llm_client_raises.
  destruct (LLMClient.init sv settings) as [client|e]; eexists;
    (split; [reflexivity|]); split; intros; congruence.
Qed.

End GenerationFacts.

Section DraftingClaims.
Import ReplyDrafterAgent.
Local Open Scope string_scope.
Local Open Scope list_scope.

(** C5.  Whatever the email, the classification, the summary and the
    services: when [draft_reply] has built its prompt and the call
    [get_llm_client().generate_json(...)] raises (the provider failed,
    or [json.loads] refused its text), [draft_reply] returns, logs the
    error and hands back the fixed fallback: a body that acknowledges
    the email, the tone "professional" and the confidence 0.3, which is
    below 0.5. *)
Theorem draft_reply_falls_back_when_generation_fails
    (sv : Services) (g : Binding) (email : Dict.t string)
    (cls : Classification) (summ : Summary) (ctx : option string)
    (w w1 : World) (prompt : Prompt) (e : exn) :
  draft_prompt sv email cls summ ctx w = (Returns prompt, w1) ->
  generate sv g prompt system_prompt = Raises e ->
  exists subject_field,
    Dict.get "subject" email = Some subject_field
    /\ draft_reply sv g email cls summ ctx w
       = (Returns
            (JObj [ ("subject", JStr (String.append "Re: " subject_field));
                    ("body", JStr "Thank you for your email. I will review and get back to you shortly.");
                    ("tone", JStr "professional");
                    ("confidence", JFloat (3 # 10)) ]),
          emit (ERROR, Error_drafting_reply e) w1)
    /\ (3 # 10 < 1 # 2)%Q.
Proof.
  intros Hp Hg.
  destruct (draft_reply_on_failure sv g email cls summ ctx w prompt w1 e Hp Hg)
    as (s & Hs & Hrun).
  exists s. split; [|split; [exact Hrun | reflexivity]].
  unfold Dict.getitem in Hs. destruct (Dict.get "subject" email); now inversion Hs.
Qed.

(** The sample email drafted with a model that answers in prose. *)
Lemma draft_reply_falls_back_witness :
  exists subject_field,
    Dict.get "subject" Sample.mail = Some subject_field
    /\ draft_reply Sample.chatty (Some (fun _ => LLMClient.init Sample.services Sample.openai))
         Sample.mail Sample.classified Sample.summarized None Sample.world
       = (Returns
            (JObj [ ("subject", JStr (String.append "Re: " subject_field));
                    ("body", JStr "Thank you for your email. I will review and get back to you shortly.");
                    ("tone", JStr "professional");
                    ("confidence", JFloat (3 # 10)) ]),
          emit (ERROR, Error_drafting_reply ValueError) Sample.world)
    /\ (3 # 10 < 1 # 2)%Q.
Proof.
  eapply draft_reply_falls_back_when_generation_fails; reflexivity.
Defined.

(** C6.  Whatever the draft, the feedback, the email and the services:
    when [refine_reply] has built its prompt and the generation call
    raises, [refine_reply] returns a reply whose body is the original
    draft, character for character, under the subject "Re: ..." of the
    email, with the tone "professional" and the confidence 0.5. *)
Theorem refine_reply_falls_back_to_the_original_draft
    (sv : Services) (g : Binding) (original_draft feedback : string)
    (email : Dict.t string) (w w1 : World) (prompt : Prompt) (e : exn) :
  refine_prompt original_draft feedback email w = (Returns prompt, w1) ->
  generate sv g prompt system_prompt = Raises e ->
  exists subject_field reply,
    Dict.get "subject" email = Some subject_field
    /\ refine_reply sv g original_draft feedback email w
       = (Returns reply, emit (ERROR, Error_refining_reply e) w)
    /\ reply = JObj [ ("subject", JStr (String.append "Re: " subject_field));
                      ("body", JStr original_draft);
                      ("tone", JStr "professional");
                      ("confidence", JFloat (5 # 10)) ]
    /\ Spec.field "body" reply = Some (JStr original_draft).
Proof.
  intros Hp Hg.
  destruct (refine_reply_on_failure sv g original_draft feedback email w prompt w1 e
              Hp Hg) as (s & Hs & Hrun).
  exists s. eexists. split; [|split; [exact Hrun | split; reflexivity]].
  unfold Dict.getitem in Hs. destruct (Dict.get "subject" email); now inversion Hs.
Qed.

(** A draft refined while the provider is out of reach. *)
Lemma refine_reply_falls_back_witness :
  exists subject_field reply,
    Dict.get "subject" Sample.mail = Some subject_field
    /\ refine_reply Sample.services (Some (fun _ => LLMClient.init Sample.services Sample.anthropic))
         "Dear Ann, the contract follows." "shorter" Sample.mail Sample.world
       = (Returns reply,
          emit (ERROR, Error_refining_reply (ServiceError 529)) Sample.world)
    /\ reply = JObj [ ("subject", JStr (String.append "Re: " subject_field));
                      ("body", JStr "Dear Ann, the contract follows.");
                      ("tone", JStr "professional");
                      ("confidence", JFloat (5 # 10)) ]
    /\ Spec.field "body" reply = Some (JStr "Dear Ann, the contract follows.").
Proof.
  eapply refine_reply_falls_back_to_the_original_draft; reflexivity.
Defined.

(** C10.  Running [core/llm_client.py] binds eight names, and
    [get_llm_client] is none of them, while [llm_client], the name the
    classifier imports, is one.  So the import at the head of the
    reply drafter and of the summarizer raises -- [ImportError] once
    the client is built, and what [LLMClient()] raised before that --
    and a run that goes through it reaches neither [draft_reply] nor
    [refine_reply] nor [summarize_email]: no generated result comes
    back, and no fallback either, and nothing changes.  The fallback
    the claim speaks of is what the [except] branches hand back when
    the name is unbound in a method that runs: [NameError] is raised
    in the [try], never a generated result returned. *)
Theorem get_llm_client_is_never_defined
    (sv : Services) (settings : LLMSettings)
    (call : LLMClient.object -> unit -> outcome LLMClient.t) (w : World) :
  (forall ns, LLMClient.module sv settings = Returns ns ->
     Dict.keys ns = ["Optional"; "Dict"; "Any"; "Anthropic"; "OpenAI";
                     "settings"; "LLMClient"; "llm_client"]
     /\ Dict.get "get_llm_client" ns = None
     /\ exists client, Dict.get "llm_client" ns = Some (LLMClient.Instance client))
  /\ (LLMClient.import_from sv settings "get_llm_client"
      = match LLMClient.init sv settings with
        | Returns _ => Raises (ImportError "get_llm_client")
        | Raises e => Raises e
        end)
  /\ (forall client, LLMClient.init sv settings = Returns client ->
        LLMClient.import_from sv settings "llm_client"
        = Returns (LLMClient.Instance client))
  /\ (forall email cls summ ctx, exists e,
        importing_get_llm_client sv settings call
          (fun g => draft_reply sv g email cls summ ctx) w = (Raises e, w)
        /\ (forall client, LLMClient.init sv settings = Returns client ->
              e = ImportError "get_llm_client"))
  /\ (forall original_draft feedback email, exists e,
        importing_get_llm_client sv settings call
          (fun g => refine_reply sv g original_draft feedback email) w
        = (Raises e, w)
        /\ (forall client, LLMClient.init sv settings = Returns client ->
              e = ImportError "get_llm_client"))
  /\ (forall email cls, exists e,
        importing_get_llm_client sv settings call
          (fun g => SummarizerAgent.summarize_email sv g email cls) w
        = (Raises e, w)
        /\ (forall client, LLMClient.init sv settings = Returns client ->
              e = ImportError "get_llm_client"))
  /\ (forall email cls summ ctx prompt w1,
        draft_prompt sv email cls summ ctx w = (Returns prompt, w1) ->
        exists s,
          draft_reply sv None email cls summ ctx w
          = (Returns (fallback_reply s),
             emit (ERROR, Error_drafting_reply (NameError "get_llm_client")) w1))
  /\ (forall original_draft feedback email prompt w1,
        refine_prompt original_draft feedback email w = (Returns prompt, w1) ->
        exists s,
          refine_reply sv None original_draft feedback email w
          = (Returns (unrefined_reply s original_draft),
             emit (ERROR, Error_refining_reply (NameError "get_llm_client")) w))
  /\ (forall email cls prompt w1,
        SummarizerAgent.summary_prompt email cls w = (Returns prompt, w1) ->
        SummarizerAgent.summarize_email sv None email cls w
        = (Returns (SummarizerAgent.fallback_summary email),
           emit (ERROR, Error_summarizing_email (NameError "get_llm_client")) w1)).
Proof.
  split.
  { intros ns. unfold LLMClient.module, obind.
    destruct (LLMClient.init sv settings) as [client|]; [|discriminate].
    intros H. injection H as <-.
    split; [reflexivity|]. split; [reflexivity|]. exists client. reflexivity. }
  split; [apply import_of_get_llm_client_raises|].
  split.
  { intros client Hc. rewrite import_of_llm_client_returns. now rewrite Hc. }
  split.
  { intros email cls summ ctx.
    destruct (importing_never_runs sv settings call
                (fun g => draft_reply sv g email cls summ ctx) w) as (e & H & He & _).
    eauto. }
  split.
  { intros original_draft feedback email.
    destruct (importing_never_runs sv settings call
                (fun g => refine_reply sv g original_draft feedback email) w)
      as (e & H & He & _).
    eauto. }
  split.
  { intros email cls.
    destruct (importing_never_runs sv settings call
                (fun g => SummarizerAgent.summarize_email sv g email cls) w)
      as (e & H & He & _).
    eauto. }
  split.
  { intros email cls summ ctx prompt w1 Hp.
    destruct (draft_reply_on_failure sv None email cls summ ctx w prompt w1 _ Hp
                (generate_unbound sv prompt system_prompt)) as (s & _ & Hrun).
    eauto. }
  split.
  { intros original_draft feedback email prompt w1 Hp.
    destruct (refine_reply_on_failure sv None original_draft feedback email w
                prompt w1 _ Hp (generate_unbound sv prompt system_prompt))
      as (s & _ & Hrun).
    eauto. }
  intros email cls prompt w1 Hp.
  exact (summarize_email_on_failure sv None email cls w prompt w1 _ Hp
           (generate_unbound sv prompt SummarizerAgent.system_prompt)).
Qed.

(** The sample email, drafted through the import with a client that
    can be built, and drafted with the name unbound: [ImportError] and
    no reply on the one hand, the fallback on the other. *)
Lemma get_llm_client_is_never_defined_witness :
  fst (importing_get_llm_client Sample.services Sample.openai
         (fun _ _ => LLMClient.init Sample.services Sample.openai)
         (fun g => draft_reply Sample.services g Sample.mail Sample.classified
                     Sample.summarized None) Sample.world)
    = Raises (ImportError "get_llm_client")
  /\ (exists s,
        draft_reply Sample.services None Sample.mail Sample.classified
          Sample.summarized None Sample.world
        = (Returns (fallback_reply s),
           emit (ERROR, Error_drafting_reply (NameError "get_llm_client"))
                Sample.world)).
Proof.
  destruct (get_llm_client_is_never_defined Sample.services Sample.openai
              (fun _ _ => LLMClient.init Sample.services Sample.openai)
              Sample.world)
    as (_ & _ & _ & Hdraft & _ & _ & Hunbound & _).
  split.
  - destruct (Hdraft Sample.mail Sample.classified Sample.summarized None)
      as (e & Hrun & He).
    rewrite Hrun. cbn [fst]. f_equal. eapply He. reflexivity.
  - eapply Hunbound. reflexivity.
Defined.

(** Drafting the sample email as the agent modules are written: the
    run ends at the import, with no reply at all, and so not with the
    fallback reply. *)
Lemma fallback_is_not_produced_when_the_import_fails :
  fst (importing_get_llm_client Sample.services Sample.openai
         (fun _ _ => LLMClient.init Sample.services Sample.openai)
         (fun g => draft_reply Sample.services g Sample.mail Sample.classified
                     Sample.summarized None) Sample.world)
    = Raises (ImportError "get_llm_client")
  /\ (forall reply,
        fst (importing_get_llm_client Sample.services Sample.openai
               (fun _ _ => LLMClient.init Sample.services Sample.openai)
               (fun g => draft_reply Sample.services g Sample.mail
                           Sample.classified Sample.summarized None) Sample.world)
        <> Returns reply).
Proof.
  split; [reflexivity | intros reply; discriminate].
Qed.

End DraftingClaims.

(** ** Mail body extraction *)

Section BodyClaims.
Import GmailClient.
Local Open Scope string_scope.
Local Open Scope list_scope.






End BodyClaims.

(* ================================================================== *)
(** * Part III: more of what the code does *)
(* ================================================================== *)

(** ** Dictionaries, continued *)

Section DictFactsMore.
Context {V : Type}.
Implicit Types (d : Dict.t V) (k : string) (v : V).

Lemma dict_set_absent k v d :
  Dict.get k d = None -> Dict.set k v d = d ++ [(k, v)].
Proof.
  induction d as [|[k0 v0] d IH]; simpl; [reflexivity|].
  destruct (String.eqb k k0); [discriminate|]. intros H. now rewrite IH.
Qed.

Lemma dict_del_absent k d : Dict.get k d = None -> Dict.del k d = d.
Proof.
  unfold Dict.del. induction d as [|[k0 v0] d IH]; simpl; [reflexivity|].
  destruct (String.eqb k k0); [discriminate|]. intros H. simpl. now rewrite IH.
Qed.

Lemma dict_del_set_absent k v d :
  Dict.get k d = None -> Dict.del k (Dict.set k v d) = d.
Proof.
  intros H. rewrite (dict_set_absent k v d H). unfold Dict.del.
  rewrite filter_app. simpl. rewrite String.eqb_refl. simpl.
  rewrite app_nil_r. now apply dict_del_absent.
Qed.

Lemma dict_get_del_other k k' d :
  k' <> k -> Dict.get k' (Dict.del k d) = Dict.get k' d.
Proof.
  intros Hne. unfold Dict.del.
  induction d as [|[k0 v0] d IH]; simpl; [reflexivity|].
  destruct (String.eqb k k0) eqn:E; simpl.
  - apply String.eqb_eq in E. subst k0.
    apply String.eqb_neq in Hne. now rewrite Hne.
  - now rewrite IH.
Qed.

Lemma dict_keys_del k d :
  Dict.keys (Dict.del k d)
  = filter (fun k' => negb (String.eqb k k')) (Dict.keys d).
Proof.
  unfold Dict.del, Dict.keys.
  induction d as [|[k0 v0] d IH]; simpl; [reflexivity|].
  destruct (String.eqb k k0); simpl; now rewrite IH.
Qed.

Lemma dict_del_NoDup k d : NoDup (Dict.keys d) -> NoDup (Dict.keys (Dict.del k d)).
Proof. rewrite dict_keys_del. apply NoDup_filter. Qed.

End DictFactsMore.

(** ** The scheduler, continued *)

Section SchedulerRuns.
Import SchedulerAgent.
Local Open Scope string_scope.
Local Open Scope list_scope.

(** What one attempt to save leaves in the file and adds to the log. *)
Lemma save_world w :
  _save_follow_ups w
  = (Returns tt,
     mkWorld (clock w) (reads w) (faults w) (S (accesses w))
       match faults w (accesses w) with
       | NoFault => Saved (follow_ups w)
       | OpenFails _ => file w
       | TransferFails _ => Garbled
       end
       (log w ++ match faults w (accesses w) with
                 | NoFault => []
                 | OpenFails e | TransferFails e =>
                     [(ERROR, Error_saving_follow_ups e)]
                 end)
       (follow_ups w) (collection w)).
Proof.
  unfold _save_follow_ups, try_except, write_file, logger_error, modify, touch, emit.
  destruct (faults w (accesses w)); simpl; rewrite ?app_nil_r; reflexivity.
Qed.

Lemma schedule_world settings id email_data days_until w :
  let days := Spec.delay settings days_until in
  let now := clock w (reads w) in
  let due := (now + days * day_us)%Z in
  let d' := Dict.set id (Spec.new_record id email_data due (clock w (S (reads w))))
                     (follow_ups w) in
  Spec.representable now days ->
  schedule_follow_up settings id email_data days_until w
  = (Returns {| sch_follow_up_date := due; scheduled := true |},
     mkWorld (clock w) (S (S (reads w))) (faults w) (S (accesses w))
       match faults w (accesses w) with
       | NoFault => Saved d'
       | OpenFails _ => file w
       | TransferFails _ => Garbled
       end
       ((log w ++ match faults w (accesses w) with
                  | NoFault => []
                  | OpenFails e | TransferFails e =>
                      [(ERROR, Error_saving_follow_ups e)]
                  end)
        ++ [(INFO, Scheduled_follow_up id (date_of due))])
       d' (collection w)).
Proof.
  intros days now due d' [Habs Hrange].
  unfold schedule_follow_up, bind, datetime_now, lift, timedelta, datetime_add.
  fold (Spec.delay settings days_until). fold days. fold now.
  apply Z.leb_le in Habs. rewrite Habs.
  replace ((0 <=? now + days * day_us)%Z && (now + days * day_us <? MAXORDINAL * day_us)%Z)
    with true
    by (symmetry; apply andb_true_iff; split;
        [apply Z.leb_le | apply Z.ltb_lt]; lia).
  unfold modify. simpl. rewrite save_world. reflexivity.
Qed.

Lemma mark_completed_world w id f :
  let d' := Dict.set id (complete (clock w (reads w)) f) (follow_ups w) in
  Dict.get id (follow_ups w) = Some f ->
  mark_completed id w
  = (Returns tt,
     mkWorld (clock w) (S (reads w)) (faults w) (S (accesses w))
       match faults w (accesses w) with
       | NoFault => Saved d'
       | OpenFails _ => file w
       | TransferFails _ => Garbled
       end
       ((log w ++ match faults w (accesses w) with
                  | NoFault => []
                  | OpenFails e | TransferFails e =>
                      [(ERROR, Error_saving_follow_ups e)]
                  end)
        ++ [(INFO, Marked_completed id)])
       d' (collection w)).
Proof.
  intros d' Hget. unfold mark_completed, bind, gets. rewrite Hget.
  unfold datetime_now, modify. simpl. rewrite save_world. reflexivity.
Qed.

Lemma cancel_world w id :
  Dict.mem id (follow_ups w) = true ->
  cancel_follow_up id w
  = (Returns tt,
     mkWorld (clock w) (reads w) (faults w) (S (accesses w))
       match faults w (accesses w) with
       | NoFault => Saved (Dict.del id (follow_ups w))
       | OpenFails _ => file w
       | TransferFails _ => Garbled
       end
       ((log w ++ match faults w (accesses w) with
                  | NoFault => []
                  | OpenFails e | TransferFails e =>
                      [(ERROR, Error_saving_follow_ups e)]
                  end)
        ++ [(INFO, Cancelled_follow_up id)])
       (Dict.del id (follow_ups w)) (collection w)).
Proof.
  intros Hmem. unfold cancel_follow_up, bind, gets. rewrite Hmem.
  unfold modify. simpl. rewrite save_world. reflexivity.
Qed.

Lemma cancel_absent w id :
  Dict.mem id (follow_ups w) = false -> cancel_follow_up id w = (Returns tt, w).
Proof.
  intros Hmem. unfold cancel_follow_up, bind, gets. now rewrite Hmem.
Qed.

(** Starting the agent on a file that can be read. *)
Lemma init_reads_the_file w d :
  file w = Saved d -> faults w (accesses w) = NoFault ->
  init w
  = (Returns tt,
     mkWorld (clock w) (reads w) (faults w) (S (accesses w)) (Saved d)
       (log w ++ [(INFO, Scheduler_agent_initialized)]) d (collection w)).
Proof.
  intros Hfile Hfault.
  unfold init, bind, _load_follow_ups, try_except, read_file.
  rewrite Hfile, Hfault. reflexivity.
Qed.

(** Starting the agent on a file that exists and cannot be read. *)
Lemma init_on_unreadable_file w :
  file w <> Missing ->
  (file w = Garbled \/ faults w (accesses w) <> NoFault) ->
  exists e,
    init w
    = (Returns tt,
       mkWorld (clock w) (reads w) (faults w) (S (accesses w)) (file w)
         (log w ++ [(ERROR, Error_loading_follow_ups e);
                    (INFO, Scheduler_agent_initialized)]) [] (collection w)).
Proof.
  intros Hex Hbad.
  unfold init, bind, _load_follow_ups, try_except, read_file.
  destruct (file w) as [|d|] eqn:Hfile; [congruence| |];
    destruct (faults w (accesses w)) as [|e|e] eqn:Hfault;
    try (destruct Hbad as [Hbad|Hbad]; congruence);
    eexists; unfold logger_error, logger_info, modify, ret, touch, emit; simpl;
    rewrite <- app_assoc; reflexivity.
Qed.

End SchedulerRuns.

Section SchedulerExtras.
Import SchedulerAgent.
Local Open Scope string_scope.
Local Open Scope list_scope.

(** X1.  [cancel_follow_up id] on a stored id removes that item and no
    other: the remaining keys keep their order and their records, the
    new store is saved and the cancellation logged.  On an absent id
    it does nothing, not even a save. *)
Theorem cancel_removes_one_record (w : World) (id : string) :
  (Dict.mem id (follow_ups w) = true ->
   exists w',
     cancel_follow_up id w = (Returns tt, w')
     /\ Dict.get id (follow_ups w') = None
     /\ Dict.keys (follow_ups w')
        = filter (fun k => negb (String.eqb id k)) (Dict.keys (follow_ups w))
     /\ (forall k, k <> id ->
           Dict.get k (follow_ups w') = Dict.get k (follow_ups w))
     /\ accesses w' = S (accesses w)
     /\ exists before,
          log w' = before ++ [(INFO, Cancelled_follow_up id)])
  /\ (Dict.mem id (follow_ups w) = false ->
      cancel_follow_up id w = (Returns tt, w)).
Proof.
  split.
  - intros Hmem. rewrite (cancel_world w id Hmem). eexists.
    split; [reflexivity|]. simpl.
    split; [apply dict_get_del_same|]. split; [apply dict_keys_del|].
    split; [intros k Hk; now apply dict_get_del_other|].
    split; [reflexivity|]. eexists. reflexivity.
  - apply cancel_absent.
Qed.

Lemma cancel_removes_one_record_witness :
  exists w',
    cancel_follow_up "m2" Sample.world = (Returns tt, w')
    /\ Dict.get "m2" (follow_ups w') = None
    /\ Dict.keys (follow_ups w') = ["m3"; "m4"; "m1"].
Proof.
  destruct (proj1 (cancel_removes_one_record Sample.world "m2") eq_refl)
    as (w' & Hrun & Hget & Hkeys & _).
  exists w'. split; [exact Hrun|]. split; [exact Hget|]. exact Hkeys.
Defined.

(** X2.  On a disk that works, what a mutating operation leaves in
    memory is what a restart of the agent loads: after
    [schedule_follow_up] with a representable delay, after
    [mark_completed] and after [cancel_follow_up] on a stored id,
    [__init__] reads back the very store the operation left. *)
Theorem restart_restores_what_was_saved
    settings id email_data days_until (w : World) :
  faults w (accesses w) = NoFault ->
  faults w (S (accesses w)) = NoFault ->
  (Spec.representable (clock w (reads w)) (Spec.delay settings days_until) ->
   let w' := snd (schedule_follow_up settings id email_data days_until w) in
   fst (init w') = Returns tt
   /\ follow_ups (snd (init w')) = follow_ups w')
  /\ (Dict.mem id (follow_ups w) = true ->
      let w' := snd (mark_completed id w) in
      fst (init w') = Returns tt
      /\ follow_ups (snd (init w')) = follow_ups w')
  /\ (Dict.mem id (follow_ups w) = true ->
      let w' := snd (cancel_follow_up id w) in
      fst (init w') = Returns tt
      /\ follow_ups (snd (init w')) = follow_ups w').
Proof.
  intros H0 H1. split; [|split].
  - intros Hrep w'. subst w'.
    rewrite (schedule_world settings id email_data days_until w Hrep).
    rewrite H0. simpl.
    erewrite init_reads_the_file; [split; reflexivity | reflexivity | exact H1].
  - intros Hmem w'. subst w'. unfold Dict.mem in Hmem.
    destruct (Dict.get id (follow_ups w)) as [f|] eqn:Hget; [|discriminate].
    rewrite (mark_completed_world w id f Hget). rewrite H0. simpl.
    erewrite init_reads_the_file; [split; reflexivity | reflexivity | exact H1].
  - intros Hmem w'. subst w'.
    rewrite (cancel_world w id Hmem). rewrite H0. simpl.
    erewrite init_reads_the_file; [split; reflexivity | reflexivity | exact H1].
Qed.

Lemma restart_restores_what_was_saved_witness :
  follow_ups (snd (init (snd (schedule_follow_up (mkSettings 3) "m9" Sample.mail
                                 None Sample.world))))
  = follow_ups (snd (schedule_follow_up (mkSettings 3) "m9" Sample.mail None
                       Sample.world)).
Proof.
  exact (proj2 (proj1 (restart_restores_what_was_saved (mkSettings 3) "m9"
                         Sample.mail None Sample.world eq_refl eq_refl)
                  (sample_delay_representable 3 eq_refl))).
Defined.

(** X3.  [_load_follow_ups] never raises and never writes.  Without a
    file it returns the empty store and logs nothing; from a file that
    holds a store and can be read it returns that store; from a file
    that cannot be read or parsed it returns the empty store and logs
    one error. *)
Theorem load_treats_failure_as_empty (w : World) :
  exists d w',
    _load_follow_ups w = (Returns d, w')
    /\ file w' = file w /\ follow_ups w' = follow_ups w
    /\ (file w = Missing -> d = [] /\ w' = w)
    /\ (forall s, file w = Saved s -> faults w (accesses w) = NoFault ->
          d = s /\ log w' = log w)
    /\ (file w <> Missing ->
        file w = Garbled \/ faults w (accesses w) <> NoFault ->
        d = [] /\ exists e, log w' = log w ++ [(ERROR, Error_loading_follow_ups e)]).
Proof.
  unfold _load_follow_ups, try_except, read_file, logger_error, modify, bind, ret.
  destruct (file w) as [|s|] eqn:Hfile;
    destruct (faults w (accesses w)) as [|e|e] eqn:Hfault;
    eexists; eexists; (split; [reflexivity|]); simpl;
    (split; [auto|]); (split; [reflexivity|]);
    (split; [intros; try discriminate; auto|]);
    (split; [intros s' Hs Hf; try discriminate; inversion Hs; auto|]);
    intros Hm Hbad; try congruence;
    try (destruct Hbad as [Hbad|Hbad]; congruence);
    (split; [reflexivity|]); eexists; reflexivity.
Qed.

(** X4.  The three operations that change the store keep it a
    dictionary keyed by email id: if no key occurs twice and every
    record carries its key as [email_id] before, the same holds after
    [schedule_follow_up], [mark_completed] and [cancel_follow_up],
    whatever their arguments and whatever the disk does. *)
Theorem operations_keep_the_store_keyed
    settings id email_data days_until (w : World) :
  Spec.keyed (follow_ups w) ->
  Spec.keyed (follow_ups (snd (schedule_follow_up settings id email_data
                                 days_until w)))
  /\ Spec.keyed (follow_ups (snd (mark_completed id w)))
  /\ Spec.keyed (follow_ups (snd (cancel_follow_up id w))).
Proof.
  intros [Hnd Hkeys]. split; [|split].
  - destruct (representable_dec (clock w (reads w))
                (Spec.delay settings days_until)) as [Hrep|Hnot].
    + rewrite (schedule_world settings id email_data days_until w Hrep). simpl.
      split; [now apply dict_set_NoDup|].
      apply Forall_forall. intros [k f] Hin.
      apply dict_In_set in Hin; [|assumption].
      destruct Hin as [[-> ->]|[_ Hin]]; [reflexivity|].
      rewrite Forall_forall in Hkeys. exact (Hkeys _ Hin).
    + rewrite (schedule_overflow _ _ _ _ _ Hnot). simpl. now split.
  - destruct (Dict.get id (follow_ups w)) as [f|] eqn:Hget.
    + rewrite (mark_completed_world w id f Hget). simpl.
      split; [now apply dict_set_NoDup|].
      apply Forall_forall. intros [k f'] Hin.
      apply dict_In_set in Hin; [|assumption].
      rewrite Forall_forall in Hkeys.
      destruct Hin as [[-> ->]|[_ Hin]]; [|exact (Hkeys _ Hin)].
      simpl.
      assert (Hf : In (id, f) (follow_ups w)).
      { clear - Hget. induction (follow_ups w) as [|[k0 v0] d IH];
          simpl in *; [discriminate|].
        destruct (String.eqb id k0) eqn:E.
        - apply String.eqb_eq in E. inversion Hget. subst. now left.
        - right. now apply IH. }
      exact (Hkeys _ Hf).
    + rewrite (mark_completed_absent w id Hget). now split.
  - rewrite cancel_follow_up_store.
    destruct (Dict.mem id (follow_ups w)); [|now split].
    split; [now apply dict_del_NoDup|].
    unfold Dict.del. apply Forall_forall. intros item Hin.
    apply filter_In in Hin. rewrite Forall_forall in Hkeys.
    exact (Hkeys _ (proj1 Hin)).
Qed.

Lemma operations_keep_the_store_keyed_witness :
  Spec.keyed (follow_ups (snd (schedule_follow_up (mkSettings 3) "m9" Sample.mail
                                 None Sample.world)))
  /\ Spec.keyed (follow_ups (snd (mark_completed "m1" Sample.world)))
  /\ Spec.keyed (follow_ups (snd (cancel_follow_up "m2" Sample.world))).
Proof.
  destruct (operations_keep_the_store_keyed (mkSettings 3) "m9" Sample.mail None
              Sample.world sample_store_keyed) as (H1 & _ & _).
  destruct (operations_keep_the_store_keyed (mkSettings 3) "m1" Sample.mail None
              Sample.world sample_store_keyed) as (_ & H2 & _).
  destruct (operations_keep_the_store_keyed (mkSettings 3) "m2" Sample.mail None
              Sample.world sample_store_keyed) as (_ & _ & H3).
  split; [exact H1|]. split; [exact H2 | exact H3].
Defined.

Lemma how_many_split (d : Store) :
  Shape.two_statuses d ->
  (Spec.how_many "pending" d + Spec.how_many "completed" d
   = Z.of_nat (List.length d))%Z.
Proof.
  unfold Spec.how_many. intros H. rewrite <- Nat2Z.inj_add. f_equal.
  induction H as [|[k f] d Hf _ IH]; [reflexivity|].
  cbn [filter snd List.length].
  destruct Hf as [Hf|Hf]; simpl in Hf; rewrite Hf; cbn [String.eqb];
    simpl; lia.
Qed.

Lemma how_many_bound (d : Store) :
  (Spec.how_many "pending" d + Spec.how_many "completed" d
   <= Z.of_nat (List.length d))%Z.
Proof.
  unfold Spec.how_many. rewrite <- Nat2Z.inj_add. apply Nat2Z.inj_le.
  induction d as [|[k f] d IH]; [apply Nat.le_refl|].
  cbn [filter snd List.length].
  destruct (String.eqb (status f) "pending") eqn:E.
  - apply String.eqb_eq in E. rewrite E. simpl. lia.
  - destruct (String.eqb (status f) "completed"); simpl; lia.
Qed.

(** X5.  The operations write no status but "pending" and
    "completed": a store that holds these two only holds these two
    only after [schedule_follow_up], [mark_completed] and
    [cancel_follow_up].  On such a store the statistics add up,
    [total = pending + completed]; on any store
    [pending + completed <= total]. *)
Theorem statistics_add_up settings id email_data days_until (w : World) :
  (Shape.two_statuses (follow_ups w) ->
   Shape.two_statuses
     (follow_ups (snd (schedule_follow_up settings id email_data days_until w)))
   /\ Shape.two_statuses (follow_ups (snd (mark_completed id w)))
   /\ Shape.two_statuses (follow_ups (snd (cancel_follow_up id w)))
   /\ exists s, get_follow_up_stats w = (Returns s, w)
                /\ total s = (pending s + completed s)%Z)
  /\ (exists s, get_follow_up_stats w = (Returns s, w)
                /\ (pending s + completed s <= total s)%Z).
Proof.
  assert (Hset : forall k f (d : Store),
             (status f = "pending" \/ status f = "completed") ->
             Shape.two_statuses d -> Shape.two_statuses (Dict.set k f d)).
  { intros k f d Hf. unfold Shape.two_statuses.
    induction 1 as [|[k0 f0] d Hf0 Hd IH]; simpl.
    - constructor; [exact Hf | constructor].
    - destruct (String.eqb k k0); constructor; auto. }
  pose proof (get_follow_up_stats_run w) as Hrun.
  split.
  - intros Htwo. split; [|split; [|split]].
    + destruct (representable_dec (clock w (reads w))
                  (Spec.delay settings days_until)) as [Hrep|Hnot].
      * rewrite (schedule_world settings id email_data days_until w Hrep). simpl.
        apply Hset; [now left | exact Htwo].
      * now rewrite (schedule_overflow _ _ _ _ _ Hnot).
    + destruct (Dict.get id (follow_ups w)) as [f|] eqn:Hget.
      * rewrite (mark_completed_world w id f Hget). simpl.
        apply Hset; [now right | exact Htwo].
      * now rewrite (mark_completed_absent w id Hget).
    + rewrite cancel_follow_up_store.
      destruct (Dict.mem id (follow_ups w)); [|exact Htwo].
      unfold Dict.del, Shape.two_statuses in *.
      apply Forall_forall. intros item Hin. apply filter_In in Hin.
      rewrite Forall_forall in Htwo. exact (Htwo _ (proj1 Hin)).
    + eexists. split; [exact Hrun|]. simpl. symmetry. now apply how_many_split.
  - eexists. split; [exact Hrun|]. simpl. apply how_many_bound.
Qed.

Lemma sample_store_two_statuses : Shape.two_statuses Sample.store.
Proof.
  unfold Shape.two_statuses, Sample.store.
  repeat (apply Forall_cons;
          [first [left; reflexivity | right; reflexivity]|]).
  apply Forall_nil.
Defined.

Lemma statistics_add_up_witness :
  exists s, get_follow_up_stats Sample.world = (Returns s, Sample.world)
            /\ total s = (pending s + completed s)%Z.
Proof.
  destruct (proj1 (statistics_add_up (mkSettings 3) "m9" Sample.mail None
                     Sample.world) sample_store_two_statuses)
    as (_ & _ & _ & H).
  exact H.
Defined.

(** X6.  A follow-up scheduled with a representable delay is in the
    list the next [get_due_follow_ups] returns exactly when its due
    date, the first clock reading plus the delay, is not after the
    reading that query takes; a delay of zero or less is due as soon
    as the clock does not go back. *)
Theorem scheduled_record_is_due_when_its_date_has_come
    settings id email_data days_until (w : World) :
  let days := Spec.delay settings days_until in
  let now := clock w (reads w) in
  let asked := clock w (S (S (reads w))) in
  let r := Spec.new_record id email_data (now + days * day_us)%Z
             (clock w (S (reads w))) in
  Spec.representable now days ->
  exists w' due w'',
    snd (schedule_follow_up settings id email_data days_until w) = w'
    /\ get_due_follow_ups w' = (Returns due, w'')
    /\ (In r due <-> (now + days * day_us <= asked)%Z)
    /\ ((days <= 0)%Z -> (now <= asked)%Z -> In r due).
Proof.
  intros days now asked r Hrep.
  eexists. eexists. eexists. split; [reflexivity|].
  split; [apply get_due_follow_ups_run|].
  rewrite (schedule_world settings id email_data days_until w Hrep). simpl.
  fold days now asked r.
  assert (Hiff : In r (Spec.due_list asked (Dict.set id r (follow_ups w)))
                 <-> (now + days * day_us <= asked)%Z).
  { rewrite due_list_In. split.
    - intros (k & _ & _ & Hd). exact Hd.
    - intros Hd. exists id. split; [|split; [reflexivity | exact Hd]].
      clear. induction (follow_ups w) as [|[k0 f0] d IH]; simpl; [now left|].
      destruct (String.eqb id k0) eqn:E.
      + apply String.eqb_eq in E. subst. now left.
      + now right. }
  split; [exact Hiff|].
  intros Hneg Hmono. apply Hiff. unfold day_us. lia.
Qed.

Lemma scheduled_record_is_due_witness :
  exists w' due w'',
    snd (schedule_follow_up (mkSettings 3) "m9" Sample.mail (Some 0%Z)
           Sample.world) = w'
    /\ get_due_follow_ups w' = (Returns due, w'')
    /\ In (Spec.new_record "m9" Sample.mail
             (clock Sample.world (reads Sample.world) + 0 * day_us)%Z
             (clock Sample.world (S (reads Sample.world)))) due.
Proof.
  destruct (scheduled_record_is_due_when_its_date_has_come (mkSettings 3) "m9"
              Sample.mail (Some 0%Z) Sample.world
              (sample_delay_representable 0 eq_refl))
    as (w' & due & w'' & Hw & Hdue & _ & Hnow).
  exists w', due, w''. split; [exact Hw|]. split; [exact Hdue|].
  apply Hnow; by_computation.
Defined.

(** X7.  Scheduling again an id the store holds, whatever its status,
    keeps the order of the store and puts in the place of the old
    record a pending one without [completed_at]: a completed follow-up
    is open again.  An id the store does not hold goes to the end. *)
Theorem rescheduling_reopens_in_place
    settings id email_data days_until (w : World) :
  let days := Spec.delay settings days_until in
  let now := clock w (reads w) in
  Spec.representable now days ->
  let w' := snd (schedule_follow_up settings id email_data days_until w) in
  (forall old, Dict.get id (follow_ups w) = Some old ->
     Dict.keys (follow_ups w') = Dict.keys (follow_ups w)
     /\ exists r, Dict.get id (follow_ups w') = Some r
                  /\ status r = "pending" /\ completed_at r = None
                  /\ follow_up_date r = (now + days * day_us)%Z)
  /\ (Dict.get id (follow_ups w) = None ->
      follow_ups w'
      = follow_ups w
        ++ [(id, Spec.new_record id email_data (now + days * day_us)%Z
                   (clock w (S (reads w))))]).
Proof.
  intros days now Hrep w'. subst w'.
  rewrite (schedule_world settings id email_data days_until w Hrep). simpl.
  split.
  - intros old Hget. split.
    + rewrite dict_keys_set. unfold Dict.mem. now rewrite Hget.
    + eexists. split; [apply dict_get_set_same|]. repeat split.
  - intros Hget. now apply dict_set_absent.
Qed.

Lemma rescheduling_reopens_in_place_witness :
  Dict.keys (follow_ups (snd (schedule_follow_up (mkSettings 3) "m2" Sample.mail
                                None Sample.world)))
  = Dict.keys (follow_ups Sample.world)
  /\ exists r,
       Dict.get "m2" (follow_ups (snd (schedule_follow_up (mkSettings 3) "m2"
                                         Sample.mail None Sample.world)))
       = Some r
       /\ status r = "pending" /\ completed_at r = None
       /\ follow_up_date r
          = (clock Sample.world (reads Sample.world) + 3 * day_us)%Z.
Proof.
  exact (proj1 (rescheduling_reopens_in_place (mkSettings 3) "m2" Sample.mail None
                  Sample.world (sample_delay_representable 3 eq_refl))
           (snd (Sample.record "m2" (Sample.t0 - 3 * day_us) "completed"
                   (Some (Sample.t0 - day_us)%Z)))
           eq_refl).
Defined.

(** X8.  [mark_completed] does not look at the status it overwrites:
    called a second time on the same id it stamps [completed_at]
    anew, with the later reading of the clock, and saves again. *)
Theorem completing_twice_restamps (w : World) (id : string) (f : FollowUp) :
  Dict.get id (follow_ups w) = Some f ->
  exists w1 w2,
    mark_completed id w = (Returns tt, w1)
    /\ mark_completed id w1 = (Returns tt, w2)
    /\ Dict.get id (follow_ups w1)
       = Some (complete (clock w (reads w)) f)
    /\ Dict.get id (follow_ups w2)
       = Some (complete (clock w (S (reads w))) f)
    /\ accesses w2 = S (S (accesses w)).
Proof.
  intros Hget. rewrite (mark_completed_world w id f Hget).
  eexists. eexists. split; [reflexivity|].
  assert (Hget1 : Dict.get id (Dict.set id (complete (clock w (reads w)) f)
                                 (follow_ups w))
                  = Some (complete (clock w (reads w)) f))
    by apply dict_get_set_same.
  match goal with |- context [mark_completed id ?w1] =>
    rewrite (mark_completed_world w1 id _ Hget1)
  end.
  simpl. split; [reflexivity|]. split; [exact Hget1|].
  split; [apply dict_get_set_same | reflexivity].
Qed.

Lemma completing_twice_restamps_witness :
  exists w1 w2,
    mark_completed "m1" Sample.world = (Returns tt, w1)
    /\ mark_completed "m1" w1 = (Returns tt, w2)
    /\ Dict.get "m1" (follow_ups w2)
       = Some (complete (clock Sample.world (S (reads Sample.world)))
                 (snd (Sample.record "m1" (Sample.t0 - 2 * day_us) "pending" None))).
Proof.
  destruct (completing_twice_restamps Sample.world "m1"
              (snd (Sample.record "m1" (Sample.t0 - 2 * day_us) "pending" None))
              eq_refl) as (w1 & w2 & H1 & H2 & _ & H4 & _).
  exists w1, w2. split; [exact H1|]. split; [exact H2 | exact H4].
Defined.

(** X9.  Scheduling a follow-up for an id the store does not hold and
    cancelling it at once gives back the store as it was, item for
    item; for an id the store held, the pair removes it. *)
Theorem schedule_then_cancel settings id email_data days_until (w : World) :
  Spec.representable (clock w (reads w)) (Spec.delay settings days_until) ->
  let w' := snd (cancel_follow_up id
                   (snd (schedule_follow_up settings id email_data days_until w))) in
  (Dict.get id (follow_ups w) = None -> follow_ups w' = follow_ups w)
  /\ Dict.get id (follow_ups w') = None
  /\ (forall k, k <> id -> Dict.get k (follow_ups w') = Dict.get k (follow_ups w)).
Proof.
  intros Hrep w'. subst w'.
  rewrite (schedule_world settings id email_data days_until w Hrep). simpl.
  rewrite cancel_follow_up_store. simpl.
  unfold Dict.mem. rewrite dict_get_set_same.
  split; [intros Hget; now apply dict_del_set_absent|].
  split; [apply dict_get_del_same|].
  intros k Hk. rewrite dict_get_del_other by assumption.
  now apply dict_get_set_other.
Qed.

Lemma schedule_then_cancel_witness :
  follow_ups (snd (cancel_follow_up "m9"
                     (snd (schedule_follow_up (mkSettings 3) "m9" Sample.mail None
                             Sample.world))))
  = follow_ups Sample.world.
Proof.
  exact (proj1 (schedule_then_cancel (mkSettings 3) "m9" Sample.mail None
                  Sample.world (sample_delay_representable 3 eq_refl))
           eq_refl).
Defined.

(** X10.  A dump that breaks off costs more than the change it was
    to save: after [schedule_follow_up], [mark_completed] or
    [cancel_follow_up] on such a disk the store in memory is intact,
    and a restart of the agent finds a file it cannot parse and starts
    with no follow-up at all, whatever the file held before. *)
Theorem interrupted_dump_loses_every_follow_up
    settings id email_data days_until (w : World) (e : exn) :
  faults w (accesses w) = TransferFails e ->
  (Spec.representable (clock w (reads w)) (Spec.delay settings days_until) ->
   let w' := snd (schedule_follow_up settings id email_data days_until w) in
   Dict.get id (follow_ups w') <> None
   /\ fst (init w') = Returns tt /\ follow_ups (snd (init w')) = [])
  /\ (Dict.mem id (follow_ups w) = true ->
      let w' := snd (mark_completed id w) in
      Dict.get id (follow_ups w') <> None
      /\ fst (init w') = Returns tt /\ follow_ups (snd (init w')) = [])
  /\ (Dict.mem id (follow_ups w) = true ->
      let w' := snd (cancel_follow_up id w) in
      fst (init w') = Returns tt /\ follow_ups (snd (init w')) = []).
Proof.
  intros Hfault.
  assert (Hinit : forall w', file w' = Garbled ->
            fst (init w') = Returns tt /\ follow_ups (snd (init w')) = []).
  { intros w' Hfile.
    destruct (init_on_unreadable_file w') as [e' He'];
      [rewrite Hfile; discriminate | now left |].
    rewrite He'. split; reflexivity. }
  split; [|split].
  - intros Hrep w'. subst w'.
    rewrite (schedule_world settings id email_data days_until w Hrep).
    rewrite Hfault. simpl. split.
    + rewrite dict_get_set_same. discriminate.
    + now apply Hinit.
  - intros Hmem w'. subst w'. unfold Dict.mem in Hmem.
    destruct (Dict.get id (follow_ups w)) as [f|] eqn:Hget; [|discriminate].
    rewrite (mark_completed_world w id f Hget). rewrite Hfault. simpl. split.
    + rewrite dict_get_set_same. discriminate.
    + now apply Hinit.
  - intros Hmem w'. subst w'.
    rewrite (cancel_world w id Hmem). rewrite Hfault. simpl. now apply Hinit.
Qed.

Lemma interrupted_dump_loses_every_follow_up_witness :
  follow_ups (snd (init (snd (mark_completed "m1" Sample.failing_disk)))) = []
  /\ List.length (follow_ups (snd (mark_completed "m1" Sample.failing_disk)))
     = 4%nat.
Proof.
  split; [|reflexivity].
  exact (proj2 (proj2 (proj1 (proj2
           (interrupted_dump_loses_every_follow_up (mkSettings 3) "m1" Sample.mail
              None Sample.failing_disk OSError eq_refl)) eq_refl))).
Defined.

End SchedulerExtras.

(** ** Retrieval, continued *)

Section SearchExtras.
Import VectorStore.
Local Open Scope string_scope.
Local Open Scope list_scope.

Lemma distance_at_first_row results i :
  distance_at results i
  = match Shape.first_row (distances results) with
    | Some row => match nth_error row i with
                  | Some d => Returns (Some d)
                  | None => Raises IndexError
                  end
    | None => Returns None
    end.
Proof.
  unfold distance_at, Shape.first_row, index, obind.
  destruct (distances results) as [[|row rows]|]; try reflexivity.
  now destruct (nth_error row i).
Qed.

Lemma metadata_at_first_row results i :
  metadata_at results i
  = match Shape.first_row (metadatas results) with
    | Some row => match nth_error row i with
                  | Some m => Returns m
                  | None => Raises IndexError
                  end
    | None => Returns []
    end.
Proof.
  unfold metadata_at, Shape.first_row, index.
  now destruct (metadatas results) as [[|row rows]|].
Qed.

(** The loop on rows that cover its positions. *)
Lemma collect_covered results docs : forall i acc,
  Shape.covers (distances results) (i + List.length docs) ->
  Shape.covers (metadatas results) (i + List.length docs) ->
  exists hits,
    collect results i docs acc = Returns (acc ++ hits)
    /\ map response hits = docs
    /\ (forall j h, nth_error hits j = Some h -> Shape.carries results (i + j) h).
Proof.
  induction docs as [|doc docs IH]; intros i acc Hd Hm; simpl.
  - exists []. rewrite app_nil_r. split; [reflexivity|]. split; [reflexivity|].
    intros [|j] h; discriminate.
  - rewrite distance_at_first_row, metadata_at_first_row.
    unfold Shape.covers in Hd, Hm. simpl in Hd, Hm.
    assert (Hstep : (S i + List.length docs = i + S (List.length docs))%nat) by lia.
    set (dval := match Shape.first_row (distances results) with
                 | Some row => nth_error row i | None => None end).
    assert (Hdist : match Shape.first_row (distances results) with
                    | Some row => match nth_error row i with
                                  | Some d => Returns (Some d)
                                  | None => Raises IndexError
                                  end
                    | None => Returns None
                    end = Returns dval).
    { subst dval. destruct (Shape.first_row (distances results)) as [row|];
        [|reflexivity].
      destruct (nth_error row i) eqn:E; [reflexivity|].
      apply nth_error_None in E. lia. }
    rewrite Hdist. simpl.
    destruct (Shape.first_row (metadatas results)) as [mrow|] eqn:Emeta.
    + destruct (nth_error mrow i) as [m|] eqn:Em;
        [|apply nth_error_None in Em; lia].
      simpl.
      destruct (IH (S i) (acc ++ [{| response := doc; distance := dval; metadata := m |}]))
        as (hits & Hrun & Hdocs & Hcar).
      { unfold Shape.covers. rewrite Hstep. exact Hd. }
      { unfold Shape.covers. rewrite Emeta, Hstep. exact Hm. }
      exists ({| response := doc; distance := dval; metadata := m |} :: hits).
      rewrite Hrun, <- app_assoc. split; [reflexivity|].
      split; [simpl; now rewrite Hdocs|].
      intros [|j] h Hh.
      * inversion Hh; subst h. unfold Shape.carries. simpl.
        rewrite Nat.add_0_r, Emeta. now split.
      * replace (i + S j)%nat with (S i + j)%nat by lia. now apply Hcar.
    + simpl.
      destruct (IH (S i) (acc ++ [{| response := doc; distance := dval; metadata := [] |}]))
        as (hits & Hrun & Hdocs & Hcar).
      { unfold Shape.covers. rewrite Hstep. exact Hd. }
      { unfold Shape.covers. now rewrite Emeta. }
      exists ({| response := doc; distance := dval; metadata := [] |} :: hits).
      rewrite Hrun, <- app_assoc. split; [reflexivity|].
      split; [simpl; now rewrite Hdocs|].
      intros [|j] h Hh.
      * inversion Hh; subst h. unfold Shape.carries. simpl.
        rewrite Nat.add_0_r, Emeta. now split.
      * replace (i + S j)%nat with (S i + j)%nat by lia. now apply Hcar.
Qed.

(** The loop on a row that ends before the documents do. *)
Lemma collect_short results docs : forall i acc,
  (exists row, Shape.first_row (distances results) = Some row
               /\ (i <= List.length row < i + List.length docs)%nat)
  \/ (exists row, Shape.first_row (metadatas results) = Some row
                  /\ (i <= List.length row < i + List.length docs)%nat) ->
  collect results i docs acc = Raises IndexError.
Proof.
  induction docs as [|doc docs IH]; intros i acc H; simpl.
  - destruct H as [(row & _ & H)|(row & _ & H)]; simpl in H; lia.
  - rewrite distance_at_first_row, metadata_at_first_row.
    destruct (Shape.first_row (distances results)) as [drow|] eqn:Ed.
    + destruct (nth_error drow i) as [d|] eqn:End; [|reflexivity].
      simpl. assert (Hi : (i < List.length drow)%nat)
        by (apply nth_error_Some; congruence).
      destruct (Shape.first_row (metadatas results)) as [mrow|] eqn:Em.
      * destruct (nth_error mrow i) as [m|] eqn:Enm; [|reflexivity].
        simpl. assert (Hj : (i < List.length mrow)%nat)
          by (apply nth_error_Some; congruence).
        apply IH.
        destruct H as [(row & Hrow & H)|(row & Hrow & H)]; simpl in H;
          inversion Hrow; subst row; [left | right]; eexists;
          (split; [reflexivity|]); lia.
      * simpl. apply IH.
        destruct H as [(row & Hrow & H)|(row & Hrow & H)]; [|discriminate].
        simpl in H. inversion Hrow; subst row. left. eexists.
        split; [reflexivity|]. lia.
    + simpl.
      destruct (Shape.first_row (metadatas results)) as [mrow|] eqn:Em.
      * destruct (nth_error mrow i) as [m|] eqn:Enm; [|reflexivity].
        simpl. assert (Hj : (i < List.length mrow)%nat)
          by (apply nth_error_Some; congruence).
        apply IH.
        destruct H as [(row & Hrow & H)|(row & Hrow & H)]; [discriminate|].
        simpl in H. inversion Hrow; subst row. right. eexists.
        split; [reflexivity|]. lia.
      * destruct H as [(row & Hrow & _)|(row & Hrow & _)]; discriminate.
Qed.

Lemma search_run sv query_text k w q results :
  encode sv query_text = Returns q ->
  query sv (collection w) q k = Returns results ->
  search_similar_responses sv query_text k w
  = match hits_of results with
    | Returns hits => (Returns hits, w)
    | Raises e => (Returns [], emit (ERROR, Error_searching_vector_store e) w)
    end.
Proof.
  intros He Hq.
  unfold search_similar_responses, try_except, bind, lift, gets.
  rewrite He, Hq. now destruct (hits_of results).
Qed.

(** Whatever the services do, the search returns. *)
Lemma search_returns sv query_text k w :
  exists hits w',
    search_similar_responses sv query_text k w = (Returns hits, w')
    /\ collection w' = collection w /\ follow_ups w' = follow_ups w.
Proof.
  unfold search_similar_responses, try_except, bind, lift, gets,
    logger_error, modify, ret.
  destruct (encode sv query_text) as [q|e]; [|eauto].
  destruct (query sv (collection w) q k) as [results|e]; [|eauto].
  destruct (hits_of results) as [hits|e]; eauto.
Qed.

(** X11.  The search makes one hit per document of the first row, in
    the order of the row, and reads the distance and the metadata of a
    hit at the position of its document.  When the answer of the index
    has no distances the hits carry [None], when it has no metadata
    they carry the empty dictionary; this needs the rows that are
    there to be as long as the row of documents. *)
Theorem hits_follow_the_rows sv query_text k w q results row rest :
  encode sv query_text = Returns q ->
  query sv (collection w) q k = Returns results ->
  documents results = Some (row :: rest) ->
  Shape.covers (distances results) (List.length row) ->
  Shape.covers (metadatas results) (List.length row) ->
  exists hits,
    search_similar_responses sv query_text k w = (Returns hits, w)
    /\ map response hits = row
    /\ (forall j h, nth_error hits j = Some h -> Shape.carries results j h)
    /\ (distances results = None -> Forall (fun h => distance h = None) hits)
    /\ (metadatas results = None -> Forall (fun h => metadata h = []) hits).
Proof.
  intros He Hq Hdocs Hd Hm. rewrite (search_run _ _ _ _ _ _ He Hq).
  unfold hits_of. rewrite Hdocs.
  destruct row as [|doc row'].
  - exists []. simpl. split; [reflexivity|]. split; [reflexivity|].
    split; [intros [|j] h; discriminate|]. split; constructor.
  - cbn [truthy].
    destruct (collect_covered results (doc :: row') 0 [] Hd Hm)
      as (hits & Hrun & Hrow & Hcar).
    rewrite Hrun. exists hits. split; [reflexivity|]. split; [exact Hrow|].
    split; [exact Hcar|].
    split; intros Hnone; apply Forall_forall; intros h Hin;
      apply In_nth_error in Hin; destruct Hin as [j Hj];
      destruct (Hcar j h Hj) as [H1 H2]; simpl in H1, H2;
      rewrite Hnone in *; simpl in *; assumption.
Qed.

Lemma hits_follow_the_rows_witness :
  exists hits,
    search_similar_responses
      (Sample.answering Sample.bare)
      "any" 3 Sample.world = (Returns hits, Sample.world)
    /\ map response hits = ["first"; "second"]
    /\ Forall (fun h => distance h = None) hits
    /\ Forall (fun h => metadata h = []) hits.
Proof.
  edestruct (hits_follow_the_rows
              (Sample.answering Sample.bare)
              "any" 3 Sample.world [] Sample.bare ["first"; "second"] []
              eq_refl eq_refl eq_refl I I)
    as (hits & Hrun & Hrow & _ & Hd & Hm).
  exists hits. split; [exact Hrun|]. split; [exact Hrow|].
  split; [now apply Hd | now apply Hm].
Defined.

(** X12.  The search is all or nothing: when the row of distances or
    the row of metadata is there and shorter than the row of
    documents, the [IndexError] of the missing position is caught, the
    hits built so far are dropped, and the search returns the empty
    list and logs the error. *)
Theorem short_row_empties_the_search sv query_text k w q results row rest :
  encode sv query_text = Returns q ->
  query sv (collection w) q k = Returns results ->
  documents results = Some (row :: rest) ->
  Shape.falls_short (distances results) (List.length row)
  \/ Shape.falls_short (metadatas results) (List.length row) ->
  search_similar_responses sv query_text k w
  = (Returns [], emit (ERROR, Error_searching_vector_store IndexError) w).
Proof.
  intros He Hq Hdocs Hshort. rewrite (search_run _ _ _ _ _ _ He Hq).
  unfold hits_of. rewrite Hdocs.
  assert (Hrow : truthy row = true).
  { destruct row; [|reflexivity].
    destruct Hshort as [(r & _ & H)|(r & _ & H)]; simpl in H; lia. }
  rewrite Hrow. rewrite collect_short; [reflexivity|].
  destruct Hshort as [(r & Hr & H)|(r & Hr & H)]; [left | right];
    exists r; (split; [exact Hr|]); lia.
Qed.

Lemma short_row_empties_the_search_witness :
  search_similar_responses
    (Sample.answering Sample.ragged)
    "any" 3 Sample.world
  = (Returns [], emit (ERROR, Error_searching_vector_store IndexError) Sample.world).
Proof.
  eapply (short_row_empties_the_search (Sample.answering Sample.ragged) "any" 3
            Sample.world [] Sample.ragged ["first"; "second"] []
            eq_refl eq_refl eq_refl).
  left. exists [1 # 2]. split; [reflexivity | simpl; lia].
Defined.

End SearchExtras.

(** ** Strings *)

Section StringFacts.
Import Str.
Local Open Scope string_scope.

Lemma append_assoc_s (a b c : string) : (a ++ b) ++ c = a ++ (b ++ c).
Proof. induction a as [|x a IH]; simpl; [reflexivity | now rewrite IH]. Qed.

Lemma append_nil_r (a : string) : a ++ "" = a.
Proof. induction a as [|x a IH]; simpl; [reflexivity | now rewrite IH]. Qed.

Lemma length_append_s (a b : string) :
  String.length (a ++ b) = (String.length a + String.length b)%nat.
Proof. induction a as [|x a IH]; simpl; [reflexivity | now rewrite IH]. Qed.

Lemma length_prefix n (s : string) :
  String.length (prefix n s) = Nat.min n (String.length s).
Proof.
  unfold prefix. revert s. induction n as [|n IH]; intros [|c s]; simpl;
    try reflexivity.
  now rewrite IH.
Qed.

Lemma contains_cons c x (s : string) :
  contains c (String x s) = Ascii.eqb c x || contains c s.
Proof. reflexivity. Qed.

Lemma contains_append c (a b : string) :
  contains c (a ++ b) = contains c a || contains c b.
Proof.
  induction a as [|x a IH]; [reflexivity|].
  change (String x a ++ b) with (String x (a ++ b)).
  rewrite !contains_cons, IH. now rewrite orb_assoc.
Qed.

Lemma split_nonempty sep (s : string) :
  exists seg segs, split sep s = seg :: segs.
Proof.
  induction s as [|x s (seg & segs & IH)]; simpl; [eauto|].
  destruct (Ascii.eqb x sep); [eauto|]. rewrite IH. eauto.
Qed.

(** A separator in the string: [split] yields two segments at
    least. *)
Lemma split_two sep (s : string) :
  contains sep s = true ->
  exists seg0 seg1 segs, split sep s = seg0 :: seg1 :: segs.
Proof.
  induction s as [|x s IH]; [discriminate|].
  rewrite contains_cons. simpl. rewrite Ascii.eqb_sym.
  destruct (Ascii.eqb x sep) eqn:E; simpl.
  - intros _. destruct (split_nonempty sep s) as (seg & segs & H).
    rewrite H. eauto.
  - intros H. destruct (IH H) as (seg0 & seg1 & segs & Hs). rewrite Hs. eauto.
Qed.

(** The text up to the first separator is the first segment. *)
Lemma split_at_first sep (a b : string) :
  Shape.free_of sep a ->
  split sep (a ++ String sep b) = a :: split sep b.
Proof.
  unfold Shape.free_of. induction a as [|x a IH]; simpl.
  - now rewrite Ascii.eqb_refl.
  - rewrite contains_cons. rewrite Ascii.eqb_sym.
    destruct (Ascii.eqb x sep); [discriminate|]. simpl.
    intros H. now rewrite (IH H).
Qed.

(** Text without separator in front of a string joins its first
    segment. *)
Lemma split_after_free sep (a b : string) :
  Shape.free_of sep a ->
  exists seg segs,
    split sep b = seg :: segs /\ split sep (a ++ b) = (a ++ seg) :: segs.
Proof.
  unfold Shape.free_of. induction a as [|x a IH]; simpl.
  - intros _. destruct (split_nonempty sep b) as (seg & segs & H). eauto.
  - rewrite contains_cons. rewrite Ascii.eqb_sym.
    destruct (Ascii.eqb x sep); [discriminate|]. simpl.
    intros H. destruct (IH H) as (seg & segs & Hb & Hab).
    rewrite Hab. eauto.
Qed.

End StringFacts.

(** ** The reply drafter, continued *)

Section DrafterExtras.
Import Str ReplyDrafterAgent.
Local Open Scope string_scope.

(** The sender of a field of the shape [display<address>tail]. *)
Lemma angle_parts (display address tail : string) :
  Shape.free_of lt_sign display ->
  Shape.free_of lt_sign address ->
  Shape.free_of gt_sign address ->
  let from_field := display ++ String lt_sign (address ++ String gt_sign tail) in
  contains lt_sign from_field && contains gt_sign from_field = true
  /\ index (split lt_sign from_field) 0 = Returns display
  /\ exists after,
       index (split lt_sign from_field) 1 = Returns after
       /\ index (split gt_sign after) 0 = Returns address.
Proof.
  intros Hd Ha Hg from_field. subst from_field. split; [|split].
  - rewrite !contains_append, !contains_cons, !contains_append, !contains_cons.
    rewrite !Ascii.eqb_refl. now rewrite !orb_true_r.
  - now rewrite split_at_first.
  - rewrite split_at_first by assumption.
    destruct (split_after_free lt_sign address (String gt_sign tail) Ha)
      as (seg & segs & Hseg & Hsplit).
    rewrite Hsplit. exists (address ++ seg). split; [reflexivity|].
    simpl in Hseg.
    destruct (split lt_sign tail) as [|seg' segs'] eqn:Htail;
      inversion Hseg; subst; now rewrite split_at_first.
Qed.

(** X13.  For a From field of the shape [display<address>...], where
    neither part holds a "<" and the address holds no ">",
    [_extract_sender_name] gives the address without surrounding white
    space, as full name the display part without surrounding white
    space and quotes, and as name its first word.  When the display
    part is nothing but quoted white space, taking the first word
    raises [IndexError], and the method logs it and hands back the
    whole field as address with empty names. *)
Theorem sender_of_an_angle_address (display address tail : string) (w : World) :
  Shape.free_of lt_sign display ->
  Shape.free_of lt_sign address ->
  Shape.free_of gt_sign address ->
  let from_field := display ++ String lt_sign (address ++ String gt_sign tail) in
  let full := strip_with (Ascii.eqb quote) (strip display) in
  (forall first more, split_whitespace full = first :: more ->
     _extract_sender_name from_field w
     = (Returns {| name := first; full_name := full; email := strip address |}, w))
  /\ (full = "" ->
      _extract_sender_name from_field w
      = (Returns {| name := ""; full_name := ""; email := strip address |}, w))
  /\ (full <> "" -> split_whitespace full = [] ->
      _extract_sender_name from_field w
      = (Returns {| name := ""; full_name := ""; email := from_field |},
         emit (ERROR, Error_extracting_sender_name IndexError) w)).
Proof.
  intros Hd Ha Hg from_field full.
  destruct (angle_parts display address tail Hd Ha Hg)
    as (Hc & H0 & after & H1 & H2).
  fold from_field in Hc, H0, H1.
  assert (Hfound : (if contains lt_sign from_field && contains gt_sign from_field
                    then obind (index (split lt_sign from_field) 0) (fun before =>
                         obind (index (split lt_sign from_field) 1) (fun after =>
                         obind (index (split gt_sign after) 0) (fun address =>
                         Returns (strip_with (Ascii.eqb quote) (strip before),
                                  strip address))))
                    else Returns ("", strip from_field))
                   = Returns (full, strip address)).
  { rewrite Hc, H0. simpl. rewrite H1. simpl. now rewrite H2. }
  unfold _extract_sender_name, try_except, bind, lift.
  rewrite Hfound. simpl. split; [|split].
  - intros first more Hw.
    destruct full as [|c full'] eqn:Hfull; [discriminate Hw|].
    simpl. unfold index. now rewrite Hw.
  - intros Hfull. now rewrite Hfull.
  - intros Hne Hw. destruct full as [|c full'] eqn:Hfull; [congruence|].
    simpl. unfold index. now rewrite Hw.
Qed.

Lemma free_of_plain_text :
  Shape.free_of lt_sign "Ann Lee " /\ Shape.free_of lt_sign "ann@example.org"
  /\ Shape.free_of gt_sign "ann@example.org".
Proof. repeat split. Defined.

Lemma sender_of_an_angle_address_witness :
  _extract_sender_name "Ann Lee <ann@example.org>" Sample.world
  = (Returns {| name := "Ann"; full_name := "Ann Lee";
                email := "ann@example.org" |}, Sample.world).
Proof.
  exact (proj1 (sender_of_an_angle_address "Ann Lee " "ann@example.org" ""
                  Sample.world (proj1 free_of_plain_text)
                  (proj1 (proj2 free_of_plain_text))
                  (proj2 (proj2 free_of_plain_text)))
           "Ann" ["Lee"] eq_refl).
Defined.

(** Whatever the field, the method returns. *)
Lemma extract_sender_name_returns from_field w :
  exists info w',
    _extract_sender_name from_field w = (Returns info, w')
    /\ collection w' = collection w.
Proof.
  unfold _extract_sender_name, try_except, bind, lift, logger_error, modify, ret.
  match goal with |- context [if ?c then ?a else ?b] =>
    destruct (if c then a else b) as [found|e]; [|eauto]
  end.
  simpl.
  match goal with |- context [if ?c then ?a else ?b] =>
    destruct (if c then a else b) as [first|e]; eauto
  end.
Qed.

(** The prompt of an email that has the three keys: the summary is
    read after the search and the sender. *)
Lemma draft_prompt_run sv email cls summ ctx w b f s :
  Dict.get "body" email = Some b ->
  Dict.get "from" email = Some f ->
  Dict.get "subject" email = Some s ->
  exists hits w1 info w2,
    VectorStore.search_similar_responses sv b 3 w = (Returns hits, w1)
    /\ _extract_sender_name f w1 = (Returns info, w2)
    /\ draft_prompt sv email cls summ ctx w
       = (match summary_block summ with
          | Returns (text, points, actions, mood) =>
              Returns
                (DraftPrompt f s b (category cls) (priority cls)
                   text points actions mood (_format_rag_context hits)
                   match ctx with
                   | Some c =>
                       if nonempty c then "ADDITIONAL CONTEXT:" ++ nl ++ c else ""
                   | None => ""
                   end
                   (if nonempty (name info) then name info else "there"))
          | Raises e => Raises e
          end, w2).
Proof.
  intros Hb Hf Hs.
  destruct (search_returns sv b 3 w) as (hits & w1 & Hsearch & _).
  destruct (extract_sender_name_returns f w1) as (info & w2 & Hinfo & _).
  exists hits, w1, info, w2. split; [exact Hsearch|]. split; [exact Hinfo|].
  unfold draft_prompt, bind, lift, Dict.getitem.
  rewrite Hb, Hsearch, Hf, Hinfo, Hs.
  destruct (summary_block summ) as [[[[text points] actions] mood]|e];
    reflexivity.
Qed.

(** Reading the summary fails in three ways only: it is no dictionary,
    or it lacks one of the two keys asked for by subscript, or what it
    holds under one of the two keys read with [get] cannot be
    joined. *)
Lemma summary_block_raises summ e :
  summary_block summ = Raises e ->
  e = TypeError \/ e = KeyError "summary" \/ e = KeyError "sentiment".
Proof.
  unfold summary_block, subscript, joined, get_or_empty, obind, Dict.getitem.
  destruct summ as [| | | | |l|o]; try (intros H; injection H as <-; now left).
  destruct (Dict.get "summary" o); [|intros H; injection H as <-; auto].
  assert (Hitems : forall v e', items v = Raises e' -> e' = TypeError).
  { intros v e'. unfold items.
    destruct v as [| | | |x|l|o']; try (intros H; now injection H as <-);
      try discriminate.
    induction l as [|[| | | |x|l'|o'] l IH]; simpl;
      try discriminate; try (intros H; now injection H as <-).
    unfold obind. destruct (strings l); [discriminate|].
    intros H. injection H as <-. now apply IH. }
  destruct (items (Dict.get_or "key_points" (JArr []) o)) eqn:E1;
    [|intros H; injection H as <-; left; eapply Hitems; exact E1].
  destruct (items (Dict.get_or "action_items" (JArr []) o)) eqn:E2;
    [|intros H; injection H as <-; left; eapply Hitems; exact E2].
  destruct (Dict.get "sentiment" o); [discriminate|].
  intros H; injection H as <-; auto.
Qed.

(** The summary the summarizer falls back to can be read. *)
Lemma fallback_summary_block email :
  summary_block (SummarizerAgent.fallback_summary email)
  = Returns (JStr (Dict.get_or "snippet" "Unable to generate summary" email),
             "", "", JStr "neutral").
Proof. reflexivity. Qed.

(** An email with the three keys and a summary that can be read is
    drafted without an exception. *)
Lemma draft_reply_returns (sv : Services) (g : Binding) (email : Dict.t string)
    (cls : Classification) (summ : Summary) (ctx : option string) (w : World)
    block :
  Shape.draftable email ->
  summary_block summ = Returns block ->
  exists reply w', draft_reply sv g email cls summ ctx w = (Returns reply, w').
Proof.
  intros (Hb & Hf & Hs) Hblock.
  destruct (Dict.get "body" email) as [b|] eqn:Eb; [|congruence].
  destruct (Dict.get "from" email) as [f|] eqn:Ef; [|congruence].
  destruct (Dict.get "subject" email) as [s|] eqn:Es; [|congruence].
  destruct (draft_prompt_run sv email cls summ ctx w b f s Eb Ef Es)
    as (hits & w1 & info & w2 & _ & _ & Hp).
  rewrite Hblock in Hp. destruct block as [[[text points] actions] mood].
  unfold draft_reply, bind. rewrite Hp.
  unfold try_except, bind, lift, Dict.getitem, logger_error, logger_info,
    modify, ret.
  match goal with |- context [generate ?a ?b ?c ?d] =>
    destruct (generate a b c d) as [j|e]
  end; simpl; rewrite ?Es; [|eauto].
  destruct (Dict.get "id" email); simpl; rewrite ?Es; eauto.
Qed.

(** An email with the three keys and a summary that cannot be read:
    the error leaves [draft_reply]. *)
Lemma draft_reply_raises (sv : Services) (g : Binding) (email : Dict.t string)
    (cls : Classification) (summ : Summary) (ctx : option string) (w : World) e :
  Shape.draftable email ->
  summary_block summ = Raises e ->
  exists w', draft_reply sv g email cls summ ctx w = (Raises e, w').
Proof.
  intros (Hb & Hf & Hs) Hblock.
  destruct (Dict.get "body" email) as [b|] eqn:Eb; [|congruence].
  destruct (Dict.get "from" email) as [f|] eqn:Ef; [|congruence].
  destruct (Dict.get "subject" email) as [s|] eqn:Es; [|congruence].
  destruct (draft_prompt_run sv email cls summ ctx w b f s Eb Ef Es)
    as (hits & w1 & info & w2 & _ & _ & Hp).
  rewrite Hblock in Hp.
  unfold draft_reply, bind. rewrite Hp. eauto.
Qed.

(** X14.  [draft_reply] reads the email and the summary before its
    [try].  For an email that has the keys "body", "from" and
    "subject" and a summary that can be read it returns, whatever the
    services, the binding of [get_llm_client] and the classification
    do.  For an email that lacks one of the three keys it raises
    [KeyError] for one of them that is missing.  For an email that has
    them and a summary that cannot be read -- the model's JSON is no
    dictionary, or has no "summary" or no "sentiment", or holds under
    "key_points" or "action_items" something [join] refuses -- it
    raises the error of that read, [TypeError] or [KeyError]. *)
Theorem draft_reply_returns_iff_email_and_summary_can_be_read
    (sv : Services) (g : Binding) (email : Dict.t string)
    (cls : Classification) (summ : Summary) (ctx : option string) (w : World) :
  (Shape.draftable email ->
   (forall block, summary_block summ = Returns block ->
      exists reply w', draft_reply sv g email cls summ ctx w = (Returns reply, w'))
   /\ (forall e, summary_block summ = Raises e ->
         (exists w', draft_reply sv g email cls summ ctx w = (Raises e, w'))
         /\ (e = TypeError \/ e = KeyError "summary" \/ e = KeyError "sentiment")))
  /\ (~ Shape.draftable email ->
      exists k w',
        draft_reply sv g email cls summ ctx w = (Raises (KeyError k), w')
        /\ In k ["body"; "from"; "subject"] /\ Dict.get k email = None)
  /\ ((exists reply w', draft_reply sv g email cls summ ctx w = (Returns reply, w'))
      <-> Shape.draftable email /\ exists block, summary_block summ = Returns block).
Proof.
  assert (Hkeys : ~ Shape.draftable email ->
            exists k w',
              draft_reply sv g email cls summ ctx w = (Raises (KeyError k), w')
              /\ In k ["body"; "from"; "subject"] /\ Dict.get k email = None).
  { unfold Shape.draftable.
    destruct (Dict.get "body" email) as [b|] eqn:Hb.
    2:{ intros _.
        exists "body", w. split; [|split; [simpl; auto | exact Hb]].
        unfold draft_reply, draft_prompt, bind, lift, Dict.getitem.
        now rewrite Hb. }
    destruct (search_returns sv b 3 w) as (hits & w1 & Hsearch & _).
    destruct (Dict.get "from" email) as [f|] eqn:Hf.
    2:{ intros _.
        exists "from", w1. split; [|split; [simpl; auto | exact Hf]].
        unfold draft_reply, draft_prompt, bind, lift, Dict.getitem.
        now rewrite Hb, Hsearch, Hf. }
    destruct (extract_sender_name_returns f w1) as (info & w2 & Hinfo & _).
    destruct (Dict.get "subject" email) as [s|] eqn:Hs.
    2:{ intros _.
        exists "subject", w2. split; [|split; [simpl; auto | exact Hs]].
        unfold draft_reply, draft_prompt, bind, lift, Dict.getitem.
        now rewrite Hb, Hsearch, Hf, Hinfo, Hs. }
    intros H. exfalso. apply H. repeat split; discriminate. }
  split; [|split; [exact Hkeys|]].
  - intros Hd. split.
    + intros block Hblock. now apply draft_reply_returns with block.
    + intros e He. split; [now apply draft_reply_raises|].
      now apply summary_block_raises with summ.
  - split.
    + intros (reply & w' & Hrun).
      assert (Hd : Shape.draftable email).
      { unfold Shape.draftable.
        destruct (Dict.get "body" email) eqn:Eb;
          [destruct (Dict.get "from" email) eqn:Ef;
             [destruct (Dict.get "subject" email) eqn:Es;
                [repeat split; discriminate|]|]|];
          (destruct Hkeys as (k & w'' & Hk & _);
           [unfold Shape.draftable; rewrite ?Eb, ?Ef, ?Es; tauto | congruence]). }
      split; [exact Hd|].
      destruct (summary_block summ) as [block|e] eqn:Hblock; [eauto|].
      destruct (draft_reply_raises sv g email cls summ ctx w e Hd Hblock)
        as (w'' & Hr). congruence.
    + intros (Hd & block & Hblock). now apply draft_reply_returns with block.
Qed.

(** X15.  When the generation call returns, [draft_reply] hands back
    its JSON value as it is: no key is looked for, no tone or
    confidence checked.  It then logs the id of the email; an email
    without the key "id" makes this very line raise [KeyError] inside
    the [try], and the generated reply is dropped for the fallback. *)
Theorem draft_reply_hands_back_what_the_model_said
    (sv : Services) (g : Binding) (email : Dict.t string)
    (cls : Classification) (summ : Summary) (ctx : option string)
    (w w1 : World) (prompt : Prompt) (j : json) :
  draft_prompt sv email cls summ ctx w = (Returns prompt, w1) ->
  generate sv g prompt system_prompt = Returns j ->
  (forall id, Dict.get "id" email = Some id ->
     draft_reply sv g email cls summ ctx w
     = (Returns j, emit (INFO, Drafted_reply id) w1))
  /\ (Dict.get "id" email = None ->
      exists s,
        Dict.get "subject" email = Some s
        /\ draft_reply sv g email cls summ ctx w
           = (Returns (fallback_reply s),
              emit (ERROR, Error_drafting_reply (KeyError "id")) w1)).
Proof.
  intros Hp Hg.
  destruct (draft_prompt_reads_subject _ _ _ _ _ _ _ _ Hp) as [s Hs].
  unfold draft_reply, bind. rewrite Hp.
  unfold try_except, bind, lift. rewrite Hg. split.
  - intros id Hid. unfold Dict.getitem. now rewrite Hid.
  - intros Hid. exists s. unfold Dict.getitem in *.
    destruct (Dict.get "subject" email) as [s'|]; [|discriminate].
    inversion Hs; subst s'. rewrite Hid. simpl. now split.
Qed.

Lemma draft_reply_hands_back_witness :
  draft_reply Sample.terse (Some (fun _ => LLMClient.init Sample.services Sample.openai))
    Sample.mail Sample.classified Sample.summarized None Sample.world
  = (Returns (JObj []), emit (INFO, Drafted_reply "m9") Sample.world).
Proof.
  eapply (proj1 (draft_reply_hands_back_what_the_model_said Sample.terse
                   (Some (fun _ => LLMClient.init Sample.services Sample.openai))
                   Sample.mail Sample.classified Sample.summarized None
                   Sample.world Sample.world _ (JObj []) eq_refl eq_refl)).
  reflexivity.
Defined.

(** X16.  A failure of the retrieval does not stop the draft: when the
    embedding of the body raises, the search logs the error and yields
    no hit, and the prompt is built all the same, with an empty block
    of past responses and with what the summary holds; only a summary
    that cannot be read stops it then, with the error of that read. *)
Theorem drafting_goes_on_without_retrieval
    (sv : Services) (email : Dict.t string) (cls : Classification)
    (summ : Summary) (ctx : option string) (w : World) (b f s : string) (e : exn) :
  Dict.get "body" email = Some b ->
  Dict.get "from" email = Some f ->
  Dict.get "subject" email = Some s ->
  encode sv b = Raises e ->
  exists info w2,
    _extract_sender_name f (emit (ERROR, Error_searching_vector_store e) w)
      = (Returns info, w2)
    /\ draft_prompt sv email cls summ ctx w
       = (match summary_block summ with
          | Returns (text, points, actions, mood) =>
              Returns
                (DraftPrompt f s b (category cls) (priority cls)
                   text points actions mood ""
                   match ctx with
                   | Some c =>
                       if nonempty c then "ADDITIONAL CONTEXT:" ++ nl ++ c else ""
                   | None => ""
                   end
                   (if nonempty (name info) then name info else "there"))
          | Raises e' => Raises e'
          end, w2).
Proof.
  intros Hb Hf Hs He.
  destruct (draft_prompt_run sv email cls summ ctx w b f s Hb Hf Hs)
    as (hits & w1 & info & w2 & Hsearch & Hinfo & Hp).
  assert (Hfail : VectorStore.search_similar_responses sv b 3 w
                  = (Returns [], emit (ERROR, Error_searching_vector_store e) w)).
  { unfold VectorStore.search_similar_responses, try_except, bind, lift.
    now rewrite He. }
  rewrite Hfail in Hsearch. inversion Hsearch; subst hits w1.
  exists info, w2. split; [exact Hinfo | exact Hp].
Qed.

Lemma drafting_goes_on_without_retrieval_witness :
  exists info w2,
    _extract_sender_name "Ann Lee <ann@example.org>"
      (emit (ERROR, Error_searching_vector_store (ServiceError 500)) Sample.world)
      = (Returns info, w2)
    /\ draft_prompt Sample.deaf Sample.mail Sample.classified Sample.summarized
         None Sample.world
       = (Returns
            (DraftPrompt "Ann Lee <ann@example.org>" "Contract renewal"
               "Could you send the renewed contract?"
               (category Sample.classified) (priority Sample.classified)
               (JStr "Ann asks for the renewed contract.")
               "contract renewal" "" (JStr "neutral") "" ""
               (if nonempty (name info) then name info else "there")),
          w2).
Proof.
  exact (drafting_goes_on_without_retrieval Sample.deaf Sample.mail
           Sample.classified Sample.summarized None Sample.world
           "Could you send the renewed contract?" "Ann Lee <ann@example.org>"
           "Contract renewal" (ServiceError 500) eq_refl eq_refl eq_refl eq_refl).
Defined.

(** The loop of [_format_rag_context] appends one entry per hit. *)
Lemma numbered_entries hits : forall i context,
  numbered i hits context
  = context ++ String.concat "" (map Shape.entry
                                   (combine (seq i (List.length hits)) hits)).
Proof.
  assert (Hconcat : forall x l, String.concat "" (x :: l) = x ++ String.concat "" l).
  { intros x [|y l]; simpl; [now rewrite append_nil_r | reflexivity]. }
  induction hits as [|h hits IH]; intros i context.
  - simpl. now rewrite append_nil_r.
  - cbn [numbered List.length seq combine map]. rewrite Hconcat, IH.
    now rewrite append_assoc_s.
Qed.

(** X17.  The block of past responses is empty for no hit; for hits it
    is the heading followed by one entry per hit, in their order and
    numbered from 1, where an entry shows the first 200 characters of
    the response at most, followed by three dots whether or not
    anything was cut. *)
Theorem rag_context_lists_the_hits (hits : list VectorStore.Hit) :
  (hits = [] -> _format_rag_context hits = "")
  /\ (hits <> [] ->
      _format_rag_context hits
      = ("SIMILAR PAST RESPONSES (for reference):" ++ nl)
        ++ String.concat "" (map Shape.entry
                               (combine (seq 1 (List.length hits)) hits)))
  /\ (forall n h,
        String.length (Shape.entry (n, h))
        <= String.length (of_nat n) + 207)%nat
  /\ (forall n h,
        (String.length (VectorStore.response h) <= 200)%nat ->
        Shape.entry (n, h)
        = nl ++ of_nat n ++ ". " ++ VectorStore.response h ++ "..." ++ nl).
Proof.
  split; [intros ->; reflexivity|]. split; [|split].
  - intros Hne. unfold _format_rag_context.
    destruct hits as [|h hits]; [congruence|]. cbn [truthy].
    apply numbered_entries.
  - intros n h. unfold Shape.entry. simpl fst. simpl snd.
    rewrite !length_append_s, length_prefix. simpl String.length. lia.
  - intros n h Hlen. unfold Shape.entry. simpl fst. simpl snd.
    replace (prefix 200 (VectorStore.response h)) with (VectorStore.response h);
      [reflexivity|].
    unfold prefix. generalize 200%nat Hlen. generalize (VectorStore.response h).
    induction s as [|c s IH]; intros [|n'] H; simpl in *; try reflexivity;
      try lia.
    f_equal. apply IH. lia.
Qed.

End DrafterExtras.

(** ** The summarizer and the sender *)

Section SummarizerExtras.
Import Str.
Local Open Scope string_scope.

(** X18.  [summarize_email] on an email that has "from", "subject" and
    "body" always returns: the JSON value of the model as it is when
    the generation call returns and the email has an "id", and in
    every other case a summary made of the snippet of the email (of
    "Unable to generate summary" when there is none), no key point, no
    action item and the sentiment "neutral".  An email that lacks one
    of the three keys makes it raise [KeyError]. *)
Theorem summarize_email_by_cases
    (sv : Services) (g : Binding) (email : Dict.t string)
    (cls : Classification) (w : World) :
  (forall f s b,
     Dict.get "from" email = Some f ->
     Dict.get "subject" email = Some s ->
     Dict.get "body" email = Some b ->
     let fallback :=
       JObj [ ("summary",
               JStr match Dict.get "snippet" email with
                    | Some snippet => snippet
                    | None => "Unable to generate summary"
                    end);
              ("key_points", JArr []); ("action_items", JArr []);
              ("sentiment", JStr "neutral") ] in
     SummarizerAgent.summarize_email sv g email cls w
     = match generate sv g (SummaryPrompt f s b (category cls) (priority cls))
               SummarizerAgent.system_prompt, Dict.get "id" email with
       | Returns j, Some id => (Returns j, emit (INFO, Summarized_email id) w)
       | Returns j, None =>
           (Returns fallback,
            emit (ERROR, Error_summarizing_email (KeyError "id")) w)
       | Raises e, _ =>
           (Returns fallback, emit (ERROR, Error_summarizing_email e) w)
       end)
  /\ (Dict.get "from" email = None \/ Dict.get "subject" email = None
      \/ Dict.get "body" email = None ->
      exists k, SummarizerAgent.summarize_email sv g email cls w
                = (Raises (KeyError k), w)).
Proof.
  split.
  - intros f s b Hf Hs Hb fallback.
    unfold SummarizerAgent.summarize_email, SummarizerAgent.summary_prompt,
      bind, lift, ret, try_except, Dict.getitem.
    rewrite Hf, Hs, Hb.
    destruct (generate sv g _ SummarizerAgent.system_prompt) as [j|e];
      [|reflexivity].
    destruct (Dict.get "id" email); reflexivity.
  - intros H.
    unfold SummarizerAgent.summarize_email, SummarizerAgent.summary_prompt,
      bind, lift, ret, try_except, Dict.getitem.
    destruct (Dict.get "from" email); [|eauto].
    destruct (Dict.get "subject" email); [|eauto].
    destruct (Dict.get "body" email); [|eauto].
    destruct H as [H|[H|H]]; discriminate.
Qed.

Lemma summarize_email_by_cases_witness :
  SummarizerAgent.summarize_email Sample.services
    (Some (fun _ => LLMClient.init Sample.services Sample.openai)) Sample.mail Sample.classified
    Sample.world
  = (Returns (JObj [ ("summary", JStr "Could you send");
                     ("key_points", JArr []); ("action_items", JArr []);
                     ("sentiment", JStr "neutral") ]),
     emit (ERROR, Error_summarizing_email (ServiceError 503)) Sample.world).
Proof.
  exact (proj1 (summarize_email_by_cases Sample.services
                  (Some (fun _ => LLMClient.init Sample.services Sample.openai)) Sample.mail
                  Sample.classified Sample.world)
           "Ann Lee <ann@example.org>" "Contract renewal"
           "Could you send the renewed contract?" eq_refl eq_refl eq_refl).
Defined.

(** X19.  The three extractions of the sender's address agree.
    [extract_email_address] of the helpers, which has no [try], never
    raises; [extract_sender_info] of the summarizer never reaches its
    [except] branch and gives the same address; and whenever
    [_extract_sender_name] of the drafter returns without logging, its
    address and full name are those of the summarizer. *)
Theorem sender_extractions_agree (from_field : string) (d : Desk) (w : World) :
  exists info,
    SenderInfo.extract_sender_info from_field d = (Returns info, d)
    /\ Helpers.extract_email_address from_field
       = Returns (SenderInfo.email info)
    /\ (contains lt_sign from_field && contains gt_sign from_field = false ->
        info = {| SenderInfo.name := ""; SenderInfo.email := strip from_field |})
    /\ exists info' w',
         ReplyDrafterAgent._extract_sender_name from_field w = (Returns info', w')
         /\ (log w' = log w ->
             ReplyDrafterAgent.email info' = SenderInfo.email info
             /\ ReplyDrafterAgent.full_name info' = SenderInfo.name info).
Proof.
  unfold SenderInfo.extract_sender_info, Helpers.extract_email_address,
    ReplyDrafterAgent._extract_sender_name, try_except, bind, lift, ret.
  destruct (contains lt_sign from_field && contains gt_sign from_field) eqn:Hc.
  - apply andb_true_iff in Hc. destruct Hc as [Hlt _].
    destruct (split_two lt_sign from_field Hlt) as (seg0 & seg1 & segs & Hsplit).
    destruct (split_nonempty gt_sign seg1) as (a & rest & Ha).
    assert (H0 : index (split lt_sign from_field) 0 = Returns seg0)
      by now rewrite Hsplit.
    assert (H1 : index (split lt_sign from_field) 1 = Returns seg1)
      by now rewrite Hsplit.
    assert (H2 : index (split gt_sign seg1) 0 = Returns a) by now rewrite Ha.
    rewrite H0, H1. cbn [obind]. rewrite H2. cbn [obind].
    eexists. split; [reflexivity|]. split; [reflexivity|].
    split; [discriminate|]. cbn [fst snd].
    destruct (nonempty (strip_with (Ascii.eqb quote) (strip seg0))).
    + destruct (index (split_whitespace
                         (strip_with (Ascii.eqb quote) (strip seg0))) 0).
      * eexists. eexists. split; [reflexivity|]. intros _. now split.
      * eexists. eexists. split; [reflexivity|]. simpl. intros Hlog.
        apply (f_equal (@List.length _)) in Hlog.
        rewrite length_app in Hlog. simpl in Hlog. lia.
    + eexists. eexists. split; [reflexivity|]. intros _. now split.
  - eexists. split; [reflexivity|]. split; [reflexivity|].
    split; [reflexivity|]. simpl.
    eexists. eexists. split; [reflexivity|]. intros _. now split.
Qed.

End SummarizerExtras.

(** ** The LLM client *)

Section ClientExtras.
Local Open Scope string_scope.

(** X20.  [LLMClient()] accepts the providers "anthropic" and "openai"
    and raises [ValueError] for any other, which also ends the import
    of the module; for one of the two, what the constructor of its SDK
    raises leaves [LLMClient()] as well.  For a client that was built,
    the branch of [generate_json] that falls off the end is out of
    reach: a value it returns was parsed by [json.loads] from a text
    one of the two providers sent back, asked with temperature 0.3
    and, for OpenAI, the JSON response format. *)
Theorem built_client_parses_what_its_provider_sent
    (sv : Services) (settings : LLMSettings) (prompt : Prompt)
    (system_prompt : option string) :
  (ai_provider settings <> "anthropic" -> ai_provider settings <> "openai" ->
   LLMClient.init sv settings = Raises ValueError
   /\ LLMClient.module sv settings = Raises ValueError)
  /\ (forall client j,
        LLMClient.init sv settings = Returns client ->
        LLMClient.generate_json sv client prompt system_prompt = Returns j ->
        exists text,
          json_loads sv text = Returns j
          /\ ((ai_provider settings = "anthropic"
               /\ exists rq, anthropic_create sv rq = Returns text
                             /\ a_temperature rq = 3 # 10
                             /\ a_model rq = "claude-sonnet-4-20250514")
              \/ (ai_provider settings = "openai"
                  /\ exists rq, openai_create sv rq = Returns text
                                /\ o_temperature rq = 3 # 10
                                /\ o_response_format rq = Some "json_object"
                                /\ o_model rq = "gpt-4-turbo-preview")))
  /\ (forall e,
        (ai_provider settings = "anthropic"
         /\ new_anthropic sv (anthropic_api_key settings) = Raises e)
        \/ (ai_provider settings = "openai"
            /\ new_openai sv (openai_api_key settings) = Raises e) ->
        LLMClient.init sv settings = Raises e
        /\ LLMClient.module sv settings = Raises e).
Proof.
  split; [|split].
  - intros Ha Ho. apply String.eqb_neq in Ha, Ho.
    unfold LLMClient.module, LLMClient.init. now rewrite Ha, Ho.
  - intros client j Hinit Hgen. unfold LLMClient.init in Hinit.
    destruct (String.eqb (ai_provider settings) "anthropic") eqn:Ea.
    + apply String.eqb_eq in Ea.
      destruct (new_anthropic sv (anthropic_api_key settings)); [|discriminate].
      injection Hinit as <-. unfold LLMClient.generate_json in Hgen.
      cbn [LLMClient.provider LLMClient.model] in Hgen.
      rewrite Ea in Hgen. simpl in Hgen.
      match type of Hgen with context [anthropic_create sv ?rq] =>
        destruct (anthropic_create sv rq) as [text|e] eqn:Hrq; [|discriminate];
        exists text; split; [exact Hgen|]; left; split; [exact Ea|];
        exists rq; repeat split; assumption
      end.
    + destruct (String.eqb (ai_provider settings) "openai") eqn:Eo; [|discriminate].
      apply String.eqb_eq in Eo.
      destruct (new_openai sv (openai_api_key settings)); [|discriminate].
      injection Hinit as <-. unfold LLMClient.generate_json in Hgen.
      cbn [LLMClient.provider LLMClient.model] in Hgen.
      rewrite Eo in Hgen. simpl in Hgen.
      match type of Hgen with context [openai_create sv ?rq] =>
        destruct (openai_create sv rq) as [text|e] eqn:Hrq; [|discriminate];
        exists text; split; [exact Hgen|]; right; split; [exact Eo|];
        exists rq; repeat split; assumption
      end.
  - intros e [[Hp He] | [Hp He]];
      unfold LLMClient.module, LLMClient.init; rewrite Hp; simpl;
      rewrite He; split; reflexivity.
Qed.

Lemma built_client_parses_witness :
  exists text,
    json_loads Sample.terse text = Returns (JObj [])
    /\ exists rq, openai_create Sample.terse rq = Returns text
                  /\ o_response_format rq = Some "json_object".
Proof.
  destruct (proj1 (proj2 (built_client_parses_what_its_provider_sent Sample.terse
                            Sample.openai (SummaryPrompt "a" "b" "c" "d" "e") None))
              _ (JObj []) eq_refl eq_refl)
    as (text & Hj & [[Hp _]|[_ (rq & Hrq & _ & Hfmt & _)]]).
  - discriminate Hp.
  - exists text. split; [exact Hj|]. exists rq. split; [exact Hrq | exact Hfmt].
Defined.

End ClientExtras.

(** ** utils/helpers.py *)

Section HelpersExtras.
Local Open Scope string_scope.

(** X21.  [truncate_text] leaves a text of at most [max_length]
    characters as it is.  A longer text is cut to exactly [max_length]
    characters, the last three of them dots, provided [max_length] is
    at least 3; for a smaller [max_length] the slice index is negative
    and the result is longer than [max_length]. *)
Theorem truncate_text_keeps_the_bound_from_three_on (text : string) (max_length : Z) :
  let n := Z.of_nat (String.length text) in
  let result := Helpers.truncate_text text max_length in
  ((n <= max_length)%Z -> result = text)
  /\ ((max_length < n)%Z -> (3 <= max_length)%Z ->
      Z.of_nat (String.length result) = max_length
      /\ result = Str.prefix (Z.to_nat (max_length - 3)) text ++ "...")
  /\ ((max_length < n)%Z -> (max_length < 3)%Z ->
      (max_length < Z.of_nat (String.length result))%Z).
Proof.
  intros n result. subst result. unfold Helpers.truncate_text. fold n.
  split; [|split].
  - intros H. apply Z.leb_le in H. now rewrite H.
  - intros Hlong Hbig.
    destruct (n <=? max_length)%Z eqn:E; [apply Z.leb_le in E; lia|].
    unfold Text.slice_to.
    destruct (max_length - 3 <? 0)%Z eqn:En; [apply Z.ltb_lt in En; lia|].
    split; [|reflexivity].
    rewrite length_append_s, length_prefix. simpl String.length. subst n. lia.
  - intros Hlong Hsmall.
    destruct (n <=? max_length)%Z eqn:E; [apply Z.leb_le in E; lia|].
    rewrite length_append_s. simpl String.length. lia.
Qed.

Lemma truncate_text_witness :
  Z.of_nat (String.length (Helpers.truncate_text "Could you send the contract" 10))
  = 10%Z
  /\ Helpers.truncate_text "Could you send the contract" 10 = "Could y...".
Proof.
  exact (proj1 (proj2 (truncate_text_keeps_the_bound_from_three_on
                         "Could you send the contract" 10))
           eq_refl (fun H => match H with eq_refl => I end)).
Defined.

End HelpersExtras.

(** ** Reading the inbox *)

Section InboxExtras.
Import Inbox.
Local Open Scope string_scope.
Local Open Scope list_scope.

(** The email [_get_email_details] builds from a message it could
    read. *)
Lemma details_run sv mail id d :
  _get_email_details sv mail id d
  = match Shape.read_email sv mail id with
    | Returns email => (Returns (Some email), d)
    | Raises e =>
        (Returns None,
         mkDesk (world d)
           (notes d ++ [(List.length (log (world d)),
                         (ERROR, Error_getting_email_details id e))]))
    end.
Proof.
  unfold _get_email_details, Shape.read_email, try_except, bind, lift, ret,
    note, obind.
  destruct (get_message mail id) as [m|e]; [|reflexivity].
  destruct (headers_of m) as [hs|e]; [|reflexivity].
  destruct (payload_of m) as [p|e]; [|reflexivity].
  destruct (GmailClient._get_email_body sv p) as [b|e]; [|reflexivity].
  destruct (threadId_of m) as [t|e]; reflexivity.
Qed.

(** X22.  [_get_email_details] never raises and never touches the
    world.  It returns an email exactly when the message could be
    fetched, has a payload with headers and a thread id, and its body
    could be decoded; the email then has the seven keys "id",
    "thread_id", "subject", "from", "date", "body" and "snippet" in
    this order, each header taken from the first header of that name
    in any letter case and empty when there is none.  In every other
    case it returns [None] and logs one error. *)
Theorem email_details_are_complete_or_none
    (sv : Services) (mail : MailService) (id : string) (d : Desk) :
  exists r d',
    _get_email_details sv mail id d = (Returns r, d')
    /\ world d' = world d
    /\ (forall m p hs t b,
          get_message mail id = Returns m ->
          payload m = Some p -> headers m = Some hs -> threadId m = Some t ->
          GmailClient._get_email_body sv p = Returns b ->
          d' = d
          /\ r = Some [ ("id", id); ("thread_id", t);
                        ("subject", header "subject" hs);
                        ("from", header "from" hs);
                        ("date", header "date" hs);
                        ("body", b);
                        ("snippet", match snippet m with
                                    | Some s => s
                                    | None => ""
                                    end) ])
    /\ (forall email, r = Some email ->
          d' = d /\ Dict.keys email = Shape.email_keys
          /\ Dict.get "id" email = Some id
          /\ exists m p hs t,
               get_message mail id = Returns m /\ payload m = Some p
               /\ headers m = Some hs /\ threadId m = Some t
               /\ Dict.getitem email "body" = GmailClient._get_email_body sv p)
    /\ (r = None ->
        exists e, notes d'
                  = notes d ++ [(List.length (log (world d)),
                                 (ERROR, Error_getting_email_details id e))]).
Proof.
  rewrite details_run.
  unfold Shape.read_email, obind, headers_of, payload_of, threadId_of.
  destruct (get_message mail id) as [m|e].
  2:{ eexists. eexists. split; [reflexivity|]. split; [reflexivity|].
      split; [intros; discriminate|]. split; [intros; discriminate|].
      intros _. eexists. reflexivity. }
  destruct (payload m) as [p|] eqn:Hp.
  2:{ eexists. eexists. split; [reflexivity|]. split; [reflexivity|].
      split; [intros ? ? ? ? ? Hm; inversion Hm; subst; congruence|].
      split; [intros; discriminate|]. intros _. eexists. reflexivity. }
  destruct (headers m) as [hs|] eqn:Hh.
  2:{ eexists. eexists. split; [reflexivity|]. split; [reflexivity|].
      split; [intros ? ? ? ? ? Hm; inversion Hm; subst; congruence|].
      split; [intros; discriminate|]. intros _. eexists. reflexivity. }
  destruct (GmailClient._get_email_body sv p) as [b|e] eqn:Hb.
  2:{ eexists. eexists. split; [reflexivity|]. split; [reflexivity|].
      split; [intros ? ? ? ? ? Hm Hp'; inversion Hm; subst; congruence|].
      split; [intros; discriminate|]. intros _. eexists. reflexivity. }
  destruct (threadId m) as [t|] eqn:Ht.
  2:{ eexists. eexists. split; [reflexivity|]. split; [reflexivity|].
      split; [intros ? ? ? ? ? Hm; inversion Hm; subst; congruence|].
      split; [intros; discriminate|]. intros _. eexists. reflexivity. }
  eexists. eexists. split; [reflexivity|]. split; [reflexivity|].
  split.
  - intros m' p' hs' t' b' Hm Hp' Hh' Ht' Hb'. inversion Hm; subst m'.
    rewrite Hp in Hp'. inversion Hp'; subst p'.
    rewrite Hh in Hh'. inversion Hh'; subst hs'.
    rewrite Ht in Ht'. inversion Ht'; subst t'.
    rewrite Hb in Hb'. inversion Hb'; subst b'. now split.
  - split; [|discriminate].
    intros email Hemail. inversion Hemail; subst email.
    split; [reflexivity|]. split; [reflexivity|]. split; [reflexivity|].
    exists m, p, hs, t. split; [reflexivity|]. split; [exact Hp|].
    split; [exact Hh|]. split; [exact Ht|]. now rewrite Hb.
Qed.

Lemma read_email_keys sv mail id email :
  Shape.read_email sv mail id = Returns email ->
  Dict.keys email = Shape.email_keys /\ Dict.get "id" email = Some id.
Proof.
  unfold Shape.read_email, obind.
  destruct (get_message mail id) as [m|e]; [|discriminate].
  destruct (headers_of m) as [hs|e]; [|discriminate].
  destruct (payload_of m) as [p|e]; [|discriminate].
  destruct (GmailClient._get_email_body sv p) as [b|e]; [|discriminate].
  destruct (threadId_of m) as [t|e]; [|discriminate].
  intros H. injection H as <-. now split.
Qed.

(** The loop of [fetch_unread_emails] appends, in the order of the
    listing, the emails of the messages that can be read. *)
Lemma details_loop sv mail ids : forall emails d,
  exists d',
    details sv mail ids emails d
    = (Returns (emails
                ++ flat_map (fun id => match Shape.read_email sv mail id with
                                       | Returns email => [email]
                                       | Raises _ => []
                                       end) ids), d')
    /\ world d' = world d.
Proof.
  induction ids as [|id ids IH]; intros emails d; simpl.
  - exists d. now rewrite app_nil_r.
  - unfold bind. rewrite details_run.
    destruct (Shape.read_email sv mail id) as [email|e] eqn:Hread.
    + destruct (read_email_keys _ _ _ _ Hread) as [Hkeys _].
      assert (Htrue : truthy email = true)
        by (destruct email; [discriminate Hkeys | reflexivity]).
      rewrite Htrue.
      destruct (IH (emails ++ [email]) d) as (d' & Hrun & Hw).
      exists d'. rewrite Hrun, <- app_assoc. now split.
    + match goal with |- context [details sv mail ids emails ?d1] =>
        destruct (IH emails d1) as (d' & Hrun & Hw)
      end.
      exists d'. rewrite Hrun. now split.
Qed.

Lemma flat_map_readable sv mail ids :
  map (Dict.get "id")
      (flat_map (fun id => match Shape.read_email sv mail id with
                           | Returns email => [email]
                           | Raises _ => []
                           end) ids)
  = map Some (filter (Shape.readable sv mail) ids)
  /\ Forall (fun email => Dict.keys email = Shape.email_keys)
       (flat_map (fun id => match Shape.read_email sv mail id with
                            | Returns email => [email]
                            | Raises _ => []
                            end) ids).
Proof.
  induction ids as [|id ids [IH1 IH2]]; simpl; [split; [reflexivity|constructor]|].
  unfold Shape.readable at 1.
  destruct (Shape.read_email sv mail id) as [email|e] eqn:Hread; simpl.
  - destruct (read_email_keys _ _ _ _ Hread) as [Hkeys Hid].
    rewrite Hid, IH1. split; [reflexivity|]. now constructor.
  - now split.
Qed.

Lemma fetch_returns_the_readable_messages_aux sv mail max_results d :
  exists emails d',
    fetch_unread_emails sv mail max_results d = (Returns emails, d')
    /\ Forall (fun email => Dict.keys email = Shape.email_keys) emails.
Proof.
  unfold fetch_unread_emails, try_except, bind, lift.
  destruct (list_unread mail max_results) as [listed|e].
  - match goal with |- context [details sv mail ?ids [] d] =>
      destruct (details_loop sv mail ids [] d) as (d1 & Hrun & _);
      rewrite Hrun; destruct (flat_map_readable sv mail ids) as [_ Hkeys]
    end.
    eexists. eexists. split; [reflexivity | exact Hkeys].
  - eexists. eexists. split; [reflexivity | constructor].
Qed.

(** X23.  [fetch_unread_emails] never raises and never touches the
    world.  When the listing raises it returns the empty list and logs
    the error.  Otherwise it returns one email for each listed message
    that can be read, in the order of the listing and under the id of
    the message; a message that cannot be read is left out, with its
    error logged, and does not stop the others.  Every email returned
    has the seven keys. *)
Theorem fetch_returns_the_readable_messages
    (sv : Services) (mail : MailService) (max_results : Z) (d : Desk) :
  exists emails d',
    fetch_unread_emails sv mail max_results d = (Returns emails, d')
    /\ world d' = world d
    /\ Forall (fun email => Dict.keys email = Shape.email_keys) emails
    /\ (forall e, list_unread mail max_results = Raises e ->
          emails = []
          /\ notes d' = notes d ++ [(List.length (log (world d)),
                                     (ERROR, Error_fetching_emails e))])
    /\ (forall listed, list_unread mail max_results = Returns listed ->
          let ids := match listed with Some l => l | None => [] end in
          map (Dict.get "id") emails
          = map Some (filter (Shape.readable sv mail) ids)
          /\ (List.length emails <= List.length ids)%nat).
Proof.
  unfold fetch_unread_emails, try_except, bind, lift.
  destruct (list_unread mail max_results) as [listed|e].
  - set (ids := match listed with Some l => l | None => [] end).
    destruct (details_loop sv mail ids [] d) as (d1 & Hrun & Hw).
    rewrite Hrun. simpl.
    destruct (flat_map_readable sv mail ids) as [Hids Hkeys].
    eexists. eexists. split; [reflexivity|]. simpl.
    split; [exact Hw|]. split; [exact Hkeys|].
    split; [intros; discriminate|].
    intros listed' Hl. injection Hl as <-. fold ids. split; [exact Hids|].
    apply (f_equal (@List.length _)) in Hids. rewrite !length_map in Hids.
    rewrite Hids. apply filter_length_le.
  - eexists. eexists. split; [reflexivity|]. simpl.
    split; [reflexivity|]. split; [constructor|].
    split; [intros e' He'; injection He' as <-; now split|].
    intros; discriminate.
Qed.

(** The sample inbox: of three listed messages one is read. *)
Example fetch_in_the_sample_inbox :
  exists d',
    fetch_unread_emails Sample.services SampleInbox.mailbox 50 SampleInbox.desk
    = (Returns [ [ ("id", "a1"); ("thread_id", "t1"); ("subject", "Hi");
                   ("from", "Bob <bob@example.org>"); ("date", "");
                   ("body", "hello"); ("snippet", "") ] ], d')
    /\ map snd (notes d')
       = [ (ERROR, Error_getting_email_details "a2" (ServiceError 404));
           (ERROR, Error_getting_email_details "a3" (KeyError "threadId"));
           (INFO, Fetched_unread_emails 1) ].
Proof.
  exists (snd (fetch_unread_emails Sample.services SampleInbox.mailbox 50
                 SampleInbox.desk)).
  split; reflexivity.
Qed.

Lemma keys_make_draftable email :
  Dict.keys email = Shape.email_keys -> Shape.draftable email.
Proof.
  intros Hkeys. unfold Shape.draftable.
  repeat split; intros Hnone; apply dict_get_None_keys in Hnone;
    apply Hnone; rewrite Hkeys; simpl; auto 10.
Qed.

Lemma summarize_email_returns sv g email cls w :
  Shape.draftable email ->
  exists result w',
    SummarizerAgent.summarize_email sv g email cls w = (Returns result, w').
Proof.
  intros (Hb & Hf & Hs).
  unfold SummarizerAgent.summarize_email, SummarizerAgent.summary_prompt,
    bind, lift, ret, try_except, Dict.getitem, logger_info, logger_error, modify.
  destruct (Dict.get "from" email); [|congruence].
  destruct (Dict.get "subject" email); [|congruence].
  destruct (Dict.get "body" email); [|congruence].
  match goal with |- context [generate ?a ?b ?c ?d] =>
    destruct (generate a b c d)
  end; [destruct (Dict.get "id" email)|]; eauto.
Qed.

(** X24.  What the fetcher returns, the agents can work on as far as
    the email goes: [fetch_new_emails] always returns, and on each
    email it returns [summarize_email] returns as well, whatever the
    services and the classification are; the [KeyError] on an email
    without "body", "from" or "subject" cannot come up, there or in
    [draft_reply].  Whether [draft_reply] returns on such an email is
    then a matter of the summary alone: it returns exactly when the
    summary can be read, as the fallback summary of [summarize_email]
    can, and raises the error of the read when it cannot. *)
Theorem fetched_emails_can_be_processed
    (sv : Services) (mail : MailService) (max_emails_per_run : Z) (d : Desk) :
  exists emails d',
    fetch_new_emails sv mail max_emails_per_run d = (Returns emails, d')
    /\ forall email, In email emails ->
         (forall sv' g cls w,
            exists result w',
              SummarizerAgent.summarize_email sv' g email cls w
              = (Returns result, w'))
         /\ (forall sv' g cls summ ctx w,
               (exists reply w',
                  ReplyDrafterAgent.draft_reply sv' g email cls summ ctx w
                  = (Returns reply, w'))
               <-> exists block,
                     ReplyDrafterAgent.summary_block summ = Returns block)
         /\ (forall sv' g cls summ ctx w e,
               ReplyDrafterAgent.summary_block summ = Raises e ->
               exists w',
                 ReplyDrafterAgent.draft_reply sv' g email cls summ ctx w
                 = (Raises e, w'))
         /\ (forall sv' g cls ctx w,
               exists reply w',
                 ReplyDrafterAgent.draft_reply sv' g email cls
                   (SummarizerAgent.fallback_summary email) ctx w
                 = (Returns reply, w')).
Proof.
  destruct (fetch_returns_the_readable_messages_aux sv mail max_emails_per_run
              (snd (note INFO Fetching_new_emails d)))
    as (emails & d1 & Hrun & Hkeys).
  assert (Hall : forall email, In email emails -> Shape.draftable email).
  { intros email Hin. rewrite Forall_forall in Hkeys.
    exact (keys_make_draftable email (Hkeys email Hin)). }
  unfold fetch_new_emails, bind. simpl in Hrun |- *. rewrite Hrun.
  exists emails.
  assert (Hgoal : forall email, In email emails ->
    (forall sv' g cls w,
       exists result w',
         SummarizerAgent.summarize_email sv' g email cls w
         = (Returns result, w'))
    /\ (forall sv' g cls summ ctx w,
          (exists reply w',
             ReplyDrafterAgent.draft_reply sv' g email cls summ ctx w
             = (Returns reply, w'))
          <-> exists block,
                ReplyDrafterAgent.summary_block summ = Returns block)
    /\ (forall sv' g cls summ ctx w e,
          ReplyDrafterAgent.summary_block summ = Raises e ->
          exists w',
            ReplyDrafterAgent.draft_reply sv' g email cls summ ctx w
            = (Raises e, w'))
    /\ (forall sv' g cls ctx w,
          exists reply w',
            ReplyDrafterAgent.draft_reply sv' g email cls
              (SummarizerAgent.fallback_summary email) ctx w
            = (Returns reply, w'))).
  { intros email Hin. pose proof (Hall email Hin) as Hd.
    split; [intros; now apply summarize_email_returns|].
    split; [|split].
    - intros sv' g cls summ ctx w. split.
      + intros (reply & w' & Hr).
        destruct (ReplyDrafterAgent.summary_block summ) as [block|e] eqn:Hb;
          [eauto|].
        destruct (draft_reply_raises sv' g email cls summ ctx w e Hd Hb)
          as (w'' & Hr'). congruence.
      + intros (block & Hb). now apply draft_reply_returns with block.
    - intros sv' g cls summ ctx w e Hb. now apply draft_reply_raises.
    - intros sv' g cls ctx w.
      eapply draft_reply_returns; [exact Hd | apply fallback_summary_block]. }
  destruct (truthy emails); eexists; (split; [reflexivity|]); exact Hgoal.
Qed.

End InboxExtras.

(** ** Adding to the vector index *)

Section IndexingExtras.
Import Indexing.
Local Open Scope string_scope.
Local Open Scope list_scope.

(** X25.  [add_email_pair] never raises.  The record it hands to the
    index holds the id, the embedding of the incoming text, the
    response text as document and the metadata, an absent or empty
    metadata becoming the empty dictionary; the collection becomes
    what the index makes of it.  When the encoder or the index raises,
    the collection stays as it was and the error is logged. *)
Theorem add_email_pair_is_all_or_nothing
    (sv : Services) (add : Adder) (id incoming_text response_text : string)
    (metadata : option (Dict.t string)) (d : Desk) :
  exists d',
    add_email_pair sv add id incoming_text response_text metadata d
      = (Returns tt, d')
    /\ follow_ups (world d') = follow_ups (world d)
    /\ log (world d') = log (world d)
    /\ (forall e, encode sv incoming_text = Raises e ->
          collection (world d') = collection (world d)
          /\ notes d' = notes d ++ [(List.length (log (world d)),
                                     (ERROR, Error_adding_to_vector_store e))])
    /\ (forall embedding,
          encode sv incoming_text = Returns embedding ->
          let record :=
            {| er_id := id; er_embedding := embedding;
               er_document := response_text;
               er_metadata := match metadata with
                              | Some (item :: m) => item :: m
                              | _ => []
                              end |} in
          match add (collection (world d)) record with
          | Returns coll' =>
              collection (world d') = coll'
              /\ notes d' = notes d ++ [(List.length (log (world d)),
                                         (INFO, Added_email_pair id))]
          | Raises e =>
              collection (world d') = collection (world d)
              /\ notes d' = notes d ++ [(List.length (log (world d)),
                                         (ERROR, Error_adding_to_vector_store e))]
          end).
Proof.
  unfold add_email_pair, try_except, bind, lift, on_world, gets, modify, note.
  destruct (encode sv incoming_text) as [embedding|e].
  - simpl.
    assert (Hmeta : match metadata with
                    | Some m => if truthy m then m else []
                    | None => []
                    end
                    = match metadata with
                      | Some (item :: m) => item :: m
                      | _ => []
                      end) by (destruct metadata as [[|item m]|]; reflexivity).
    rewrite Hmeta.
    destruct (add (collection (world d)) _) as [coll'|e] eqn:Hadd.
    + eexists. split; [reflexivity|]. simpl.
      split; [reflexivity|]. split; [reflexivity|].
      split; [intros; discriminate|].
      intros embedding' He. injection He as <-. simpl. rewrite Hadd. now split.
    + eexists. split; [reflexivity|]. simpl.
      split; [reflexivity|]. split; [reflexivity|].
      split; [intros; discriminate|].
      intros embedding' He. injection He as <-. simpl. rewrite Hadd. now split.
  - eexists. split; [reflexivity|]. simpl.
    split; [reflexivity|]. split; [reflexivity|].
    split; [intros e' He; injection He as <-; now split|].
    intros; discriminate.
Qed.

End IndexingExtras.
